(** * ssh-mcp-server: host registry parser and command dispatch

    A shallow embedding of [src/index.ts] (class [SSHMCPServer]) and the
    properties of it that the specification states.

    Conventions of the embedding.
    - A JavaScript string is a [string]: the sequence of its bytes.  Text is
      taken to be ASCII where the code inspects it (white space, letter
      case); a payload that is only encoded is an arbitrary byte sequence,
      the one [Buffer.from] produces.
    - [Map<string, SSHHost>] is an insertion-ordered association list with
      unique keys ([JsMap]).
    - [async] methods are run sequentially (every call is awaited), so a
      method is a function from the state before to the state after.  A
      method that may fail to return carries fuel and yields [None] when the
      fuel runs out.
    - The file system, the glob matcher and the child processes are the
      environment: they are arguments of the functions that use them. *)

From Stdlib Require Import String Ascii List NArith ZArith Lia Bool Arith.
From Stdlib Require Import DecimalString.
Import ListNotations.
Open Scope list_scope.
Open Scope string_scope.

(** ** JavaScript string primitives used by the source *)

Module JsString.

(** White space as [trim] and the regular expression [\s] see it, on ASCII
    text: tab, line feed, vertical tab, form feed, carriage return, space. *)
Definition isSpace (c : ascii) : bool :=
  let n := nat_of_ascii c in
  ((9 <=? n) && (n <=? 13) || (n =? 32))%nat.

Definition lowerChar (c : ascii) : ascii :=
  let n := nat_of_ascii c in
  if ((65 <=? n) && (n <=? 90))%nat then ascii_of_nat (n + 32) else c.

(** [s.toLowerCase()] *)
Fixpoint toLowerCase (s : string) : string :=
  match s with
  | EmptyString => EmptyString
  | String c s' => String (lowerChar c) (toLowerCase s')
  end.

(** [s.startsWith(p)] *)
Definition startsWith (s p : string) : bool := String.prefix p s.

Definition isEmpty (s : string) : bool :=
  match s with EmptyString => true | _ => false end.

Fixpoint trimStart (s : string) : string :=
  match s with
  | EmptyString => EmptyString
  | String c s' => if isSpace c then trimStart s' else s
  end.

Fixpoint trimEnd (s : string) : string :=
  match s with
  | EmptyString => EmptyString
  | String c s' =>
      let r := trimEnd s' in
      if isSpace c && isEmpty r then EmptyString else String c r
  end.

(** [s.trim()] *)
Definition trim (s : string) : string := trimEnd (trimStart s).

(** [s.substring(n)] *)
Fixpoint substringFrom (n : nat) (s : string) : string :=
  match n, s with
  | O, _ => s
  | S n', String _ s' => substringFrom n' s'
  | S _, EmptyString => EmptyString
  end.

Definition consHead (c : ascii) (l : list string) : list string :=
  match l with
  | t :: ts => String c t :: ts
  | [] => [String c EmptyString]
  end.

(** [s.split(sep)] for a one-character separator: empty pieces are kept. *)
Fixpoint splitChar (sep : ascii) (s : string) : list string :=
  match s with
  | EmptyString => [EmptyString]
  | String c s' =>
      if Ascii.eqb c sep then EmptyString :: splitChar sep s'
      else consHead c (splitChar sep s')
  end.

(** [s.split(/\s+/)]: the pieces between maximal runs of white space.  A
    run at either end of [s] leaves an empty piece there. *)
Fixpoint splitSpacesFrom (inRun : bool) (s : string) : list string :=
  match s with
  | EmptyString => [EmptyString]
  | String c s' =>
      if isSpace c then
        if inRun then splitSpacesFrom true s'
        else EmptyString :: splitSpacesFrom true s'
      else consHead c (splitSpacesFrom false s')
  end.

Definition splitSpaces (s : string) : list string := splitSpacesFrom false s.

(** [parts.join(sep)] *)
Fixpoint join (sep : string) (parts : list string) : string :=
  match parts with
  | [] => EmptyString
  | [p] => p
  | p :: ps => p ++ sep ++ join sep ps
  end.

(** [s.includes(c)] for a one-character needle. *)
Fixpoint includesChar (c : ascii) (s : string) : bool :=
  match s with
  | EmptyString => false
  | String d s' => Ascii.eqb d c || includesChar c s'
  end.

(** [s.replace(c, by)] for a one-character string pattern: the first
    occurrence only.  [by] is the home directory, taken to hold no [$]
    (which [replace] would read as a substitution pattern). *)
Fixpoint replaceFirstChar (c : ascii) (by_ : string) (s : string) : string :=
  match s with
  | EmptyString => EmptyString
  | String d s' =>
      if Ascii.eqb d c then by_ ++ s' else String d (replaceFirstChar c by_ s')
  end.

End JsString.

(** ** JavaScript numbers as far as the source uses them *)

(** The result of [parseInt]: [NaN] or an integer.  [JsInt z] stands for the
    double nearest to [z] (the integer itself below 2^53); [-0] is [JsInt 0]. *)
Inductive JsNumber : Type :=
| JsNaN
| JsInt (z : Z).

Module JsNum.

Definition digitValue (c : ascii) : option Z :=
  let n := Z.of_nat (nat_of_ascii c) in
  if ((48 <=? n) && (n <=? 57))%Z then Some (n - 48)%Z
  else if ((97 <=? n) && (n <=? 122))%Z then Some (n - 87)%Z
  else if ((65 <=? n) && (n <=? 90))%Z then Some (n - 55)%Z
  else None.

Definition digitIn (radix : Z) (c : ascii) : option Z :=
  match digitValue c with
  | Some d => if (d <? radix)%Z then Some d else None
  | None => None
  end.

(** The longest prefix of digits of the radix, read left to right;
    [None] when [s] starts with no digit. *)
Fixpoint readDigits (radix : Z) (acc : option Z) (s : string) : option Z :=
  match s with
  | EmptyString => acc
  | String c s' =>
      match digitIn radix c with
      | Some d =>
          readDigits radix
            (Some (match acc with Some a => a * radix + d | None => d end)%Z) s'
      | None => acc
      end
  end.

Definition stripSign (s : string) : bool * string :=
  match s with
  | String "-" s' => (true, s')
  | String "+" s' => (false, s')
  | _ => (false, s)
  end.

Definition stripHexPrefix (s : string) : Z * string :=
  match s with
  | String "0" (String "x" s') => (16%Z, s')
  | String "0" (String "X" s') => (16%Z, s')
  | _ => (10%Z, s)
  end.

(** [parseInt(s)] with no radix argument (ECMA-262, 19.2.5). *)
Definition parseInt (s : string) : JsNumber :=
  let '(neg, s1) := stripSign (JsString.trimStart s) in
  let '(radix, s2) := stripHexPrefix s1 in
  match readDigits radix None s2 with
  | None => JsNaN
  | Some v => JsInt (if neg then - v else v)%Z
  end.

(** Truthiness of a number: [NaN] and [0] are falsy. *)
Definition truthy (n : JsNumber) : bool :=
  match n with
  | JsNaN => false
  | JsInt z => negb (z =? 0)%Z
  end.

End JsNum.

(** ** [Map]: insertion-ordered, unique keys *)

Module JsMap.

Definition t (V : Type) : Type := list (string * V).

Definition empty {V} : t V := [].

(** [m.get(k)]: [None] is [undefined]. *)
Fixpoint get {V} (m : t V) (k : string) : option V :=
  match m with
  | [] => None
  | (k', v) :: m' => if String.eqb k' k then Some v else get m' k
  end.

(** [m.set(k, v)]: an existing key keeps its place and takes the new
    value; a new key goes last. *)
Fixpoint set {V} (k : string) (v : V) (m : t V) : t V :=
  match m with
  | [] => [(k, v)]
  | (k', v') :: m' =>
      if String.eqb k' k then (k', v) :: m' else (k', v') :: set k v m'
  end.

Definition entries {V} (m : t V) : list (string * V) := m.

End JsMap.

(** ** [path.join] of Node's POSIX path module *)

Module Path.

(** [normalizeString]: the segments that remain, innermost first in
    [stack].  Empty segments and [.] are dropped; [..] removes the segment
    before it, and is kept only where nothing is left to remove and the
    path is relative. *)
Fixpoint normalizeSegments (allowAboveRoot : bool) (stack segs : list string)
  : list string :=
  match segs with
  | [] => rev stack
  | seg :: rest =>
      if String.eqb seg "" || String.eqb seg "." then
        normalizeSegments allowAboveRoot stack rest
      else if String.eqb seg ".." then
        match stack with
        | top :: below =>
            if String.eqb top ".." then
              normalizeSegments allowAboveRoot (".." :: stack) rest
            else normalizeSegments allowAboveRoot below rest
        | [] =>
            normalizeSegments allowAboveRoot
              (if allowAboveRoot then [".."] else []) rest
        end
      else normalizeSegments allowAboveRoot (seg :: stack) rest
  end.

Definition isAbsolute (p : string) : bool := JsString.startsWith p "/".

Fixpoint endsWithSlash (p : string) : bool :=
  match p with
  | EmptyString => false
  | String c EmptyString => Ascii.eqb c "/"
  | String _ p' => endsWithSlash p'
  end.

(** [path.normalize(p)] *)
Definition normalize (p : string) : string :=
  if JsString.isEmpty p then "."
  else
    let absolute := isAbsolute p in
    let trailing := endsWithSlash p in
    let body :=
      JsString.join "/"
        (normalizeSegments (negb absolute) [] (JsString.splitChar "/" p)) in
    if JsString.isEmpty body then
      if absolute then "/" else if trailing then "./" else "."
    else
      (if absolute then "/" else "") ++ body ++ (if trailing then "/" else "").

(** [path.join(...args)]: the non-empty arguments, joined by [/], then
    normalised; [.] when there is none. *)
Definition join (args : list string) : string :=
  match filter (fun a => negb (JsString.isEmpty a)) args with
  | [] => "."
  | parts => normalize (JsString.join "/" parts)
  end.

End Path.

(** ** The host record and the environment *)

(** [interface SSHHost].  [extra] holds the properties set through the index
    signature ([currentHost[lowerKey] = value]). *)
Record SSHHost : Type := mkSSHHost {
  host : string;
  hostname : option string;
  user : option string;
  port : option JsNumber;
  identityFile : option string;
  proxyJump : option string;
  extra : JsMap.t string
}.

(** [{ host: value }] *)
Definition newHost (value : string) : SSHHost :=
  mkSSHHost value None None None None None JsMap.empty.

Definition setHostname (v : string) (h : SSHHost) : SSHHost :=
  mkSSHHost (host h) (Some v) (user h) (port h) (identityFile h) (proxyJump h)
    (extra h).
Definition setUser (v : string) (h : SSHHost) : SSHHost :=
  mkSSHHost (host h) (hostname h) (Some v) (port h) (identityFile h)
    (proxyJump h) (extra h).
Definition setPort (n : JsNumber) (h : SSHHost) : SSHHost :=
  mkSSHHost (host h) (hostname h) (user h) (Some n) (identityFile h)
    (proxyJump h) (extra h).
Definition setIdentityFile (v : string) (h : SSHHost) : SSHHost :=
  mkSSHHost (host h) (hostname h) (user h) (port h) (Some v) (proxyJump h)
    (extra h).
Definition setProxyJump (v : string) (h : SSHHost) : SSHHost :=
  mkSSHHost (host h) (hostname h) (user h) (port h) (identityFile h) (Some v)
    (extra h).
(** [h[k] = v] for a key that names no declared field.  Assigning a string
    to [__proto__] changes nothing. *)
Definition setExtra (k v : string) (h : SSHHost) : SSHHost :=
  if String.eqb k "__proto__" then h
  else
    mkSSHHost (host h) (hostname h) (user h) (port h) (identityFile h)
      (proxyJump h) (JsMap.set k v (extra h)).

(** [this.sshHosts] *)
Definition Registry : Type := JsMap.t SSHHost.

(** What the parser asks of its surroundings: [os.homedir()],
    [fs.readFile(path, 'utf-8')] ([None]: the read throws) and [glob(pattern)]
    ([None]: the expansion throws). *)
Record Env : Type := mkEnv {
  homedir : string;
  readFile : string -> option string;
  glob : string -> option (list string)
}.

(** ** [parseSSHConfig] and [handleInclude] *)

Section Parser.

Variable env : Env.

(** The [switch (lowerKey)] of [parseSSHConfig]. *)
Definition setProperty (key value : string) (h : SSHHost) : SSHHost :=
  let lowerKey := JsString.toLowerCase key in
  if String.eqb lowerKey "hostname" then setHostname value h
  else if String.eqb lowerKey "user" then setUser value h
  else if String.eqb lowerKey "port" then setPort (JsNum.parseInt value) h
  else if String.eqb lowerKey "identityfile" then
    setIdentityFile (JsString.replaceFirstChar "~" (homedir env) value) h
  else if String.eqb lowerKey "proxyjump" then setProxyJump value h
  else setExtra lowerKey value h.

(** [if (currentHost) this.sshHosts.set(currentHost.host, currentHost)] *)
Definition commit (currentHost : option SSHHost) (hosts : Registry) : Registry :=
  match currentHost with
  | Some h => JsMap.set (host h) h hosts
  | None => hosts
  end.

(** The state of the loop of [parseSSHConfig]: the local [currentHost] and
    the shared [this.sshHosts]. *)
Definition LoopState : Type := (option SSHHost * Registry)%type.

(** One turn of the loop, on [lines[i]].  [include p hosts] stands for
    [await this.handleInclude(p, basePath)]; [None]: it does not return. *)
Definition parseLine (include : string -> Registry -> option Registry)
    (raw : string) (st : LoopState) : option LoopState :=
  let '(currentHost, hosts) := st in
  let line := JsString.trim raw in
  if JsString.isEmpty line || JsString.startsWith line "#" then Some st
  else if JsString.startsWith (JsString.toLowerCase line) "include " then
    let includePath := JsString.trim (JsString.substringFrom 8 line) in
    match include includePath hosts with
    | Some hosts' => Some (currentHost, hosts')
    | None => None
    end
  else
    match JsString.splitSpaces line with
    | [] => Some st
    | key :: valueParts =>
        let value := JsString.join " " valueParts in
        if String.eqb (JsString.toLowerCase key) "host" then
          Some (Some (newHost value), commit currentHost hosts)
        else
          match currentHost with
          | Some h =>
              if negb (JsString.isEmpty key) && negb (JsString.isEmpty value)
              then Some (Some (setProperty key value h), hosts)
              else Some st
          | None => Some st
          end
    end.

Fixpoint parseLines (include : string -> Registry -> option Registry)
    (lines : list string) (st : LoopState) : option LoopState :=
  match lines with
  | [] => Some st
  | raw :: rest =>
      match parseLine include raw st with
      | Some st' => parseLines include rest st'
      | None => None
      end
  end.

(** The body of [parseSSHConfig(content, basePath)], given the include
    handler for this [basePath]. *)
Definition parseDocument (include : string -> Registry -> option Registry)
    (content : string) (hosts : Registry) : option Registry :=
  match parseLines include (JsString.splitChar "010" content) (None, hosts) with
  | Some (currentHost, hosts') => Some (commit currentHost hosts')
  | None => None
  end.

(** [fullPath] of [handleInclude]: a path that does not start with [/] is
    joined to the directory of [basePath]; then the first [~] is replaced. *)
Definition includeFullPath (includePath basePath : string) : string :=
  let fullPath :=
    if JsString.startsWith includePath "/" then includePath
    else Path.join [Path.join [basePath; ".."]; includePath] in
  JsString.replaceFirstChar "~" (homedir env) fullPath.

(** The files [handleInclude] goes on to read, in order. *)
Definition includeFiles (includePath basePath : string) : list string :=
  let fullPath := includeFullPath includePath basePath in
  if JsString.includesChar "*" fullPath then
    match glob env fullPath with
    | Some files => files
    | None => []
    end
  else [fullPath].

(** [readFile(file)] then [parseSSHConfig(includeContent, file)] for each
    file; a file that cannot be read is skipped with a warning. *)
Fixpoint loadFiles (parse : string -> string -> Registry -> option Registry)
    (files : list string) (hosts : Registry) : option Registry :=
  match files with
  | [] => Some hosts
  | file :: rest =>
      match readFile env file with
      | Some includeContent =>
          match parse includeContent file hosts with
          | Some hosts' => loadFiles parse rest hosts'
          | None => None
          end
      | None => loadFiles parse rest hosts
      end
  end.

(** [handleInclude(includePath, basePath)], given [parseSSHConfig]. *)
Definition handleInclude (parse : string -> string -> Registry -> option Registry)
    (includePath basePath : string) (hosts : Registry) : option Registry :=
  loadFiles parse (includeFiles includePath basePath) hosts.

(** [parseSSHConfig(content, basePath)].  The two methods call each other
    with no bound; [fuel] bounds the depth of nested calls, and [None]
    means the bound was reached. *)
Fixpoint parseSSHConfig (fuel : nat) (content basePath : string)
    (hosts : Registry) : option Registry :=
  match fuel with
  | O => None
  | S fuel' =>
      parseDocument
        (fun includePath => handleInclude (parseSSHConfig fuel') includePath basePath)
        content hosts
  end.

(** [loadSSHConfig()]: a configuration that [access] or [readFile] refuses
    leaves the registry as it is. *)
Definition loadSSHConfig (fuel : nat) (hosts : Registry) : option Registry :=
  let sshConfigPath := Path.join [homedir env; ".ssh"; "config"] in
  match readFile env sshConfigPath with
  | None => Some hosts
  | Some configContent => parseSSHConfig fuel configContent sshConfigPath hosts
  end.

End Parser.

(** ** Base64, as [Buffer.toString('base64')] writes it and [base64 -d] reads it *)

Module Base64.

Definition alphabet : string :=
  "ABCDEFGHIJKLMNOPQRSTUVWXYZabcdefghijklmnopqrstuvwxyz0123456789+/".

Definition pad : ascii := "="%char.

(** The character of a six-bit value. *)
Definition encodeSextet (n : N) : ascii :=
  match String.get (N.to_nat n) alphabet with
  | Some c => c
  | None => pad
  end.

Fixpoint indexFrom (i : N) (c : ascii) (s : string) : option N :=
  match s with
  | EmptyString => None
  | String d s' => if Ascii.eqb d c then Some i else indexFrom (N.succ i) c s'
  end.

(** The six-bit value of a character of the alphabet. *)
Definition decodeChar (c : ascii) : option N := indexFrom 0 c alphabet.

(** Three bytes are 24 bits, written as four six-bit values (RFC 4648,
    section 4); a last group of one or two bytes is filled with zero bits
    and closed with [=]. *)
Fixpoint encode (s : string) : string :=
  match s with
  | EmptyString => EmptyString
  | String a EmptyString =>
      let a := N_of_ascii a in
      String (encodeSextet (a / 4))
        (String (encodeSextet ((a mod 4) * 16))
           (String pad (String pad EmptyString)))
  | String a (String b EmptyString) =>
      let a := N_of_ascii a in
      let b := N_of_ascii b in
      String (encodeSextet (a / 4))
        (String (encodeSextet ((a mod 4) * 16 + b / 16))
           (String (encodeSextet ((b mod 16) * 4))
              (String pad EmptyString)))
  | String a (String b (String c rest)) =>
      let a := N_of_ascii a in
      let b := N_of_ascii b in
      let c := N_of_ascii c in
      String (encodeSextet (a / 4))
        (String (encodeSextet ((a mod 4) * 16 + b / 16))
           (String (encodeSextet ((b mod 16) * 4 + c / 64))
              (String (encodeSextet (c mod 64)) (encode rest))))
  end%N.

(** Groups of four characters back to bytes; [None] on anything that is not
    well-formed Base64. *)
Fixpoint decodeGroups (s : string) : option string :=
  match s with
  | EmptyString => Some EmptyString
  | String c0 (String c1 (String c2 (String c3 rest))) =>
      match decodeChar c0, decodeChar c1 with
      | Some s0, Some s1 =>
          let b0 := ascii_of_N (s0 * 4 + s1 / 16) in
          if Ascii.eqb c2 pad then
            if Ascii.eqb c3 pad && JsString.isEmpty rest
            then Some (String b0 EmptyString) else None
          else
            match decodeChar c2 with
            | Some s2 =>
                let b1 := ascii_of_N ((s1 mod 16) * 16 + s2 / 4) in
                if Ascii.eqb c3 pad then
                  if JsString.isEmpty rest
                  then Some (String b0 (String b1 EmptyString)) else None
                else
                  match decodeChar c3, decodeGroups rest with
                  | Some s3, Some bytes =>
                      let b2 := ascii_of_N ((s2 mod 4) * 64 + s3) in
                      Some (String b0 (String b1 (String b2 bytes)))
                  | _, _ => None
                  end
            | None => None
            end
      | _, _ => None
      end
  | _ => None
  end%N.

Fixpoint dropNewlines (s : string) : string :=
  match s with
  | EmptyString => EmptyString
  | String c s' =>
      if Ascii.eqb c "010" then dropNewlines s' else String c (dropNewlines s')
  end.

(** [base64 -d]: line feeds in the input are ignored. *)
Definition decode (s : string) : option string := decodeGroups (dropNewlines s).

End Base64.

Definition LF : string := String "010" EmptyString.

(** What the remote shell makes of [echo '<text>' | base64 -d | interpreter]
    when [text] holds no quote: [echo] writes [text] and a line feed, and
    [base64 -d] hands the decoded bytes to the interpreter. *)
Definition remoteInterpreterInput (text : string) : option string :=
  Base64.decode (text ++ LF).

(** ** Requests, child processes and results *)

(** The codes of [ErrorCode] the source uses. *)
Inductive ErrorCode : Type :=
| InvalidRequest
| MethodNotFound
| InternalError.

(** [new McpError(code, message)] *)
Record McpError : Type := mkMcpError {
  errorCode : ErrorCode;
  errorMessage : string
}.

(** What a method does to the outside world. *)
Inductive Effect : Type :=
| Spawn (file : string) (args : list string)
| Exec (commandLine : string)
| Kill (signal : string).

(** The object a method serialises with [JSON.stringify] into its reply.
    [exitCode] is [None] for [null]. *)
Record CommandResult : Type := mkCommandResult {
  cmdHost : string;
  cmdCommand : string;
  cmdExitCode : option Z;
  cmdStdout : string;
  cmdStderr : string;
  cmdSuccess : bool;
  cmdEncoding : string
}.

Record ScriptResult : Type := mkScriptResult {
  scrHost : string;
  scrScript : string;
  scrInterpreter : string;
  scrExitCode : option Z;
  scrStdout : string;
  scrStderr : string;
  scrSuccess : bool;
  scrEncoding : string;
  scrLines : nat
}.

Record TransferResult : Type := mkTransferResult {
  trHost : string;
  trFirstPath : string;
  trSecondPath : string;
  trSuccess : bool;
  trMessage : string;
  trStdout : string;
  trStderr : string
}.

Record HostSummary : Type := mkHostSummary {
  sumAlias : string;
  sumHostname : string;
  sumUser : option string;
  sumPort : JsNumber
}.

Inductive Reply : Type :=
| CommandReply (r : CommandResult)
| ScriptReply (r : ScriptResult)
| HostListReply (hosts : list HostSummary) (total : nat)
| HostInfoReply (h : SSHHost)
| TransferReply (r : TransferResult).

(** How the promise a method returns is settled. *)
Inductive Outcome : Type :=
| Resolved (r : Reply)
| Rejected (e : McpError).

(** What happens around a spawned child, in the order in which the event
    loop delivers it: output on a pipe, the ['close'] event with the exit
    code ([None] for [null], a child ended by a signal), the ['error'] event,
    and the moment the delay given to [setTimeout] has passed. *)
Inductive ChildEvent : Type :=
| StdoutData (data : string)
| StderrData (data : string)
| Close (code : option Z)
| ChildError (message : string)
| TimerExpires.

(** A call of [executeCommand] or [executeScript] after [spawn]: the two
    buffers, whether the timer is still armed, the effects so far (latest
    last) and how the promise was settled, if it was. *)
Record Call : Type := mkCall {
  stdoutBuf : string;
  stderrBuf : string;
  timerArmed : bool;
  effects : list Effect;
  settled : option Outcome
}.

(** [resolve(...)] and [reject(...)]: only the first one settles a promise. *)
Definition settle (o : Outcome) (c : Call) : Call :=
  match settled c with
  | Some _ => c
  | None => mkCall (stdoutBuf c) (stderrBuf c) (timerArmed c) (effects c) (Some o)
  end.

(** The timer is pending no more: it was cleared, or it has gone off (a
    timer of [setTimeout] goes off once). *)
Definition disarm (c : Call) : Call :=
  mkCall (stdoutBuf c) (stderrBuf c) false (effects c) (settled c).

(** [clearTimeout(timer)] *)
Definition clearTimeout (c : Call) : Call := disarm c.

(** [child.kill(signal)] *)
Definition kill (signal : string) (c : Call) : Call :=
  mkCall (stdoutBuf c) (stderrBuf c) (timerArmed c)
    (effects c ++ [Kill signal]) (settled c).

Definition showNumber (n : Z) : string := NilZero.string_of_int (Z.to_int n).

Section Handlers.

(** The three things in which [executeCommand] and [executeScript] differ:
    the error of the timer, the reply on ['close'], the error on ['error']. *)
Variable timeoutError : McpError.
Variable closeReply : option Z -> string -> string -> Reply.
Variable spawnError : string -> McpError.

(** The handlers the promise executor installs, run on one event.  The
    callback of [setTimeout] runs when the delay has passed and the timer is
    still pending: it kills the child and rejects. *)
Definition handleEvent (ev : ChildEvent) (c : Call) : Call :=
  match ev with
  | StdoutData data =>
      mkCall (stdoutBuf c ++ data) (stderrBuf c) (timerArmed c) (effects c)
        (settled c)
  | StderrData data =>
      mkCall (stdoutBuf c) (stderrBuf c ++ data) (timerArmed c) (effects c)
        (settled c)
  | TimerExpires =>
      if timerArmed c then
        settle (Rejected timeoutError) (kill "SIGTERM" (disarm c))
      else c
  | Close code =>
      let c := clearTimeout c in
      settle (Resolved (closeReply code (stdoutBuf c) (stderrBuf c))) c
  | ChildError message =>
      settle (Rejected (spawnError message)) (clearTimeout c)
  end.

Definition runEvents (events : list ChildEvent) (c : Call) : Call :=
  fold_left (fun c ev => handleEvent ev c) events c.

End Handlers.

(** A call that threw before it made a promise. *)
Definition thrown (e : McpError) : Call :=
  mkCall "" "" false [] (Some (Rejected e)).

(** The state right after [spawn] and [setTimeout]. *)
Definition spawned (file : string) (args : list string) : Call :=
  mkCall "" "" true [Spawn file args] None.

Definition hostNotFound (host : string) : McpError :=
  mkMcpError InvalidRequest ("Host '" ++ host ++ "' not found in SSH config").

Section Operations.

Variable sshHosts : Registry.

(** [finalCommand] of [executeCommand] *)
Definition finalCommand (command : string) (useBase64 : bool) : string :=
  if useBase64 then
    let encodedCommand := Base64.encode command in
    "echo '" ++ encodedCommand ++ "' | base64 -d | bash"
  else command.

Definition commandReply (host command : string) (useBase64 : bool)
    (code : option Z) (out err : string) : Reply :=
  CommandReply
    (mkCommandResult host
       (if useBase64 then "[Base64 Encoded] " ++ command else command)
       code (JsString.trim out) (JsString.trim err)
       (match code with Some 0%Z => true | _ => false end)
       (if useBase64 then "base64" else "plain")).

(** [executeCommand(host, command, timeout, useBase64)], the child and the
    timer behaving as [events] says. *)
Definition executeCommand (host command : string) (timeout : Z)
    (useBase64 : bool) (events : list ChildEvent) : Call :=
  match JsMap.get sshHosts host with
  | None => thrown (hostNotFound host)
  | Some _ =>
      runEvents
        (mkMcpError InternalError
           ("Command timed out after " ++ showNumber timeout ++ " seconds"))
        (commandReply host command useBase64)
        (fun message =>
           mkMcpError InternalError ("SSH execution failed: " ++ message))
        events
        (spawned "ssh" [host; finalCommand command useBase64])
  end.

(** [command] of [executeScript] *)
Definition scriptCommand (script interpreter : string) : string :=
  let encodedScript := Base64.encode script in
  "echo '" ++ encodedScript ++ "' | base64 -d | " ++ interpreter.

Definition scriptReply (host script interpreter : string)
    (code : option Z) (out err : string) : Reply :=
  let scriptLines := JsString.splitChar "010" script in
  ScriptReply
    (mkScriptResult host
       (JsString.join LF (firstn 3 scriptLines)
          ++ (if (3 <? length scriptLines)%nat then LF ++ "..." else ""))
       interpreter code (JsString.trim out) (JsString.trim err)
       (match code with Some 0%Z => true | _ => false end)
       "base64" (length scriptLines)).

(** [executeScript(host, script, timeout, interpreter)] *)
Definition executeScript (host script : string) (timeout : Z)
    (interpreter : string) (events : list ChildEvent) : Call :=
  match JsMap.get sshHosts host with
  | None => thrown (hostNotFound host)
  | Some _ =>
      runEvents
        (mkMcpError InternalError
           ("Script timed out after " ++ showNumber timeout ++ " seconds"))
        (scriptReply host script interpreter)
        (fun message =>
           mkMcpError InternalError ("SSH script execution failed: " ++ message))
        events
        (spawned "ssh" [host; scriptCommand script interpreter])
  end.

(** The callback of [map] in [listHosts]. *)
Definition summarize (entry : string * SSHHost) : HostSummary :=
  let '(alias, config) := entry in
  mkHostSummary alias
    (match hostname config with
     | Some name => if JsString.isEmpty name then alias else name
     | None => alias
     end)
    (user config)
    (match port config with
     | Some n => if JsNum.truthy n then n else JsInt 22
     | None => JsInt 22
     end).

(** [listHosts()] *)
Definition listHosts : Outcome :=
  let hosts := map summarize (JsMap.entries sshHosts) in
  Resolved (HostListReply hosts (length hosts)).

(** [getHostInfo(host)] *)
Definition getHostInfo (host : string) : Call :=
  match JsMap.get sshHosts host with
  | None => thrown (hostNotFound host)
  | Some hostConfig =>
      mkCall "" "" false [] (Some (Resolved (HostInfoReply hostConfig)))
  end.

(** How a command started with [exec] ends: the shell exits with a code,
    is ended by a signal, could not be started, or wrote more than
    [maxBuffer] allows on [stream] ([stdout] or [stderr]; [exec] then ends
    it and keeps the output up to the limit).  [None] below: it never
    ends. *)
Inductive ExecEnd : Type :=
| ExecExit (code : Z) (out err : string)
| ExecSignal (signal : string) (out err : string)
| ExecSpawnError (message : string)
| ExecOverflow (stream : string) (out err : string).

(** The [error] that [exec] hands to its callback: [null] ([None]) exactly
    when the shell exited with code 0 and its output stayed within
    [maxBuffer]. *)
Definition execError (commandLine : string) (e : ExecEnd) : option string :=
  match e with
  | ExecExit code _ err =>
      if (code =? 0)%Z then None
      else Some ("Command failed: " ++ commandLine ++ LF ++ err)
  | ExecSignal _ _ err => Some ("Command failed: " ++ commandLine ++ LF ++ err)
  | ExecSpawnError message => Some message
  | ExecOverflow stream _ _ => Some (stream ++ " maxBuffer length exceeded")
  end.

Definition execStdout (e : ExecEnd) : string :=
  match e with
  | ExecExit _ out _ | ExecSignal _ out _ | ExecOverflow _ out _ => out
  | ExecSpawnError _ => ""
  end.

Definition execStderr (e : ExecEnd) : string :=
  match e with
  | ExecExit _ _ err | ExecSignal _ _ err | ExecOverflow _ _ err => err
  | ExecSpawnError _ => ""
  end.

(** The promise around [exec(scpCommand, callback)] in [uploadFile] and
    [downloadFile]. *)
Definition transfer (scpCommand failure : string) (reply : string -> string -> Reply)
    (ending : option ExecEnd) : Call :=
  mkCall "" "" false [Exec scpCommand]
    (match ending with
     | None => None
     | Some e =>
         match execError scpCommand e with
         | Some message =>
             Some (Rejected (mkMcpError InternalError (failure ++ message)))
         | None =>
             Some (Resolved (reply (execStdout e) (execStderr e)))
         end
     end).

Definition quoted (s : string) : string := String "034" s ++ String "034" "".

(** [uploadFile(host, localPath, remotePath)] *)
Definition uploadFile (host localPath remotePath : string)
    (ending : option ExecEnd) : Call :=
  match JsMap.get sshHosts host with
  | None => thrown (hostNotFound host)
  | Some _ =>
      transfer
        ("scp " ++ quoted localPath ++ " " ++ quoted (host ++ ":" ++ remotePath))
        "SCP upload failed: "
        (fun out err =>
           TransferReply
             (mkTransferResult host localPath remotePath true
                "File uploaded successfully"
                (JsString.trim out) (JsString.trim err)))
        ending
  end.

(** [downloadFile(host, remotePath, localPath)] *)
Definition downloadFile (host remotePath localPath : string)
    (ending : option ExecEnd) : Call :=
  match JsMap.get sshHosts host with
  | None => thrown (hostNotFound host)
  | Some _ =>
      transfer
        ("scp " ++ quoted (host ++ ":" ++ remotePath) ++ " " ++ quoted localPath)
        "SCP download failed: "
        (fun out err =>
           TransferReply
             (mkTransferResult host remotePath localPath true
                "File downloaded successfully"
                (JsString.trim out) (JsString.trim err)))
        ending
  end.

End Operations.

(** ** The tools and the handler of tool calls *)

(** A JSON value as far as an input schema uses one for a [default]. *)
Inductive JsonValue : Type :=
| JsonNumber (n : Z)
| JsonBool (b : bool)
| JsonString (s : string).

(** One entry of the [properties] of an input schema ([description] left
    out). *)
Record SchemaProperty : Type := mkSchemaProperty {
  propName : string;
  propType : string;
  propDefault : option JsonValue
}.

(** One entry of [tools]: its [name], the [properties] of its [inputSchema]
    and the names that [required] lists (none for a schema without one). *)
Record Tool : Type := mkTool {
  toolName : string;
  toolProperties : list SchemaProperty;
  toolRequired : list string
}.

(** The [tools] that the handler of [ListToolsRequestSchema] returns. *)
Definition tools : list Tool :=
  [ mkTool "ssh_execute_command"
      [ mkSchemaProperty "host" "string" None;
        mkSchemaProperty "command" "string" None;
        mkSchemaProperty "timeout" "number" (Some (JsonNumber 30));
        mkSchemaProperty "useBase64" "boolean" (Some (JsonBool false)) ]
      ["host"; "command"];
    mkTool "ssh_execute_script"
      [ mkSchemaProperty "host" "string" None;
        mkSchemaProperty "script" "string" None;
        mkSchemaProperty "timeout" "number" (Some (JsonNumber 60));
        mkSchemaProperty "interpreter" "string" (Some (JsonString "bash")) ]
      ["host"; "script"];
    mkTool "ssh_list_hosts" [] [];
    mkTool "ssh_get_host_info"
      [ mkSchemaProperty "host" "string" None ]
      ["host"];
    mkTool "ssh_upload_file"
      [ mkSchemaProperty "host" "string" None;
        mkSchemaProperty "localPath" "string" None;
        mkSchemaProperty "remotePath" "string" None ]
      ["host"; "localPath"; "remotePath"];
    mkTool "ssh_download_file"
      [ mkSchemaProperty "host" "string" None;
        mkSchemaProperty "remotePath" "string" None;
        mkSchemaProperty "localPath" "string" None ]
      ["host"; "remotePath"; "localPath"] ].

(** [request.params.arguments], read at the types the input schemas declare
    ([args.host as string], ...).  The arguments that the schema of the tool
    requires are taken to be present; an optional argument may be absent
    ([None], [undefined]).  A timeout is a whole number of seconds, and the
    strings hold no NUL character (with one, [spawn] and [exec] throw instead
    of starting a process). *)
Record ToolArgs : Type := mkToolArgs {
  argHost : string;
  argCommand : string;
  argScript : string;
  argLocalPath : string;
  argRemotePath : string;
  argTimeout : option Z;
  argUseBase64 : option bool;
  argInterpreter : option string
}.

(** [v || d] for a number, a boolean and a string: [undefined], [0], [false]
    and the empty string are falsy. *)
Definition numberOr (v : option Z) (d : Z) : Z :=
  match v with
  | Some n => if (n =? 0)%Z then d else n
  | None => d
  end.

Definition boolOr (v : option bool) (d : bool) : bool :=
  match v with
  | Some true => true
  | _ => d
  end.

Definition stringOr (v : option string) (d : string) : string :=
  match v with
  | Some s => if JsString.isEmpty s then d else s
  | None => d
  end.

(** A method that returned without starting anything. *)
Definition returned (o : Outcome) : Call := mkCall "" "" false [] (Some o).

Section Dispatch.

Variable sshHosts : Registry.

(** The handler of [CallToolRequestSchema], on the tool [name] and the
    arguments [args] ([None]: the request carries none).  [events] is what
    happens around a child that the call spawns, [ending] how a command that
    it hands to [exec] ends.  Every error of the methods is an [McpError],
    which the [catch] clause throws again as it is. *)
Definition callTool (name : string) (args : option ToolArgs)
    (events : list ChildEvent) (ending : option ExecEnd) : Call :=
  match args with
  | None => thrown (mkMcpError InvalidRequest "Missing arguments")
  | Some args =>
      if String.eqb name "ssh_execute_command" then
        executeCommand sshHosts (argHost args) (argCommand args)
          (numberOr (argTimeout args) 30) (boolOr (argUseBase64 args) false)
          events
      else if String.eqb name "ssh_execute_script" then
        executeScript sshHosts (argHost args) (argScript args)
          (numberOr (argTimeout args) 60) (stringOr (argInterpreter args) "bash")
          events
      else if String.eqb name "ssh_list_hosts" then
        returned (listHosts sshHosts)
      else if String.eqb name "ssh_get_host_info" then
        getHostInfo sshHosts (argHost args)
      else if String.eqb name "ssh_upload_file" then
        uploadFile sshHosts (argHost args) (argLocalPath args)
          (argRemotePath args) ending
      else if String.eqb name "ssh_download_file" then
        downloadFile sshHosts (argHost args) (argRemotePath args)
          (argLocalPath args) ending
      else thrown (mkMcpError MethodNotFound ("Unknown tool: " ++ name))
  end.

End Dispatch.

(** ** A child in time *)

(** What a spawned child does, as the event loop reports it: output on a
    pipe, the ['exit'] of the process, the ['close'] of its streams (which
    comes after the exit, once every holder of the pipes has closed them) and
    ['error']. *)
Inductive ProcessEvent : Type :=
| WritesStdout (data : string)
| WritesStderr (data : string)
| Exits (code : option Z)
| Closes (code : option Z)
| Fails (message : string).

(** The event on which a handler of [executeCommand] and [executeScript]
    runs.  They listen to ['data'], ['close'] and ['error']; for ['exit']
    they install no handler. *)
Definition handled (e : ProcessEvent) : option ChildEvent :=
  match e with
  | WritesStdout data => Some (StdoutData data)
  | WritesStderr data => Some (StderrData data)
  | Exits _ => None
  | Closes code => Some (Close code)
  | Fails message => Some (ChildError message)
  end.

(** The events of a child with the times at which they are reported, in
    milliseconds after [setTimeout] was called, in the order of time. *)
Definition Timeline : Type := list (Z * ProcessEvent).

(** The delay of [setTimeout(callback, timeout * 1000)] in milliseconds: a
    delay below 1 or above 2^31 - 1 is set to 1. *)
Definition timerDelay (timeout : Z) : Z :=
  let delay := (timeout * 1000)%Z in
  if ((1 <=? delay) && (delay <=? 2147483647))%Z then delay else 1%Z.

Fixpoint handledAll (timeline : Timeline) : list ChildEvent :=
  match timeline with
  | [] => []
  | (_, e) :: rest =>
      match handled e with
      | Some ev => ev :: handledAll rest
      | None => handledAll rest
      end
  end.

(** The events on which handlers run, in order, for a timer of the given
    delay: those of the child, and the moment at which the delay has passed.
    An event reported in the very millisecond in which the timer is due may
    in fact come before or after that moment; it is put after it. *)
Fixpoint deliver (delay : Z) (timeline : Timeline) : list ChildEvent :=
  match timeline with
  | [] => [TimerExpires]
  | (time, e) :: rest =>
      if (time <? delay)%Z then
        match handled e with
        | Some ev => ev :: deliver delay rest
        | None => deliver delay rest
        end
      else TimerExpires :: handledAll timeline
  end.

(** * Vocabulary of the properties *)

(** ** Strings *)

(** [allChars p s]: every character of [s] passes [p]. *)
Fixpoint allChars (p : ascii -> bool) (s : string) : bool :=
  match s with
  | EmptyString => true
  | String c s' => p c && allChars p s'
  end.

(** A word: not empty, no white space in it. *)
Definition isWord (s : string) : bool :=
  negb (JsString.isEmpty s) && allChars (fun c => negb (JsString.isSpace c)) s.

(** [w] put before the first of the pieces. *)
Definition prependHead (w : string) (pieces : list string) : list string :=
  match pieces with
  | t :: ts => (w ++ t) :: ts
  | [] => [w]
  end.

(** The characters of Base64 text, by their codes: letters, digits, [+],
    [/] and the padding [=]. *)
Definition isBase64Char (c : ascii) : bool :=
  let n := nat_of_ascii c in
  (((65 <=? n) && (n <=? 90)) || ((97 <=? n) && (n <=? 122))
   || ((48 <=? n) && (n <=? 57)) || (n =? 43) || (n =? 47) || (n =? 61))%nat.

(** ** Calls *)

(** A call that failed with [InvalidRequest] before it touched anything. *)
Definition refusedUnspawned (c : Call) : Prop :=
  effects c = [] /\
  exists message, settled c = Some (Rejected (mkMcpError InvalidRequest message)).

(** Output on a pipe: the events that settle nothing. *)
Definition isOutput (ev : ChildEvent) : bool :=
  match ev with
  | StdoutData _ | StderrData _ => true
  | _ => false
  end.

Definition isKill (e : Effect) : bool :=
  match e with
  | Kill _ => true
  | _ => false
  end.

(** The signals a call has sent. *)
Definition signalsSent (c : Call) : list Effect := filter isKill (effects c).

(** How an [exec] that ended counts as failed: any end but exit code 0. *)
Definition execFailed (e : ExecEnd) : bool :=
  match e with
  | ExecExit code _ _ => negb (code =? 0)%Z
  | ExecSignal _ _ _ => true
  | ExecSpawnError _ => true
  | ExecOverflow _ _ _ => true
  end.

(** ** Lines and blocks of a configuration document *)

(** What one line of a configuration document is to [parseSSHConfig], by the
    tests of its loop: skipped (blank or comment), an [Include], a [Host]
    line, or a key with a value. *)
Inductive LineKind : Type :=
| Skipped
| IncludeOf (includePath : string)
| HostOf (value : string)
| PropertyOf (key value : string).

Definition classify (raw : string) : LineKind :=
  let line := JsString.trim raw in
  if JsString.isEmpty line || JsString.startsWith line "#" then Skipped
  else if JsString.startsWith (JsString.toLowerCase line) "include " then
    IncludeOf (JsString.trim (JsString.substringFrom 8 line))
  else
    match JsString.splitSpaces line with
    | [] => Skipped
    | key :: valueParts =>
        let value := JsString.join " " valueParts in
        if String.eqb (JsString.toLowerCase key) "host" then HostOf value
        else PropertyOf key value
    end.

Definition isHostLine (raw : string) : bool :=
  match classify raw with HostOf _ => true | _ => false end.

Definition isIncludeLine (raw : string) : bool :=
  match classify raw with IncludeOf _ => true | _ => false end.

(** [raw] is a [Host] line whose value is [alias]. *)
Definition declares (alias raw : string) : bool :=
  match classify raw with HostOf value => String.eqb value alias | _ => false end.

(** What a key with a value does to the open block ([key && value]). *)
Definition applyProperty (env : Env) (key value : string) (h : SSHHost) : SSHHost :=
  if negb (JsString.isEmpty key) && negb (JsString.isEmpty value)
  then setProperty env key value h else h.

(** What a line inside a block does to the record of the block. *)
Definition applyLine (env : Env) (raw : string) (h : SSHHost) : SSHHost :=
  match classify raw with
  | PropertyOf key value => applyProperty env key value h
  | _ => h
  end.

(** The alias under which the open block, if any, will be committed. *)
Definition pendingAlias (st : LoopState) : option string := option_map host (fst st).

(** The complete record of a block: [{ host: value }] with the properties its
    own lines set, in order. *)
Definition blockRecord (env : Env) (value : string) (body : list string) : SSHHost :=
  fold_left (fun h raw => applyLine env raw h) body (newHost value).

(** The alias of the block that is open after [lines], if a [Host] line
    occurs in them. *)
Definition openAlias (lines : list string) : option string :=
  fold_left
    (fun open raw => match classify raw with HostOf value => Some value | _ => open end)
    lines None.

(** Lines of a block that hold neither a [Host] line nor an Include. *)
Definition isPlainBody (body : list string) : bool :=
  forallb (fun raw => negb (isHostLine raw) && negb (isIncludeLine raw)) body.

(** The block open after [lines] is one for [alias]. *)
Definition opensBlockFor (alias : string) (lines : list string) : bool :=
  match openAlias lines with
  | Some value => String.eqb value alias
  | None => false
  end.

(** ** Nesting of includes *)

Section IncludeDepth.

Variable env : Env.

(** Every file of [files] that can be read is fine for [ok]. *)
Definition filesOk (ok : string -> string -> bool) (files : list string) : bool :=
  forallb
    (fun file =>
       match readFile env file with
       | Some content => ok content file
       | None => true
       end)
    files.

Definition linesOk (ok : string -> string -> bool) (basePath : string)
    (lines : list string) : bool :=
  forallb
    (fun raw =>
       match classify raw with
       | IncludeOf includePath => filesOk ok (includeFiles env includePath basePath)
       | _ => true
       end)
    lines.

(** [includeDepth d content basePath]: the Include directives of the
    document, and of the files they name, are nested less than [d] deep.
    No [d] fits a document that includes itself. *)
Fixpoint includeDepth (d : nat) (content basePath : string) : bool :=
  match d with
  | O => false
  | S d' =>
      linesOk (includeDepth d') basePath (JsString.splitChar "010" content)
  end.

End IncludeDepth.

(** The include handler of a document parsed with fuel [S d]. *)
Definition includeAt (env : Env) (d : nat) (basePath : string)
  : string -> Registry -> option Registry :=
  fun includePath => handleInclude env (parseSSHConfig env d) includePath basePath.

(** ** Text that declares no block for an alias *)

Section Quiet.

Variable env : Env.
Variable alias : string.

(** No line of [lines] declares a block for [alias], and the files that the
    lines include are fine for [quiet]. *)
Definition linesQuiet (quiet : string -> string -> bool) (basePath : string)
    (lines : list string) : bool :=
  forallb
    (fun raw =>
       match classify raw with
       | HostOf value => negb (String.eqb value alias)
       | IncludeOf includePath => filesOk env quiet (includeFiles env includePath basePath)
       | _ => true
       end)
    lines.

(** [quietAbout d content basePath]: no block for [alias] is declared in the
    document or in the files it includes, as far as a parse with fuel [d]
    reads them. *)
Fixpoint quietAbout (d : nat) (content basePath : string) : bool :=
  match d with
  | O => true
  | S d' => linesQuiet (quietAbout d') basePath (JsString.splitChar "010" content)
  end.

(** The lines [lines] of a document parsed with fuel [S d] leave [alias]
    alone: none declares it, and neither does a file they include. *)
Definition leavesAlone (d : nat) (basePath : string) (lines : list string) : bool :=
  linesQuiet (quietAbout d) basePath lines.

(** Files that leave [alias] alone when they are parsed with fuel [d]. *)
Definition filesLeaveAlone (d : nat) (files : list string) : bool :=
  filesOk env (quietAbout d) files.

(** In a document parsed with fuel [S d], [hostLine :: body ++ post] is a
    block declaring [alias], with [body] up to the next [Host] line, after
    which ([post]) nothing declares [alias] again. *)
Definition isFinalBlock (d : nat) (basePath hostLine : string)
    (body post : list string) : bool :=
  declares alias hostLine
  && forallb (fun raw => negb (isHostLine raw)) body
  && match post with [] => true | raw :: _ => isHostLine raw end
  && leavesAlone d basePath post.

End Quiet.

(** ** Paths *)

(** The name of a file or directory inside a path: not empty, no [/], and
    not [.] or [..]. *)
Definition isPathName (s : string) : bool :=
  negb (JsString.isEmpty s)
  && allChars (fun c => negb (Ascii.eqb c "/")) s
  && negb (String.eqb s ".") && negb (String.eqb s "..").

(** A plain segment: a name that is a word and holds no [~] and no [*]. *)
Definition isPlainSegment (s : string) : bool :=
  isPathName s && isWord s
  && allChars (fun c => negb (Ascii.eqb c "~" || Ascii.eqb c "*")) s.

(** The absolute path with the given segments, and the path of the directory
    with the given segments. *)
Definition absolutePath (segments : list string) : string :=
  "/" ++ JsString.join "/" segments.

Definition directoryPath (segments : list string) : string :=
  match segments with
  | [] => "/"
  | _ => absolutePath segments
  end.

(** ** Ports *)

(** A record with its [port] removed, and a registry of such records. *)
Definition erasePort (h : SSHHost) : SSHHost :=
  mkSSHHost (host h) (hostname h) (user h) None (identityFile h) (proxyJump h)
    (extra h).

Definition erasePorts (hosts : Registry) : Registry :=
  map (fun entry => (fst entry, erasePort (snd entry))) hosts.

(** Characters with which no integer starts for [parseInt]: not a digit, not
    a sign, not white space. *)
Definition startsNoInteger (c : ascii) : bool :=
  let n := nat_of_ascii c in
  negb ((48 <=? n) && (n <=? 57))%nat
  && negb (Ascii.eqb c "+") && negb (Ascii.eqb c "-")
  && negb (JsString.isSpace c).

(** The state of the loop with every [port] removed. *)
Definition eraseState (st : LoopState) : LoopState :=
  (option_map erasePort (fst st), erasePorts (snd st)).

(** A handler that sees no [port]: registries that differ in ports only are
    taken to registries that differ in ports only. *)
Definition blindToPorts (include : string -> Registry -> option Registry) : Prop :=
  forall includePath hosts1 hosts2,
    erasePorts hosts1 = erasePorts hosts2 ->
    option_map erasePorts (include includePath hosts1)
    = option_map erasePorts (include includePath hosts2).

(** ** Configurations used as examples *)

(** A file system given by the files it holds. *)
Definition filesOf (files : list (string * string)) (path : string) : option string :=
  JsMap.get files path.

(** A configuration whose only line includes the configuration itself. *)
Definition selfIncludingEnv : Env :=
  mkEnv "/home/u"
    (filesOf [("/home/u/.ssh/config", "Include config")])
    (fun _ => None).

(** Includes nested two levels deep, and a decoy at the path the innermost
    include would name if it were resolved against the top-level directory. *)
Definition nestedEnv : Env :=
  mkEnv "/home/u"
    (filesOf
       [("/home/u/.ssh/config", "Include conf.d/main");
        ("/home/u/.ssh/conf.d/main", "Include sub/web");
        ("/home/u/.ssh/conf.d/sub/web", "Host web" ++ LF ++ "  HostName 10.0.0.1");
        ("/home/u/.ssh/sub/web", "Host web" ++ LF ++ "  HostName decoy")])
    (fun _ => None).

(** A primary configuration whose block for [web] is still open where it
    includes a file that declares [web] again. *)
Definition overrideEnv : Env :=
  mkEnv "/home/u"
    (filesOf
       [("/home/u/.ssh/config",
         "Host web" ++ LF ++ "  HostName first" ++ LF ++ "Include other");
        ("/home/u/.ssh/other",
         "Host web" ++ LF ++ "  HostName second" ++ LF ++ "  User deploy")])
    (fun _ => None).

(** The same, with the block for [web] closed by [Host db] before the
    Include line. *)
Definition closedBlockEnv : Env :=
  mkEnv "/home/u"
    (filesOf
       [("/home/u/.ssh/config",
         "Host web" ++ LF ++ "  HostName first" ++ LF ++ "Host db" ++ LF
           ++ "Include other");
        ("/home/u/.ssh/other",
         "Host web" ++ LF ++ "  HostName second" ++ LF ++ "  User deploy")])
    (fun _ => None).

(** One document with two blocks for [web]. *)
Definition twoBlocksConfig : string :=
  "Host web" ++ LF ++ "  HostName first" ++ LF ++ "  User old" ++ LF
    ++ "Host web" ++ LF ++ "  HostName second".

(** ** Tool calls *)

(** The names of the tools that are listed. *)
Definition toolNames : list string := map toolName tools.

(** The default that the schema of the tool [name] declares for [prop]. *)
Definition schemaDefault (name prop : string) : option JsonValue :=
  match find (fun t => String.eqb (toolName t) name) tools with
  | Some t =>
      match find (fun p => String.eqb (propName p) prop) (toolProperties t) with
      | Some p => propDefault p
      | None => None
      end
  | None => None
  end.

(** [args] with every optional argument that is absent set to the default
    that the schema of the tool [name] declares for it. *)
Definition withDefaults (name : string) (args : ToolArgs) : ToolArgs :=
  mkToolArgs (argHost args) (argCommand args) (argScript args)
    (argLocalPath args) (argRemotePath args)
    (match argTimeout args, schemaDefault name "timeout" with
     | None, Some (JsonNumber n) => Some n
     | given, _ => given
     end)
    (match argUseBase64 args, schemaDefault name "useBase64" with
     | None, Some (JsonBool b) => Some b
     | given, _ => given
     end)
    (match argInterpreter args, schemaDefault name "interpreter" with
     | None, Some (JsonString s) => Some s
     | given, _ => given
     end).

(** [args] with its optional arguments replaced. *)
Definition withOptions (timeout : option Z) (useBase64 : option bool)
    (interpreter : option string) (args : ToolArgs) : ToolArgs :=
  mkToolArgs (argHost args) (argCommand args) (argScript args)
    (argLocalPath args) (argRemotePath args) timeout useBase64 interpreter.

(** ** Output of a child *)

(** The text that came on the standard output, and on the standard error,
    in [events], chunk after chunk ([data.toString()] of each). *)
Fixpoint stdoutOf (events : list ChildEvent) : string :=
  match events with
  | [] => ""
  | StdoutData data :: rest => data ++ stdoutOf rest
  | _ :: rest => stdoutOf rest
  end.

Fixpoint stderrOf (events : list ChildEvent) : string :=
  match events with
  | [] => ""
  | StderrData data :: rest => data ++ stderrOf rest
  | _ :: rest => stderrOf rest
  end.

(** How often [c] occurs in [s]. *)
Fixpoint countChar (c : ascii) (s : string) : nat :=
  match s with
  | EmptyString => 0
  | String d s' => (if Ascii.eqb d c then 1 else 0) + countChar c s'
  end.

(** ** The registry as a list *)

(** The aliases of a registry, in the order of [entries()]. *)
Definition aliases (hosts : Registry) : list string := map fst hosts.

(** Every record is stored under its own [host]. *)
Definition keyedByHost (hosts : Registry) : Prop :=
  forall alias h, In (alias, h) hosts -> host h = alias.

(** The summaries of a reply of [listHosts]. *)
Definition summaries (o : Outcome) : list HostSummary :=
  match o with
  | Resolved (HostListReply hosts _) => hosts
  | _ => []
  end.

(** The registry after the records have been set, one after the other, each
    under its own alias. *)
Definition setAll (records : list SSHHost) (hosts : Registry) : Registry :=
  fold_left (fun r h => JsMap.set (host h) h r) records hosts.

(** A step on registries that does not read the registry: it does not
    return, whatever the registry, or it sets a fixed sequence of records. *)
Definition writesOnly (step : Registry -> option Registry) : Prop :=
  (forall hosts, step hosts = None)
  \/ exists records, forall hosts, step hosts = Some (setAll records hosts).

(** ** A child in time *)

(** What settles nothing: output, and the ['exit'] of the process. *)
Definition isQuiet (e : ProcessEvent) : bool :=
  match e with
  | WritesStdout _ | WritesStderr _ | Exits _ => true
  | Closes _ | Fails _ => false
  end.

(** The race between the timer and the child, for a call [run] on the
    timeline of its child, with a timer of [delay] milliseconds that rejects
    with [timeoutError]:
    - when nothing but output and the exit of the process is reported up to
      the millisecond in which the timer is due, the timer goes off:
      [kill('SIGTERM')] is called on the child, once, and the call fails with
      [timeoutError], whatever is reported later;
    - when the streams close before the timer is due, only output and the
      exit having been reported before, that ['close'] clears the timer: the
      call resolves and [kill] is never called, whatever is reported later;
    - in every run the timer is pending no more at the end, and [kill] is
      called at most once. *)
Definition timedRace (run : Timeline -> Call) (delay : Z) (spawn : Effect)
    (timeoutError : McpError) : Prop :=
  (forall timeline,
      forallb (fun te => isQuiet (snd te) || (delay <? fst te)%Z) timeline = true ->
      effects (run timeline) = [spawn; Kill "SIGTERM"] /\
      settled (run timeline) = Some (Rejected timeoutError)) /\
  (forall pre time code post,
      forallb (fun te => isQuiet (snd te) && (fst te <? delay)%Z) pre = true ->
      (time < delay)%Z ->
      effects (run (pre ++ (time, Closes code) :: post)%list) = [spawn] /\
      exists reply,
        settled (run (pre ++ (time, Closes code) :: post)%list)
        = Some (Resolved reply)) /\
  (forall timeline,
      timerArmed (run timeline) = false /\
      (length (signalsSent (run timeline)) <= 1)%nat).

(** ** Files of an Include *)

(** The files that a resolved path names: the matches of the pattern, in the
    order in which the matcher gives them, when the path holds [*]; the path
    itself otherwise. *)
Definition resolvedFiles (env : Env) (fullPath : string) : list string :=
  if JsString.includesChar "*" fullPath then
    match glob env fullPath with
    | Some files => files
    | None => []
    end
  else [fullPath].

Definition isTildeFree (s : string) : bool :=
  allChars (fun c => negb (Ascii.eqb c "~")) s.

(** A primary configuration that includes a pattern; the file that matches
    includes [sub/web], and a decoy lies where that path would lead from the
    directory of the primary configuration. *)
Definition patternEnv : Env :=
  mkEnv "/home/u"
    (filesOf
       [("/home/u/.ssh/config", "Include conf.d/*");
        ("/home/u/.ssh/conf.d/main", "Include sub/web");
        ("/home/u/.ssh/conf.d/sub/web", "Host web" ++ LF ++ "  HostName 10.0.0.1");
        ("/home/u/.ssh/sub/web", "Host web" ++ LF ++ "  HostName decoy")])
    (fun pattern =>
       if String.eqb pattern "/home/u/.ssh/conf.d/*"
       then Some ["/home/u/.ssh/conf.d/main"] else None).

(** A pattern that matches a file in a directory with [~] in its name; the
    file includes [sub/web], which lies beside it. *)
Definition tildeDirectoryEnv : Env :=
  mkEnv "/home/u"
    (filesOf
       [("/home/u/.ssh/config", "Include /etc/ssh/*/main");
        ("/etc/ssh/conf~d/main", "Include sub/web");
        ("/etc/ssh/conf~d/sub/web", "Host web" ++ LF ++ "  HostName 10.0.0.1")])
    (fun pattern =>
       if String.eqb pattern "/etc/ssh/*/main"
       then Some ["/etc/ssh/conf~d/main"] else None).

(** * Properties *)

(** ** Strings *)

Lemma append_nil_r (s : string) : s ++ "" = s.
Proof. induction s; simpl; congruence. Qed.

Lemma append_assoc (a b c : string) : (a ++ b) ++ c = a ++ b ++ c.
Proof. induction a; simpl; congruence. Qed.

Lemma allChars_append p (a b : string) :
  allChars p (a ++ b) = allChars p a && allChars p b.
Proof. induction a; simpl; [reflexivity|]. rewrite IHa. apply andb_assoc. Qed.

Lemma includesChar_allChars c s :
  JsString.includesChar c s = negb (allChars (fun d => negb (Ascii.eqb d c)) s).
Proof.
  induction s as [|d s IH]; simpl; [reflexivity|].
  rewrite IH. destruct (Ascii.eqb d c); reflexivity.
Qed.

Lemma allChars_impl (p q : ascii -> bool) s :
  (forall c, p c = true -> q c = true) ->
  allChars p s = true -> allChars q s = true.
Proof.
  intros Hpq. induction s as [|c s IH]; simpl; [reflexivity|].
  rewrite !andb_true_iff. intros [Hc Hs]. auto.
Qed.

(** ** Unknown hosts *)

(** C4.  Every operation that takes a host (execute-command, execute-script,
    get-host-info, upload-file, download-file), called with an alias the
    registry does not hold, fails with an [InvalidRequest] error, and no
    child process is spawned: the call has no effect at all, whatever the
    other arguments and whatever a child would have done. *)
Theorem unknown_host_is_refused_before_any_spawn :
  forall (sshHosts : Registry) (host : string),
    JsMap.get sshHosts host = None ->
    (forall command timeout useBase64 events,
        refusedUnspawned
          (executeCommand sshHosts host command timeout useBase64 events)) /\
    (forall script timeout interpreter events,
        refusedUnspawned
          (executeScript sshHosts host script timeout interpreter events)) /\
    refusedUnspawned (getHostInfo sshHosts host) /\
    (forall localPath remotePath ending,
        refusedUnspawned (uploadFile sshHosts host localPath remotePath ending)) /\
    (forall remotePath localPath ending,
        refusedUnspawned (downloadFile sshHosts host remotePath localPath ending)).
Proof.
  intros sshHosts host Hget.
  assert (Hthrown : refusedUnspawned (thrown (hostNotFound host))).
  { split; [reflexivity|]. eexists. reflexivity. }
  unfold executeCommand, executeScript, getHostInfo, uploadFile, downloadFile.
  rewrite Hget. repeat split; intros; apply Hthrown.
Qed.

Lemma unknown_host_is_refused_before_any_spawn_witness :
  JsMap.get [("web", newHost "web")] "db" = None /\
  refusedUnspawned (getHostInfo [("web", newHost "web")] "db").
Proof.
  split; [reflexivity|].
  apply (unknown_host_is_refused_before_any_spawn [("web", newHost "web")] "db").
  reflexivity.
Defined.

(** ** Base64 *)

Lemma string_ind3 (P : string -> Prop) :
  P "" ->
  (forall a, P (String a "")) ->
  (forall a b, P (String a (String b ""))) ->
  (forall a b c s, P s -> P (String a (String b (String c s)))) ->
  forall s, P s.
Proof.
  intros H0 H1 H2 H3.
  assert (H : forall s, P s /\ (forall a, P (String a s))
                        /\ (forall a b, P (String a (String b s)))).
  { induction s as [|c s (IHs & IHs1 & IHs2)].
    - repeat split; auto.
    - repeat split; auto. }
  intro s. apply H.
Qed.

Lemma encodeSextet_isBase64Char (n : N) : isBase64Char (Base64.encodeSextet n) = true.
Proof.
  unfold Base64.encodeSextet. generalize (N.to_nat n) as k. intro k.
  do 64 (destruct k as [|k]; [reflexivity|]). reflexivity.
Qed.

Lemma decodeChar_encodeSextet (n : N) :
  (n < 64)%N -> Base64.decodeChar (Base64.encodeSextet n) = Some n.
Proof.
  intro Hn. rewrite <- (N2Nat.id n) at 2.
  unfold Base64.encodeSextet.
  assert (Hk : (N.to_nat n < 64)%nat) by lia.
  revert Hk. generalize (N.to_nat n) as k. intro k.
  do 64 (destruct k as [|k]; [reflexivity|]). lia.
Qed.

Lemma encodeSextet_not_pad (n : N) :
  (n < 64)%N -> Ascii.eqb (Base64.encodeSextet n) Base64.pad = false.
Proof.
  intro Hn. unfold Base64.encodeSextet.
  assert (Hk : (N.to_nat n < 64)%nat) by lia.
  revert Hk. generalize (N.to_nat n) as k. intro k.
  do 64 (destruct k as [|k]; [reflexivity|]). lia.
Qed.

(** The four six-bit values of three bytes, and the bytes back from them. *)
Lemma sextets_of_bytes (a b c : N) :
  (a < 256 -> b < 256 -> c < 256 ->
   a / 4 < 64 /\ (a mod 4) * 16 + b / 16 < 64 /\ (b mod 16) * 4 + c / 64 < 64
   /\ c mod 64 < 64 /\ (a mod 4) * 16 < 64 /\ (b mod 16) * 4 < 64
   /\ (a / 4) * 4 + ((a mod 4) * 16 + b / 16) / 16 = a
   /\ (((a mod 4) * 16 + b / 16) mod 16) * 16 + ((b mod 16) * 4 + c / 64) / 4 = b
   /\ (((b mod 16) * 4 + c / 64) mod 4) * 64 + c mod 64 = c)%N.
Proof.
  intros. repeat split; zify; Z.to_euclidean_division_equations; lia.
Qed.

Lemma N_of_ascii_bound (a : ascii) : (N_of_ascii a < 256)%N.
Proof. apply N_ascii_bounded. Qed.

Lemma sextets_of_one_byte (a : N) :
  (a < 256 ->
   a / 4 < 64 /\ (a mod 4) * 16 < 64
   /\ (a / 4) * 4 + ((a mod 4) * 16) / 16 = a)%N.
Proof.
  intros. repeat split; zify; Z.to_euclidean_division_equations; lia.
Qed.

Lemma sextets_of_two_bytes (a b : N) :
  (a < 256 -> b < 256 ->
   a / 4 < 64 /\ (a mod 4) * 16 + b / 16 < 64 /\ (b mod 16) * 4 < 64
   /\ (a / 4) * 4 + ((a mod 4) * 16 + b / 16) / 16 = a
   /\ (((a mod 4) * 16 + b / 16) mod 16) * 16 + ((b mod 16) * 4) / 4 = b)%N.
Proof.
  intros. repeat split; zify; Z.to_euclidean_division_equations; lia.
Qed.

Ltac decode_sextets :=
  repeat first
    [ rewrite decodeChar_encodeSextet by assumption
    | rewrite encodeSextet_not_pad by assumption
    | rewrite Ascii.eqb_refl ].

Lemma decodeGroups_encode (s : string) :
  Base64.decodeGroups (Base64.encode s) = Some s.
Proof.
  induction s as [|a|a b|a b c s IH] using string_ind3.
  - reflexivity.
  - destruct (sextets_of_one_byte _ (N_of_ascii_bound a)) as (? & ? & Ha).
    cbn [Base64.encode Base64.decodeGroups]. decode_sextets.
    cbn [JsString.isEmpty andb].
    now rewrite Ha, ascii_N_embedding.
  - destruct (sextets_of_two_bytes _ _ (N_of_ascii_bound a) (N_of_ascii_bound b))
      as (? & ? & ? & Ha & Hb).
    cbn [Base64.encode Base64.decodeGroups]. decode_sextets.
    cbn [JsString.isEmpty].
    now rewrite Ha, Hb, !ascii_N_embedding.
  - destruct (sextets_of_bytes _ _ _ (N_of_ascii_bound a) (N_of_ascii_bound b)
                (N_of_ascii_bound c))
      as (? & ? & ? & ? & _ & _ & Ha & Hb & Hc).
    cbn [Base64.encode Base64.decodeGroups]. decode_sextets.
    now rewrite IH, Ha, Hb, Hc, !ascii_N_embedding.
Qed.

Lemma encode_isBase64Char (s : string) :
  allChars isBase64Char (Base64.encode s) = true.
Proof.
  induction s as [|a|a b|a b c s IH] using string_ind3;
    cbn [Base64.encode allChars];
    rewrite ?encodeSextet_isBase64Char, ?IH; reflexivity.
Qed.

Lemma dropNewlines_id (s : string) :
  allChars (fun c => negb (Ascii.eqb c "010")) s = true ->
  Base64.dropNewlines s = s.
Proof.
  induction s as [|c s IH]; simpl; [reflexivity|].
  rewrite andb_true_iff, negb_true_iff. intros [Hc Hs].
  rewrite Hc, IH; auto.
Qed.

Lemma dropNewlines_append (a b : string) :
  Base64.dropNewlines (a ++ b) = Base64.dropNewlines a ++ Base64.dropNewlines b.
Proof.
  induction a as [|c a IH]; simpl; [reflexivity|].
  destruct (Ascii.eqb c "010"); simpl; congruence.
Qed.

Lemma isBase64Char_not c d :
  isBase64Char d = false -> isBase64Char c = true -> negb (Ascii.eqb c d) = true.
Proof.
  intros Hd Hc. destruct (Ascii.eqb_spec c d); [congruence|reflexivity].
Qed.

(** ** The promise around a spawned child *)

Section CallFacts.

Variable timeoutError : McpError.
Variable closeReply : option Z -> string -> string -> Reply.
Variable spawnError : string -> McpError.

Local Abbreviation step := (handleEvent timeoutError closeReply spawnError).
Local Abbreviation run := (runEvents timeoutError closeReply spawnError).

Lemma runEvents_app (a b : list ChildEvent) (c : Call) :
  run (a ++ b)%list c = run b (run a c).
Proof. apply fold_left_app. Qed.

Lemma runEvents_cons (ev : ChildEvent) (evs : list ChildEvent) (c : Call) :
  run (ev :: evs) c = run evs (step ev c).
Proof. reflexivity. Qed.

Lemma settle_settled (o o' : Outcome) (c : Call) :
  settled c = Some o -> settle o' c = c.
Proof. unfold settle. intros ->. reflexivity. Qed.

Lemma settle_pending (o : Outcome) (c : Call) :
  settled c = None -> settled (settle o c) = Some o.
Proof. unfold settle. intros ->. reflexivity. Qed.

Lemma settle_keeps (o : Outcome) (c : Call) :
  timerArmed (settle o c) = timerArmed c /\ effects (settle o c) = effects c
  /\ stdoutBuf (settle o c) = stdoutBuf c /\ stderrBuf (settle o c) = stderrBuf c.
Proof. unfold settle. destruct (settled c); repeat split. Qed.

(** A settled promise stays as it was settled. *)
Lemma step_settled (ev : ChildEvent) (c : Call) (o : Outcome) :
  settled c = Some o -> settled (step ev c) = Some o.
Proof.
  intro Hs. destruct ev as [data|data|code|message|]; simpl; try assumption.
  - rewrite (settle_settled o); [assumption|assumption].
  - rewrite (settle_settled o); assumption.
  - destruct (timerArmed c); [|assumption].
    rewrite (settle_settled o); assumption.
Qed.

Lemma run_settled (evs : list ChildEvent) (c : Call) (o : Outcome) :
  settled c = Some o -> settled (run evs c) = Some o.
Proof.
  revert c. induction evs as [|ev evs IH]; intros c Hs; [exact Hs|].
  rewrite runEvents_cons. apply IH, step_settled, Hs.
Qed.

(** Output changes the buffers only. *)
Lemma step_output (ev : ChildEvent) (c : Call) :
  isOutput ev = true ->
  timerArmed (step ev c) = timerArmed c /\ effects (step ev c) = effects c
  /\ settled (step ev c) = settled c.
Proof. destruct ev as [data|data|code|message|]; simpl; intro H; try discriminate; repeat split. Qed.

Lemma run_output (evs : list ChildEvent) (c : Call) :
  forallb isOutput evs = true ->
  timerArmed (run evs c) = timerArmed c /\ effects (run evs c) = effects c
  /\ settled (run evs c) = settled c.
Proof.
  revert c. induction evs as [|ev evs IH]; intros c H; [repeat split|].
  simpl in H. apply andb_true_iff in H as [Hev Hevs].
  rewrite runEvents_cons.
  destruct (IH (step ev c) Hevs) as (-> & -> & ->).
  apply step_output, Hev.
Qed.

(** Once the timer is disarmed, no event arms it or sends a signal. *)
Lemma step_disarmed (ev : ChildEvent) (c : Call) :
  timerArmed c = false ->
  timerArmed (step ev c) = false /\ effects (step ev c) = effects c.
Proof.
  intro Ht. unfold handleEvent, settle, clearTimeout, disarm.
  destruct ev as [data|data|code|message|]; simpl; rewrite ?Ht;
    destruct (settled c); simpl; auto.
Qed.

Lemma run_disarmed (evs : list ChildEvent) (c : Call) :
  timerArmed c = false ->
  timerArmed (run evs c) = false /\ effects (run evs c) = effects c.
Proof.
  revert c. induction evs as [|ev evs IH]; intros c Ht; [split; [assumption|reflexivity]|].
  rewrite runEvents_cons. destruct (step_disarmed ev c Ht) as (Ht' & <-).
  apply IH, Ht'.
Qed.

(** An event that is not output disarms the timer. *)
Lemma step_disarms (ev : ChildEvent) (c : Call) :
  isOutput ev = false -> timerArmed (step ev c) = false.
Proof.
  destruct ev as [data|data|code|message|]; simpl; intro H; try discriminate.
  - now destruct (settle_keeps (Resolved (closeReply code (stdoutBuf c) (stderrBuf c)))
                    (clearTimeout c)) as (-> & _).
  - now destruct (settle_keeps (Rejected (spawnError message)) (clearTimeout c))
      as (-> & _).
  - destruct (timerArmed c) eqn:Ht; [|assumption].
    now destruct (settle_keeps (Rejected timeoutError)
                    (kill "SIGTERM" (disarm c))) as (-> & _).
Qed.

Lemma run_timer (evs : list ChildEvent) (c : Call) :
  timerArmed c = true -> timerArmed (run evs c) = forallb isOutput evs.
Proof.
  revert c. induction evs as [|ev evs IH]; intros c Ht; [assumption|].
  rewrite runEvents_cons. simpl. destruct (isOutput ev) eqn:Hev.
  - simpl. apply IH. destruct (step_output ev c Hev) as (-> & _). assumption.
  - simpl. apply run_disarmed, step_disarms, Hev.
Qed.

(** The effects of a step: those before it, and SIGTERM if the armed timer
    went off. *)
Lemma step_effects (ev : ChildEvent) (c : Call) :
  effects (step ev c) = effects c
  \/ (timerArmed c = true /\ ev = TimerExpires
      /\ effects (step ev c) = (effects c ++ [Kill "SIGTERM"])%list).
Proof.
  destruct (timerArmed c) eqn:Ht.
  - destruct ev as [data|data|code|message|]; simpl; rewrite ?Ht.
    + left; reflexivity.
    + left; reflexivity.
    + left. now destruct (settle_keeps (Resolved (closeReply code (stdoutBuf c) (stderrBuf c)))
                    (clearTimeout c)) as (_ & -> & _).
    + left. now destruct (settle_keeps (Rejected (spawnError message)) (clearTimeout c))
               as (_ & -> & _).
    + right. repeat split.
      now destruct (settle_keeps (Rejected timeoutError)
                      (kill "SIGTERM" (disarm c))) as (_ & -> & _).
  - left. apply step_disarmed, Ht.
Qed.

Lemma run_signals (evs : list ChildEvent) (c : Call) :
  signalsSent c = [] -> (length (signalsSent (run evs c)) <= 1)%nat.
Proof.
  revert c. induction evs as [|ev evs IH]; intros c Hc.
  - simpl. rewrite Hc. simpl. lia.
  - rewrite runEvents_cons.
    destruct (step_effects ev c) as [He | (Ht & -> & He)].
    + apply IH. unfold signalsSent. rewrite He. exact Hc.
    + destruct (run_disarmed evs (step TimerExpires c)
                  (step_disarms TimerExpires c eq_refl)) as (_ & Hrun).
      unfold signalsSent in *. rewrite Hrun, He.
      rewrite filter_app, Hc. simpl. lia.
Qed.

(** The first ['close'] of a running child settles the call with its reply. *)
Lemma close_resolves (file : string) (args : list string)
    (pre post : list ChildEvent) (code : option Z) :
  forallb isOutput pre = true ->
  exists out err,
    settled (run (pre ++ Close code :: post)%list (spawned file args))
    = Some (Resolved (closeReply code out err)).
Proof.
  intro H. exists (stdoutBuf (run pre (spawned file args))),
    (stderrBuf (run pre (spawned file args))).
  rewrite runEvents_app, runEvents_cons. apply run_settled.
  destruct (run_output pre (spawned file args) H) as (Ht & He & Hs).
  apply settle_pending. exact Hs.
Qed.

(** The spawn comes first among the effects, whatever follows. *)
Lemma run_spawn_first (file : string) (args : list string) (evs : list ChildEvent) :
  hd_error (effects (run evs (spawned file args))) = Some (Spawn file args).
Proof.
  assert (H : forall c, hd_error (effects c) = Some (Spawn file args) ->
                        hd_error (effects (run evs c)) = Some (Spawn file args)).
  { induction evs as [|ev evs IH]; intros c Hc; [exact Hc|].
    rewrite runEvents_cons. apply IH.
    destruct (step_effects ev c) as [-> | (_ & _ & ->)]; [exact Hc|].
    destruct (effects c); [discriminate|exact Hc]. }
  apply H. reflexivity.
Qed.

End CallFacts.

(** ** Encoded execution *)

Lemma encode_has_no (c : ascii) (s : string) :
  isBase64Char c = false ->
  allChars (fun d => negb (Ascii.eqb d c)) (Base64.encode s) = true.
Proof.
  intro Hc. apply (allChars_impl isBase64Char); [|apply encode_isBase64Char].
  intros d Hd. apply isBase64Char_not; assumption.
Qed.

Lemma decode_encode (s : string) : Base64.decode (Base64.encode s) = Some s.
Proof.
  unfold Base64.decode.
  rewrite dropNewlines_id by (apply encode_has_no; reflexivity).
  apply decodeGroups_encode.
Qed.

Lemma remoteInterpreterInput_encode (s : string) :
  remoteInterpreterInput (Base64.encode s) = Some s.
Proof.
  unfold remoteInterpreterInput, Base64.decode.
  rewrite dropNewlines_append.
  rewrite dropNewlines_id by (apply encode_has_no; reflexivity).
  simpl. rewrite append_nil_r. apply decodeGroups_encode.
Qed.

(** C3.  Encoded execution is lossless.  For every payload (any bytes: several
    lines, quotes, backticks, dollar signs), decoding what the encoder wrote
    gives the payload back, also through [echo ... | base64 -d] on the remote
    side; and the command line that [executeCommand] (with [useBase64]) and
    [executeScript] hand to [ssh] is that fixed pipeline around the encoded
    payload.  So the text the remote interpreter reads is the caller's
    payload. *)
Theorem encoded_mode_is_lossless :
  forall (sshHosts : Registry) (host : string) (hostConfig : SSHHost)
         (payload : string),
    JsMap.get sshHosts host = Some hostConfig ->
    Base64.decode (Base64.encode payload) = Some payload /\
    remoteInterpreterInput (Base64.encode payload) = Some payload /\
    (forall timeout events,
        hd_error (effects (executeCommand sshHosts host payload timeout true events))
        = Some (Spawn "ssh"
                  [host; "echo '" ++ Base64.encode payload ++ "' | base64 -d | bash"])) /\
    (forall timeout interpreter events,
        hd_error
          (effects (executeScript sshHosts host payload timeout interpreter events))
        = Some (Spawn "ssh"
                  [host; "echo '" ++ Base64.encode payload ++ "' | base64 -d | "
                           ++ interpreter])).
Proof.
  intros sshHosts host hostConfig payload Hget.
  split; [apply decode_encode|]. split; [apply remoteInterpreterInput_encode|].
  unfold executeCommand, executeScript. rewrite Hget.
  split; intros; apply run_spawn_first.
Qed.

Lemma encoded_mode_is_lossless_witness :
  JsMap.get [("web", newHost "web")] "web" = Some (newHost "web") /\
  remoteInterpreterInput (Base64.encode "echo 'it''s' `date` $HOME") =
  Some "echo 'it''s' `date` $HOME".
Proof.
  split; [reflexivity|].
  apply (encoded_mode_is_lossless [("web", newHost "web")] "web" (newHost "web")).
  reflexivity.
Defined.

(** C10.  For every payload, the text put between the single quotes of
    [echo '...' | base64 -d | interpreter] consists of characters of the
    Base64 alphabet only (letters, digits, [+], [/], [=]); it holds no single
    quote and no white space, so no payload can close the quotes it is
    embedded in. *)
Theorem encoded_payload_stays_inside_its_quotes :
  forall (payload interpreter : string),
    finalCommand payload true
    = "echo '" ++ Base64.encode payload ++ "' | base64 -d | bash" /\
    scriptCommand payload interpreter
    = "echo '" ++ Base64.encode payload ++ "' | base64 -d | " ++ interpreter /\
    allChars isBase64Char (Base64.encode payload) = true /\
    JsString.includesChar "'" (Base64.encode payload) = false /\
    allChars (fun c => negb (JsString.isSpace c)) (Base64.encode payload) = true.
Proof.
  intros payload interpreter.
  split; [reflexivity|]. split; [reflexivity|].
  split; [apply encode_isBase64Char|]. split.
  - rewrite includesChar_allChars, encode_has_no; reflexivity.
  - apply (allChars_impl isBase64Char); [|apply encode_isBase64Char].
    intros c Hc. destruct (JsString.isSpace c) eqn:Hs; [|reflexivity].
    exfalso. revert Hc Hs. unfold isBase64Char, JsString.isSpace.
    generalize (nat_of_ascii c) as n. intros n.
    rewrite !orb_true_iff, !andb_true_iff, !Nat.leb_le, !Nat.eqb_eq. lia.
Qed.

(** ** Exit codes, timeouts and transfers *)


(** C5, as the code has it.  On a known host, a command or script whose child
    closes with a nonzero code while the call is pending (only output came
    before: the timer has not expired and the spawn did not fail) gives a
    normal result with [success = false] and [exitCode] the code of the
    child.  A file transfer whose copy command exits nonzero, is ended by a
    signal or cannot be started fails with an error ([InternalError], message
    [SCP upload failed: ...] or [SCP download failed: ...]); it never gives a
    result with [success = false]. *)
Theorem nonzero_exit_is_a_result_for_commands_and_an_error_for_transfers :
  forall (sshHosts : Registry) (host : string) (hostConfig : SSHHost),
    JsMap.get sshHosts host = Some hostConfig ->
    (forall command timeout useBase64 pre code post,
        forallb isOutput pre = true -> code <> 0%Z ->
        exists r,
          settled (executeCommand sshHosts host command timeout useBase64
                     (pre ++ Close (Some code) :: post))
          = Some (Resolved (CommandReply r))
          /\ cmdSuccess r = false /\ cmdExitCode r = Some code) /\
    (forall script timeout interpreter pre code post,
        forallb isOutput pre = true -> code <> 0%Z ->
        exists r,
          settled (executeScript sshHosts host script timeout interpreter
                     (pre ++ Close (Some code) :: post))
          = Some (Resolved (ScriptReply r))
          /\ scrSuccess r = false /\ scrExitCode r = Some code) /\
    (forall localPath remotePath ending,
        execFailed ending = true ->
        exists message,
          settled (uploadFile sshHosts host localPath remotePath (Some ending))
          = Some (Rejected
                    (mkMcpError InternalError ("SCP upload failed: " ++ message)))) /\
    (forall remotePath localPath ending,
        execFailed ending = true ->
        exists message,
          settled (downloadFile sshHosts host remotePath localPath (Some ending))
          = Some (Rejected
                    (mkMcpError InternalError ("SCP download failed: " ++ message)))).
Proof.
  intros sshHosts host hostConfig Hget.
  assert (Hflag : forall code : Z, code <> 0%Z ->
            match Some code with Some 0%Z => true | _ => false end = false).
  { intros [|p|p] Hc; [congruence|reflexivity|reflexivity]. }
  unfold executeCommand, executeScript, uploadFile, downloadFile. rewrite Hget.
  repeat split.
  - intros command timeout useBase64 pre code post Hpre Hcode.
    destruct (close_resolves
                (mkMcpError InternalError
                   ("Command timed out after " ++ showNumber timeout ++ " seconds"))
                (commandReply host command useBase64)
                (fun message =>
                   mkMcpError InternalError ("SSH execution failed: " ++ message))
                "ssh" [host; finalCommand command useBase64] pre post (Some code) Hpre)
      as (out & err & ->).
    eexists. split; [reflexivity|]. split; [apply Hflag, Hcode|reflexivity].
  - intros script timeout interpreter pre code post Hpre Hcode.
    destruct (close_resolves
                (mkMcpError InternalError
                   ("Script timed out after " ++ showNumber timeout ++ " seconds"))
                (scriptReply host script interpreter)
                (fun message =>
                   mkMcpError InternalError
                     ("SSH script execution failed: " ++ message))
                "ssh" [host; scriptCommand script interpreter] pre post (Some code) Hpre)
      as (out & err & ->).
    eexists. split; [reflexivity|]. split; [apply Hflag, Hcode|reflexivity].
  - intros localPath remotePath ending Hfail. unfold transfer. simpl.
    destruct ending as [code out err|sig out err|message|stream out err];
      simpl in *.
    + destruct (code =? 0)%Z; [discriminate|]. eexists. reflexivity.
    + eexists. reflexivity.
    + eexists. reflexivity.
    + eexists. reflexivity.
  - intros remotePath localPath ending Hfail. unfold transfer. simpl.
    destruct ending as [code out err|sig out err|message|stream out err];
      simpl in *.
    + destruct (code =? 0)%Z; [discriminate|]. eexists. reflexivity.
    + eexists. reflexivity.
    + eexists. reflexivity.
    + eexists. reflexivity.
Qed.

Lemma nonzero_exit_is_a_result_for_commands_and_an_error_for_transfers_witness :
  JsMap.get [("web", newHost "web")] "web" = Some (newHost "web") /\
  forallb isOutput [StderrData "no such file"] = true /\
  2%Z <> 0%Z /\
  exists r,
    settled (executeCommand [("web", newHost "web")] "web" "ls /nowhere" 30 false
               [StderrData "no such file"; Close (Some 2%Z)])
    = Some (Resolved (CommandReply r))
    /\ cmdSuccess r = false /\ cmdExitCode r = Some 2%Z.
Proof.
  split; [reflexivity|]. split; [reflexivity|]. split; [discriminate|].
  exact (proj1 (nonzero_exit_is_a_result_for_commands_and_an_error_for_transfers
                  [("web", newHost "web")] "web" (newHost "web") eq_refl)
           "ls /nowhere" 30%Z false [StderrData "no such file"] 2%Z []
           eq_refl ltac:(discriminate)).
Defined.

(** C5, as the specification states it, fails when the timer wins the race:
    the child is sent SIGTERM, closes with the nonzero code 255 (as [ssh]
    does), and the call has already failed with the timeout error. *)
Lemma nonzero_exit_after_expiry_is_an_error :
  settled (executeCommand [("web", newHost "web")] "web" "sleep 60" 1 false
             [TimerExpires; Close (Some 255%Z)])
  = Some (Rejected (mkMcpError InternalError "Command timed out after 1 seconds")).
Proof. reflexivity. Qed.

(** ** The registry *)

Lemma get_set_same {V} (k : string) (v : V) (m : JsMap.t V) :
  JsMap.get (JsMap.set k v m) k = Some v.
Proof.
  induction m as [|[k' v'] m IH]; simpl.
  - now rewrite String.eqb_refl.
  - destruct (String.eqb k' k) eqn:E; simpl; rewrite E; [reflexivity|exact IH].
Qed.

Lemma get_set_other {V} (k k' : string) (v : V) (m : JsMap.t V) :
  k <> k' -> JsMap.get (JsMap.set k v m) k' = JsMap.get m k'.
Proof.
  intro Hk. induction m as [|[k0 v0] m IH]; simpl.
  - destruct (String.eqb_spec k k'); [contradiction|reflexivity].
  - destruct (String.eqb_spec k0 k) as [->|Hk0]; simpl.
    + destruct (String.eqb_spec k k'); [contradiction|reflexivity].
    + destruct (String.eqb k0 k'); [reflexivity|exact IH].
Qed.

(** ** The loop of [parseSSHConfig] *)

Section ParserFacts.

Variable env : Env.

Lemma parseLine_classify (include : string -> Registry -> option Registry)
    (raw : string) (currentHost : option SSHHost) (hosts : Registry) :
  parseLine env include raw (currentHost, hosts) =
  match classify raw with
  | Skipped => Some (currentHost, hosts)
  | IncludeOf includePath =>
      match include includePath hosts with
      | Some hosts' => Some (currentHost, hosts')
      | None => None
      end
  | HostOf value => Some (Some (newHost value), commit currentHost hosts)
  | PropertyOf key value =>
      Some (option_map (applyProperty env key value) currentHost, hosts)
  end.
Proof.
  unfold parseLine, classify, applyProperty.
  destruct (JsString.isEmpty (JsString.trim raw)
            || JsString.startsWith (JsString.trim raw) "#"); [reflexivity|].
  destruct (JsString.startsWith (JsString.toLowerCase (JsString.trim raw)) "include ");
    [reflexivity|].
  destruct (JsString.splitSpaces (JsString.trim raw)) as [|key valueParts];
    [reflexivity|].
  destruct (String.eqb (JsString.toLowerCase key) "host"); [reflexivity|].
  destruct currentHost as [h|]; [|reflexivity]. simpl.
  destruct (negb (JsString.isEmpty key)
            && negb (JsString.isEmpty (JsString.join " " valueParts)));
    reflexivity.
Qed.

Lemma parseLines_app (include : string -> Registry -> option Registry)
    (a b : list string) (st : LoopState) :
  parseLines env include (a ++ b) st =
  match parseLines env include a st with
  | Some st' => parseLines env include b st'
  | None => None
  end.
Proof.
  revert st. induction a as [|raw a IH]; intro st; simpl; [reflexivity|].
  destruct (parseLine env include raw st); [apply IH|reflexivity].
Qed.

(** No property changes the alias of a record. *)
Lemma host_setProperty (key value : string) (h : SSHHost) :
  host (setProperty env key value h) = host h.
Proof.
  unfold setProperty, setExtra.
  repeat match goal with |- context [if ?b then _ else _] => destruct b end;
    reflexivity.
Qed.

Lemma host_applyLine (raw : string) (h : SSHHost) :
  host (applyLine env raw h) = host h.
Proof.
  unfold applyLine, applyProperty. destruct (classify raw); try reflexivity.
  destruct (negb (JsString.isEmpty key) && negb (JsString.isEmpty value));
    [apply host_setProperty|reflexivity].
Qed.

Lemma host_applyLines (body : list string) (h : SSHHost) :
  host (fold_left (fun h raw => applyLine env raw h) body h) = host h.
Proof.
  revert h. induction body as [|raw body IH]; intro h; simpl; [reflexivity|].
  rewrite IH. apply host_applyLine.
Qed.

Lemma host_blockRecord (value : string) (body : list string) :
  host (blockRecord env value body) = value.
Proof. unfold blockRecord. now rewrite host_applyLines. Qed.

(** Inside a block (no [Host] line) the lines change the open record as
    [applyLine] says; what they include goes to the registry only. *)
Lemma parseLines_block (include : string -> Registry -> option Registry)
    (body : list string) (currentHost : option SSHHost) (hosts : Registry)
    (st : LoopState) :
  forallb (fun raw => negb (isHostLine raw)) body = true ->
  parseLines env include body (currentHost, hosts) = Some st ->
  fst st = option_map (fold_left (fun h raw => applyLine env raw h) body) currentHost.
Proof.
  revert currentHost hosts.
  induction body as [|raw body IH]; intros currentHost hosts Hbody Hrun.
  - simpl in *. injection Hrun as <-. now destruct currentHost.
  - cbn [forallb] in Hbody. cbn [parseLines] in Hrun.
    apply andb_true_iff in Hbody as [Hraw Hbody].
    rewrite parseLine_classify in Hrun. unfold isHostLine in Hraw.
    assert (Hstep : forall h,
               fold_left (fun h raw => applyLine env raw h) (raw :: body) h
               = fold_left (fun h raw => applyLine env raw h) body
                   (match classify raw with
                    | PropertyOf key value => applyProperty env key value h
                    | _ => h
                    end)).
    { intro h. reflexivity. }
    destruct (classify raw) as [|includePath|value|key value] eqn:Hk.
    + rewrite (IH _ _ Hbody Hrun).
      destruct currentHost; cbn [option_map]; [now rewrite Hstep|reflexivity].
    + destruct (include includePath hosts) as [hosts'|]; [|discriminate].
      rewrite (IH _ _ Hbody Hrun).
      destruct currentHost; cbn [option_map]; [now rewrite Hstep|reflexivity].
    + discriminate.
    + rewrite (IH _ _ Hbody Hrun).
      destruct currentHost; cbn [option_map]; [now rewrite Hstep|reflexivity].
Qed.

Lemma commit_frame (alias : string) (st : LoopState) :
  pendingAlias st <> Some alias ->
  JsMap.get (commit (fst st) (snd st)) alias = JsMap.get (snd st) alias.
Proof.
  destruct st as [[h|] hosts]; unfold pendingAlias; simpl; intro Hst; [|reflexivity].
  apply get_set_other. intros Heq. apply Hst. now rewrite Heq.
Qed.

(** Lines that declare no block for [alias], and whose includes leave its
    entry alone, leave the entry alone, once the open block is not one for
    [alias]. *)
Lemma parseLines_frame (include : string -> Registry -> option Registry)
    (quiet : string -> string -> bool) (basePath alias : string)
    (post : list string) :
  (forall includePath hosts hosts',
      filesOk env quiet (includeFiles env includePath basePath) = true ->
      include includePath hosts = Some hosts' ->
      JsMap.get hosts' alias = JsMap.get hosts alias) ->
  linesQuiet env alias quiet basePath post = true ->
  forall st st',
    pendingAlias st <> Some alias ->
    parseLines env include post st = Some st' ->
    pendingAlias st' <> Some alias
    /\ JsMap.get (snd st') alias = JsMap.get (snd st) alias.
Proof.
  intros Hinclude. induction post as [|raw post IH];
    intros Hpost [currentHost hosts] st' Hst Hrun.
  - cbn [parseLines] in Hrun. assert (st' = (currentHost, hosts)) as -> by congruence.
    split; [assumption|reflexivity].
  - cbn [linesQuiet forallb] in Hpost. apply andb_true_iff in Hpost as [Hraw Hpost].
    cbn [parseLines] in Hrun. rewrite parseLine_classify in Hrun.
    destruct (classify raw) as [|includePath|value|key value] eqn:Hk.
    + exact (IH Hpost _ _ Hst Hrun).
    + destruct (include includePath hosts) as [hosts1|] eqn:Hinc; [|discriminate].
      destruct (IH Hpost (currentHost, hosts1) st' Hst Hrun) as [Hpend Hget].
      split; [exact Hpend|]. rewrite Hget. cbn [snd].
      exact (Hinclude includePath hosts hosts1 Hraw Hinc).
    + apply negb_true_iff, String.eqb_neq in Hraw.
      destruct (IH Hpost (Some (newHost value), commit currentHost hosts) st')
        as [Hpend Hget]; [|exact Hrun|].
      * unfold pendingAlias. cbn [fst option_map newHost host]. congruence.
      * split; [exact Hpend|]. rewrite Hget.
        exact (commit_frame alias (currentHost, hosts) Hst).
    + apply (IH Hpost (option_map (applyProperty env key value) currentHost, hosts) st');
        [|exact Hrun].
      unfold pendingAlias in *. cbn [fst] in *.
      destruct currentHost as [h|]; [|exact Hst].
      cbn [option_map] in *. unfold applyProperty.
      destruct (negb (JsString.isEmpty key) && negb (JsString.isEmpty value));
        [rewrite host_setProperty|]; exact Hst.
Qed.

(** After [lines], the open block is the one of their last [Host] line. *)
Lemma parseLines_openAlias (include : string -> Registry -> option Registry)
    (lines : list string) (st st' : LoopState) :
  parseLines env include lines st = Some st' ->
  pendingAlias st' =
  fold_left
    (fun open raw => match classify raw with HostOf value => Some value | _ => open end)
    lines (pendingAlias st).
Proof.
  revert st. induction lines as [|raw lines IH]; intros [currentHost hosts] Hrun.
  - simpl in *. now injection Hrun as <-.
  - cbn [parseLines] in Hrun. rewrite parseLine_classify in Hrun. cbn [fold_left].
    destruct (classify raw) as [|includePath|value|key value] eqn:Hk.
    + apply (IH _ Hrun).
    + destruct (include includePath hosts) as [hosts'|]; [|discriminate].
      apply (IH _ Hrun).
    + apply (IH _ Hrun).
    + rewrite (IH _ Hrun). f_equal. unfold pendingAlias. simpl.
      destruct currentHost as [h|]; [|reflexivity]. simpl. unfold applyProperty.
      destruct (negb (JsString.isEmpty key) && negb (JsString.isEmpty value));
        [now rewrite host_setProperty|reflexivity].
Qed.

End ParserFacts.

(** ** Termination of the parse *)

Section Termination.

Variable env : Env.

Lemma loadFiles_total (parse : string -> string -> Registry -> option Registry)
    (ok : string -> string -> bool) (files : list string) (hosts : Registry) :
  (forall content file hosts,
      ok content file = true -> exists hosts', parse content file hosts = Some hosts') ->
  filesOk env ok files = true ->
  exists hosts', loadFiles env parse files hosts = Some hosts'.
Proof.
  intros Hparse. revert hosts.
  induction files as [|file files IH]; intros hosts Hok.
  - exists hosts. reflexivity.
  - cbn [filesOk forallb] in Hok. apply andb_true_iff in Hok as [Hfile Hfiles].
    cbn [loadFiles]. destruct (readFile env file) as [content|]; [|apply IH, Hfiles].
    destruct (Hparse content file hosts Hfile) as (hosts1 & ->).
    apply IH, Hfiles.
Qed.

Lemma parseLines_total (include : string -> Registry -> option Registry)
    (ok : string -> string -> bool) (basePath : string) (lines : list string)
    (st : LoopState) :
  (forall includePath hosts,
      filesOk env ok (includeFiles env includePath basePath) = true ->
      exists hosts', include includePath hosts = Some hosts') ->
  linesOk env ok basePath lines = true ->
  exists st', parseLines env include lines st = Some st'.
Proof.
  intros Hinc. revert st.
  induction lines as [|raw lines IH]; intros [currentHost hosts] Hok.
  - eexists. reflexivity.
  - cbn [linesOk forallb] in Hok. apply andb_true_iff in Hok as [Hraw Hlines].
    cbn [parseLines]. rewrite parseLine_classify.
    destruct (classify raw) as [|includePath|value|key value];
      try (apply IH, Hlines).
    destruct (Hinc includePath hosts Hraw) as (hosts1 & ->).
    apply IH, Hlines.
Qed.

Lemma linesOk_app (ok : string -> string -> bool) (basePath : string)
    (a b : list string) :
  linesOk env ok basePath (a ++ b)
  = linesOk env ok basePath a && linesOk env ok basePath b.
Proof. apply forallb_app. Qed.

Lemma parseSSHConfig_total (d : nat) :
  forall content basePath hosts,
    includeDepth env d content basePath = true ->
    exists hosts', parseSSHConfig env d content basePath hosts = Some hosts'.
Proof.
  induction d as [|d IH]; intros content basePath hosts Hok; [discriminate|].
  cbn [includeDepth] in Hok. cbn [parseSSHConfig]. unfold parseDocument.
  destruct (parseLines_total (includeAt env d basePath) (includeDepth env d) basePath
              (JsString.splitChar "010" content) (None, hosts))
    as ([currentHost hosts1] & Hrun).
  - intros includePath hosts0 Hfiles. unfold includeAt, handleInclude.
    apply (loadFiles_total _ (includeDepth env d)); [exact IH|exact Hfiles].
  - exact Hok.
  - unfold includeAt in Hrun. rewrite Hrun. eexists. reflexivity.
Qed.

Lemma includeAt_total (d : nat) (basePath includePath : string) (hosts : Registry) :
  filesOk env (includeDepth env d) (includeFiles env includePath basePath) = true ->
  exists hosts', includeAt env d basePath includePath hosts = Some hosts'.
Proof.
  intro Hfiles. unfold includeAt, handleInclude.
  apply (loadFiles_total _ (includeDepth env d)); [|exact Hfiles].
  intros. now apply parseSSHConfig_total.
Qed.

(** More fuel does not change a result. *)
Lemma loadFiles_mono (parse parse' : string -> string -> Registry -> option Registry)
    (files : list string) :
  (forall content file hosts r,
      parse content file hosts = Some r -> parse' content file hosts = Some r) ->
  forall hosts r,
    loadFiles env parse files hosts = Some r -> loadFiles env parse' files hosts = Some r.
Proof.
  intro Hmono. induction files as [|file files IH]; intros hosts r Hrun; [exact Hrun|].
  cbn [loadFiles] in *. destruct (readFile env file) as [content|]; [|now apply IH].
  destruct (parse content file hosts) as [hosts1|] eqn:Hp; [|discriminate].
  rewrite (Hmono _ _ _ _ Hp). now apply IH.
Qed.

Lemma parseLines_mono (include include' : string -> Registry -> option Registry)
    (lines : list string) :
  (forall includePath hosts r,
      include includePath hosts = Some r -> include' includePath hosts = Some r) ->
  forall st r,
    parseLines env include lines st = Some r -> parseLines env include' lines st = Some r.
Proof.
  intro Hmono. induction lines as [|raw lines IH]; intros [currentHost hosts] r Hrun;
    [exact Hrun|].
  cbn [parseLines] in *. rewrite parseLine_classify in *.
  destruct (classify raw) as [|includePath|value|key value]; try (now apply IH).
  destruct (include includePath hosts) as [hosts1|] eqn:Hi; [|discriminate].
  rewrite (Hmono _ _ _ Hi). now apply IH.
Qed.

Lemma parseSSHConfig_step (d : nat) :
  forall content basePath hosts r,
    parseSSHConfig env d content basePath hosts = Some r ->
    parseSSHConfig env (S d) content basePath hosts = Some r.
Proof.
  induction d as [|d IH]; intros content basePath hosts r Hrun; [discriminate|].
  assert (Hmono : forall includePath hosts0 r0,
             handleInclude env (parseSSHConfig env d) includePath basePath hosts0
             = Some r0 ->
             handleInclude env (parseSSHConfig env (S d)) includePath basePath hosts0
             = Some r0).
  { intros includePath hosts0 r0. unfold handleInclude.
    apply loadFiles_mono. exact IH. }
  change (parseDocument env
            (fun p => handleInclude env (parseSSHConfig env d) p basePath)
            content hosts = Some r) in Hrun.
  change (parseDocument env
            (fun p => handleInclude env (parseSSHConfig env (S d)) p basePath)
            content hosts = Some r).
  unfold parseDocument in Hrun |- *.
  destruct (parseLines env
              (fun p => handleInclude env (parseSSHConfig env d) p basePath)
              (JsString.splitChar "010" content) (None, hosts))
    as [st|] eqn:Hlines; [|discriminate].
  rewrite (parseLines_mono
             (fun p => handleInclude env (parseSSHConfig env d) p basePath)
             (fun p => handleInclude env (parseSSHConfig env (S d)) p basePath)
             _ Hmono _ _ Hlines).
  exact Hrun.
Qed.

Lemma parseSSHConfig_mono (d fuel : nat) :
  (d <= fuel)%nat ->
  forall content basePath hosts r,
    parseSSHConfig env d content basePath hosts = Some r ->
    parseSSHConfig env fuel content basePath hosts = Some r.
Proof.
  induction 1 as [|fuel Hle IH]; intros content basePath hosts r Hrun; [exact Hrun|].
  apply parseSSHConfig_step, IH, Hrun.
Qed.

(** A parse that returns has read includes of finite depth only. *)
Lemma loadFiles_returns (parse : string -> string -> Registry -> option Registry)
    (ok : string -> string -> bool) (files : list string) :
  (forall content file hosts hosts',
      parse content file hosts = Some hosts' -> ok content file = true) ->
  forall hosts hosts',
    loadFiles env parse files hosts = Some hosts' -> filesOk env ok files = true.
Proof.
  intro Hparse. induction files as [|file files IH]; intros hosts hosts' Hrun;
    [reflexivity|].
  cbn [loadFiles] in Hrun. cbn [filesOk forallb].
  destruct (readFile env file) as [content|]; [|exact (IH _ _ Hrun)].
  destruct (parse content file hosts) as [hosts1|] eqn:Hp; [|discriminate].
  rewrite (Hparse _ _ _ _ Hp). exact (IH _ _ Hrun).
Qed.

Lemma parseLines_returns (include : string -> Registry -> option Registry)
    (ok : string -> string -> bool) (basePath : string) (lines : list string) :
  (forall includePath hosts hosts',
      include includePath hosts = Some hosts' ->
      filesOk env ok (includeFiles env includePath basePath) = true) ->
  forall st st',
    parseLines env include lines st = Some st' -> linesOk env ok basePath lines = true.
Proof.
  intro Hinc. induction lines as [|raw lines IH]; intros [currentHost hosts] st' Hrun;
    [reflexivity|].
  cbn [parseLines] in Hrun. rewrite parseLine_classify in Hrun.
  cbn [linesOk forallb].
  destruct (classify raw) as [|includePath|value|key value];
    try exact (IH _ _ Hrun).
  destruct (include includePath hosts) as [hosts1|] eqn:Hi; [|discriminate].
  rewrite (Hinc _ _ _ Hi). exact (IH _ _ Hrun).
Qed.

Lemma parseSSHConfig_returns (d : nat) :
  forall content basePath hosts hosts',
    parseSSHConfig env d content basePath hosts = Some hosts' ->
    includeDepth env d content basePath = true.
Proof.
  induction d as [|d IH]; intros content basePath hosts hosts' Hrun; [discriminate|].
  change (parseDocument env (includeAt env d basePath) content hosts = Some hosts')
    in Hrun.
  unfold parseDocument in Hrun. cbn [includeDepth].
  destruct (parseLines env (includeAt env d basePath)
              (JsString.splitChar "010" content) (None, hosts))
    as [st|] eqn:Hlines; [|discriminate].
  apply (parseLines_returns (includeAt env d basePath) (includeDepth env d) basePath
           _) with (st := (@None SSHHost, hosts)) (st' := st); [|exact Hlines].
  intros includePath hosts0 hosts0' Hi. unfold includeAt, handleInclude in Hi.
  exact (loadFiles_returns _ _ _ IH _ _ Hi).
Qed.

End Termination.

(** C2, as the code has it.  The parser keeps no set of visited files; it
    returns exactly when the nesting of Include directives is finite.  For
    every document whose includes, and those of the files they name, are
    nested less than [d] deep, the parse returns a registry, the same for
    every fuel from [d] on; and a parse that returns with fuel [d] has read
    a document whose includes are nested less than [d] deep. *)
Theorem parse_returns_when_includes_are_nested_finitely :
  forall (env : Env) (d : nat) (content basePath : string) (hosts : Registry),
    (includeDepth env d content basePath = true ->
     exists hosts',
       forall fuel, (d <= fuel)%nat ->
         parseSSHConfig env fuel content basePath hosts = Some hosts') /\
    (forall hosts',
        parseSSHConfig env d content basePath hosts = Some hosts' ->
        includeDepth env d content basePath = true).
Proof.
  intros env d content basePath hosts. split.
  - intro Hok.
    destruct (parseSSHConfig_total env d content basePath hosts Hok) as (hosts' & Hrun).
    exists hosts'. intros fuel Hle. now apply (parseSSHConfig_mono env d fuel).
  - intros hosts' Hrun. exact (parseSSHConfig_returns env d _ _ _ _ Hrun).
Qed.

Lemma parse_returns_when_includes_are_nested_finitely_witness :
  includeDepth nestedEnv 3 "Include conf.d/main" "/home/u/.ssh/config" = true /\
  exists hosts',
    forall fuel, (3 <= fuel)%nat ->
      parseSSHConfig nestedEnv fuel "Include conf.d/main" "/home/u/.ssh/config" []
      = Some hosts'.
Proof.
  split; [reflexivity|].
  apply (proj1 (parse_returns_when_includes_are_nested_finitely nestedEnv 3
                  "Include conf.d/main" "/home/u/.ssh/config" [])).
  reflexivity.
Defined.

(** A document that is one Include line is what the handler makes of it. *)
Lemma parseDocument_include (env : Env)
    (include : string -> Registry -> option Registry)
    (content raw includePath : string) (hosts : Registry) :
  JsString.splitChar "010" content = [raw] ->
  classify raw = IncludeOf includePath ->
  parseDocument env include content hosts = include includePath hosts.
Proof.
  intros Hsplit Hraw. unfold parseDocument. rewrite Hsplit.
  cbn [parseLines]. rewrite parseLine_classify, Hraw.
  destruct (include includePath hosts); reflexivity.
Qed.

(** C2, as the specification states it, fails: the primary configuration
    [/home/u/.ssh/config] whose one line is [Include config] names itself,
    nothing skips the second visit, and no amount of fuel lets the load
    return. *)
Lemma self_including_config_never_returns :
  Path.join [homedir selfIncludingEnv; ".ssh"; "config"] = "/home/u/.ssh/config" /\
  readFile selfIncludingEnv "/home/u/.ssh/config" = Some "Include config" /\
  includeFiles selfIncludingEnv "config" "/home/u/.ssh/config"
  = ["/home/u/.ssh/config"] /\
  (forall fuel hosts, loadSSHConfig selfIncludingEnv fuel hosts = None).
Proof.
  split; [reflexivity|]. split; [reflexivity|]. split; [reflexivity|].
  assert (Hloop : forall fuel hosts,
             parseSSHConfig selfIncludingEnv fuel "Include config"
               "/home/u/.ssh/config" hosts = None).
  { induction fuel as [|fuel IH]; intro hosts; [reflexivity|].
    cbn [parseSSHConfig].
    rewrite (parseDocument_include _ _ _ "Include config" "config");
      [|reflexivity|reflexivity].
    unfold handleInclude.
    change (includeFiles selfIncludingEnv "config" "/home/u/.ssh/config")
      with ["/home/u/.ssh/config"].
    cbn [loadFiles].
    change (readFile selfIncludingEnv "/home/u/.ssh/config")
      with (Some "Include config").
    cbv iota beta. now rewrite IH. }
  intros fuel hosts. unfold loadSSHConfig.
  change (Path.join [homedir selfIncludingEnv; ".ssh"; "config"])
    with "/home/u/.ssh/config".
  change (readFile selfIncludingEnv "/home/u/.ssh/config")
    with (Some "Include config").
  apply Hloop.
Qed.

(** ** Which block the registry keeps *)

Section Override.

Variable env : Env.

Lemma declares_classify (alias raw : string) :
  declares alias raw = true -> classify raw = HostOf alias.
Proof.
  unfold declares. destruct (classify raw) as [| |value|]; try discriminate.
  intro H. apply String.eqb_eq in H. now subst.
Qed.

Lemma loadFiles_app (parse : string -> string -> Registry -> option Registry)
    (a b : list string) (hosts : Registry) :
  loadFiles env parse (a ++ b) hosts =
  match loadFiles env parse a hosts with
  | Some hosts' => loadFiles env parse b hosts'
  | None => None
  end.
Proof.
  revert hosts. induction a as [|file a IH]; intro hosts; [reflexivity|].
  cbn [app loadFiles]. destruct (readFile env file) as [content|]; [|apply IH].
  destruct (parse content file hosts); [apply IH|reflexivity].
Qed.

(** Files that leave an alias alone leave its entry alone. *)
Lemma loadFiles_quiet (parse : string -> string -> Registry -> option Registry)
    (quiet : string -> string -> bool) (alias : string) (files : list string) :
  (forall content file hosts hosts',
      quiet content file = true ->
      parse content file hosts = Some hosts' ->
      JsMap.get hosts' alias = JsMap.get hosts alias) ->
  filesOk env quiet files = true ->
  forall hosts hosts',
    loadFiles env parse files hosts = Some hosts' ->
    JsMap.get hosts' alias = JsMap.get hosts alias.
Proof.
  intros Hparse. induction files as [|file files IH]; intros Hok hosts hosts' Hrun.
  - cbn [loadFiles] in Hrun. congruence.
  - cbn [filesOk forallb] in Hok. apply andb_true_iff in Hok as [Hfile Hfiles].
    cbn [loadFiles] in Hrun.
    destruct (readFile env file) as [content|]; [|exact (IH Hfiles _ _ Hrun)].
    destruct (parse content file hosts) as [hosts1|] eqn:Hp; [|discriminate].
    rewrite (IH Hfiles _ _ Hrun). exact (Hparse _ _ _ _ Hfile Hp).
Qed.

Lemma parseSSHConfig_quiet (alias : string) (d : nat) :
  forall content basePath hosts hosts',
    quietAbout env alias d content basePath = true ->
    parseSSHConfig env d content basePath hosts = Some hosts' ->
    JsMap.get hosts' alias = JsMap.get hosts alias.
Proof.
  induction d as [|d IH]; intros content basePath hosts hosts' Hquiet Hrun;
    [discriminate|].
  cbn [quietAbout] in Hquiet.
  change (parseDocument env (includeAt env d basePath) content hosts = Some hosts')
    in Hrun.
  unfold parseDocument in Hrun.
  destruct (parseLines env (includeAt env d basePath)
              (JsString.splitChar "010" content) (None, hosts))
    as [[currentHost hosts1]|] eqn:Hlines; [|discriminate].
  assert (hosts' = commit currentHost hosts1) as -> by congruence.
  destruct (parseLines_frame env (includeAt env d basePath) (quietAbout env alias d)
              basePath alias (JsString.splitChar "010" content))
    with (st := (@None SSHHost, hosts)) (st' := (currentHost, hosts1))
    as [Hpend Hget]; try assumption.
  - intros includePath hosts0 hosts0' Hfiles Hinc. unfold includeAt, handleInclude in Hinc.
    exact (loadFiles_quiet _ _ alias _ IH Hfiles _ _ Hinc).
  - discriminate.
  - pose proof (commit_frame alias (currentHost, hosts1) Hpend) as Hc.
    cbn [fst snd] in Hc, Hget. now rewrite Hc.
Qed.

Lemma includeAt_quiet (alias : string) (d : nat) (basePath : string) :
  forall includePath hosts hosts',
    filesOk env (quietAbout env alias d) (includeFiles env includePath basePath) = true ->
    includeAt env d basePath includePath hosts = Some hosts' ->
    JsMap.get hosts' alias = JsMap.get hosts alias.
Proof.
  intros includePath hosts hosts' Hfiles Hinc. unfold includeAt, handleInclude in Hinc.
  exact (loadFiles_quiet _ _ alias _ (parseSSHConfig_quiet alias d) Hfiles _ _ Hinc).
Qed.

(** The rest of a document after a block has been read: the block is
    committed, and lines that leave its alias alone keep its entry. *)
Lemma parseLines_after_block (d : nat) (basePath alias : string)
    (post : list string) (record : SSHHost) (hosts : Registry) (st' : LoopState) :
  host record = alias ->
  match post with [] => true | raw :: _ => isHostLine raw end = true ->
  leavesAlone env alias d basePath post = true ->
  parseLines env (includeAt env d basePath) post (Some record, hosts) = Some st' ->
  JsMap.get (commit (fst st') (snd st')) alias = Some record.
Proof.
  intros Hhost Hclose Hpost Hrun. destruct post as [|raw post].
  - cbn [parseLines] in Hrun. assert (st' = (Some record, hosts)) as -> by congruence.
    cbn [fst snd commit]. rewrite Hhost. apply get_set_same.
  - unfold leavesAlone in Hpost. cbn [linesQuiet forallb] in Hpost.
    apply andb_true_iff in Hpost as [Hraw Hpost].
    unfold isHostLine in Hclose.
    cbn [parseLines] in Hrun. rewrite parseLine_classify in Hrun.
    destruct (classify raw) as [| |value|]; try discriminate.
    apply negb_true_iff, String.eqb_neq in Hraw.
    destruct (parseLines_frame env (includeAt env d basePath) (quietAbout env alias d)
                basePath alias post (includeAt_quiet alias d basePath) Hpost
                (Some (newHost value), commit (Some record) hosts) st')
      as [Hpend Hget]; [|exact Hrun|].
    + unfold pendingAlias. cbn [fst option_map newHost host]. congruence.
    + rewrite (commit_frame alias st' Hpend), Hget. cbn [snd commit].
      rewrite Hhost. apply get_set_same.
Qed.

(** Of the blocks of one document, the last one for an alias wins. *)
Lemma final_block_wins (d : nat) (content basePath : string) (hosts : Registry)
    (alias : string) (pre : list string) (hostLine : string)
    (body post : list string) :
  includeDepth env (S d) content basePath = true ->
  JsString.splitChar "010" content = (pre ++ hostLine :: body ++ post)%list ->
  isFinalBlock env alias d basePath hostLine body post = true ->
  exists hosts',
    parseSSHConfig env (S d) content basePath hosts = Some hosts'
    /\ JsMap.get hosts' alias = Some (blockRecord env alias body).
Proof.
  intros Hok Hsplit Hblock.
  cbn [includeDepth] in Hok. rewrite Hsplit in Hok.
  unfold isFinalBlock in Hblock.
  apply andb_true_iff in Hblock as [Hblock Hpost].
  apply andb_true_iff in Hblock as [Hblock Hclose].
  apply andb_true_iff in Hblock as [Hdecl Hbody].
  apply declares_classify in Hdecl.
  rewrite linesOk_app in Hok. apply andb_true_iff in Hok as [Hpre Hok].
  change (hostLine :: body ++ post)%list with ([hostLine] ++ body ++ post)%list in Hok.
  rewrite !linesOk_app in Hok.
  apply andb_true_iff in Hok as [_ Hok]. apply andb_true_iff in Hok as [Hbodyok Hpostok].
  destruct (parseLines_total env (includeAt env d basePath) (includeDepth env d)
              basePath pre (None, hosts)) as ([current1 hosts1] & Hrun1);
    [intros; now apply includeAt_total|exact Hpre|].
  destruct (parseLines_total env (includeAt env d basePath) (includeDepth env d)
              basePath body (Some (newHost alias), commit current1 hosts1))
    as ([current2 hosts2] & Hrun2);
    [intros; now apply includeAt_total|exact Hbodyok|].
  pose proof (parseLines_block env _ _ _ _ _ Hbody Hrun2) as Hrecord.
  cbn [fst option_map] in Hrecord. fold (blockRecord env alias body) in Hrecord.
  subst current2.
  destruct (parseLines_total env (includeAt env d basePath) (includeDepth env d)
              basePath post (Some (blockRecord env alias body), hosts2))
    as ([current3 hosts3] & Hrun3);
    [intros; now apply includeAt_total|exact Hpostok|].
  exists (commit current3 hosts3). split.
  - cbn [parseSSHConfig]. unfold parseDocument. rewrite Hsplit.
    fold (includeAt env d basePath).
    rewrite parseLines_app, Hrun1. cbn [parseLines].
    rewrite parseLine_classify, Hdecl.
    rewrite parseLines_app, Hrun2, Hrun3. reflexivity.
  - exact (parseLines_after_block d basePath alias post _ hosts2 (current3, hosts3)
             (host_blockRecord env alias body) Hclose Hpost Hrun3).
Qed.

(** A block of an included file wins over what came before the Include
    line, when the block open at that line is for another alias. *)
Lemma included_block_wins (d : nat) (content basePath : string) (hosts : Registry)
    (alias : string) (pre : list string) (includeLine : string) (post : list string)
    (includePath : string) (before : list string) (file : string)
    (after : list string) (included : string)
    (pre' : list string) (hostLine : string) (body post' : list string) :
  includeDepth env (S d) content basePath = true ->
  JsString.splitChar "010" content = (pre ++ includeLine :: post)%list ->
  classify includeLine = IncludeOf includePath ->
  includeFiles env includePath basePath = (before ++ file :: after)%list ->
  readFile env file = Some included ->
  JsString.splitChar "010" included = (pre' ++ hostLine :: body ++ post')%list ->
  isFinalBlock env alias (pred d) file hostLine body post' = true ->
  filesLeaveAlone env alias d after = true ->
  opensBlockFor alias pre = false ->
  leavesAlone env alias d basePath post = true ->
  exists hosts',
    parseSSHConfig env (S d) content basePath hosts = Some hosts'
    /\ JsMap.get hosts' alias = Some (blockRecord env alias body).
Proof.
  intros Hok Hsplit Hinc Hfiles Hread Hsplit' Hblock Hafter Hopen Hpost.
  cbn [includeDepth] in Hok. rewrite Hsplit in Hok.
  rewrite linesOk_app in Hok. apply andb_true_iff in Hok as [Hpre Hok].
  cbn [linesOk forallb] in Hok. apply andb_true_iff in Hok as [Hline Hpostok].
  rewrite Hinc, Hfiles in Hline. unfold filesOk in Hline.
  rewrite forallb_app in Hline. apply andb_true_iff in Hline as [Hbeforeok Hline].
  cbn [forallb] in Hline. apply andb_true_iff in Hline as [Hfileok Hafterok].
  rewrite Hread in Hfileok.
  destruct (parseLines_total env (includeAt env d basePath) (includeDepth env d)
              basePath pre (None, hosts)) as ([current1 hosts1] & Hrun1);
    [intros; now apply includeAt_total|exact Hpre|].
  destruct (loadFiles_total env (parseSSHConfig env d) (includeDepth env d) before hosts1)
    as (hostsB & HrunB); [intros; now apply parseSSHConfig_total|exact Hbeforeok|].
  destruct d as [|d']; [discriminate|]. cbn [pred] in Hblock.
  destruct (final_block_wins d' included file hostsB alias pre' hostLine body post'
              Hfileok Hsplit' Hblock) as (hosts2 & Hrun2 & Hget2).
  destruct (loadFiles_total env (parseSSHConfig env (S d')) (includeDepth env (S d'))
              after hosts2)
    as (hostsA & HrunA); [intros; now apply parseSSHConfig_total|exact Hafterok|].
  pose proof (loadFiles_quiet _ _ alias _ (parseSSHConfig_quiet alias (S d'))
                Hafter _ _ HrunA) as HgetA.
  assert (Hpend : pendingAlias (current1, hostsA) <> Some alias).
  { pose proof (parseLines_openAlias env _ _ _ _ Hrun1) as Hp.
    unfold pendingAlias in *. cbn [fst option_map] in *.
    rewrite Hp. unfold opensBlockFor, openAlias in Hopen.
    destruct (fold_left _ pre None) as [value|]; [|discriminate].
    intros [= ->]. rewrite String.eqb_refl in Hopen. discriminate. }
  destruct (parseLines_total env (includeAt env (S d') basePath)
              (includeDepth env (S d')) basePath post (current1, hostsA))
    as ([current3 hosts3] & Hrun3);
    [intros; now apply includeAt_total|exact Hpostok|].
  destruct (parseLines_frame env (includeAt env (S d') basePath)
              (quietAbout env alias (S d')) basePath alias post
              (includeAt_quiet alias (S d') basePath) Hpost
              (current1, hostsA) (current3, hosts3) Hpend Hrun3)
    as [Hpend3 Hget3].
  exists (commit current3 hosts3). split.
  - change (parseSSHConfig env (S (S d')) content basePath hosts)
      with (parseDocument env (includeAt env (S d') basePath) content hosts).
    unfold parseDocument. rewrite Hsplit.
    rewrite parseLines_app, Hrun1. cbn [parseLines].
    rewrite parseLine_classify, Hinc.
    unfold includeAt at 1, handleInclude. rewrite Hfiles, loadFiles_app, HrunB.
    cbn [loadFiles]. rewrite Hread, Hrun2, HrunA, Hrun3. reflexivity.
  - pose proof (commit_frame alias (current3, hosts3) Hpend3) as Hc.
    cbn [fst snd] in Hc, Hget3. now rewrite Hc, Hget3, HgetA.
Qed.

End Override.

(** C1, as the code has it.  A parse whose includes are nested finitely
    returns a registry in which the entry of an alias is the complete record
    of one block, never a merge.  It is the record of the later-declared
    block
    - when both blocks are in the same document (whatever the document
      includes before or inside that block), and
    - when the later block is in an included file and the block open at the
      Include line is for another alias (the earlier block was closed by a
      following Host line),
    provided nothing read after that block declares the alias again.  A
    block still open at an Include line is committed after the included
    file, and then its record is the entry. *)
Theorem later_block_replaces_earlier_one_whole :
  forall (env : Env) (d : nat) (content basePath : string) (hosts : Registry)
         (alias : string),
    includeDepth env (S d) content basePath = true ->
    (forall pre hostLine body post,
        JsString.splitChar "010" content = (pre ++ hostLine :: body ++ post)%list ->
        isFinalBlock env alias d basePath hostLine body post = true ->
        exists hosts',
          parseSSHConfig env (S d) content basePath hosts = Some hosts'
          /\ JsMap.get hosts' alias = Some (blockRecord env alias body)) /\
    (forall pre includeLine post includePath before file after included
            pre' hostLine body post',
        JsString.splitChar "010" content = (pre ++ includeLine :: post)%list ->
        classify includeLine = IncludeOf includePath ->
        includeFiles env includePath basePath = (before ++ file :: after)%list ->
        readFile env file = Some included ->
        JsString.splitChar "010" included = (pre' ++ hostLine :: body ++ post')%list ->
        isFinalBlock env alias (pred d) file hostLine body post' = true ->
        filesLeaveAlone env alias d after = true ->
        opensBlockFor alias pre = false ->
        leavesAlone env alias d basePath post = true ->
        exists hosts',
          parseSSHConfig env (S d) content basePath hosts = Some hosts'
          /\ JsMap.get hosts' alias = Some (blockRecord env alias body)).
Proof.
  intros env d content basePath hosts alias Hok. split.
  - intros pre hostLine body post Hsplit Hblock.
    exact (final_block_wins env d content basePath hosts alias pre hostLine body post
             Hok Hsplit Hblock).
  - intros pre includeLine post includePath before file after included
      pre' hostLine body post' Hsplit Hinc Hfiles Hread Hsplit' Hblock Hafter Hopen Hpost.
    exact (included_block_wins env d content basePath hosts alias pre includeLine post
             includePath before file after included pre' hostLine body post'
             Hok Hsplit Hinc Hfiles Hread Hsplit' Hblock Hafter Hopen Hpost).
Qed.

Lemma later_block_replaces_earlier_one_whole_witness :
  (includeDepth closedBlockEnv 1 twoBlocksConfig "/home/u/.ssh/config" = true /\
   exists hosts',
     parseSSHConfig closedBlockEnv 1 twoBlocksConfig "/home/u/.ssh/config" []
     = Some hosts'
     /\ JsMap.get hosts' "web"
        = Some (blockRecord closedBlockEnv "web" ["  HostName second"])) /\
  (includeDepth closedBlockEnv 2
     ("Host web" ++ LF ++ "  HostName first" ++ LF ++ "Host db" ++ LF
        ++ "Include other")
     "/home/u/.ssh/config" = true /\
   exists hosts',
     parseSSHConfig closedBlockEnv 2
       ("Host web" ++ LF ++ "  HostName first" ++ LF ++ "Host db" ++ LF
          ++ "Include other")
       "/home/u/.ssh/config" []
     = Some hosts'
     /\ JsMap.get hosts' "web"
        = Some (blockRecord closedBlockEnv "web" ["  HostName second"; "  User deploy"])).
Proof.
  split.
  - split; [reflexivity|].
    apply (proj1 (later_block_replaces_earlier_one_whole closedBlockEnv 0
                    twoBlocksConfig "/home/u/.ssh/config" [] "web" eq_refl)
             ["Host web"; "  HostName first"; "  User old"] "Host web"
             ["  HostName second"] []);
      reflexivity.
  - split; [reflexivity|].
    apply (proj2 (later_block_replaces_earlier_one_whole closedBlockEnv 1
                    ("Host web" ++ LF ++ "  HostName first" ++ LF ++ "Host db" ++ LF
                       ++ "Include other")
                    "/home/u/.ssh/config" [] "web" eq_refl)
             ["Host web"; "  HostName first"; "Host db"] "Include other" []
             "other" [] "/home/u/.ssh/other" []
             ("Host web" ++ LF ++ "  HostName second" ++ LF ++ "  User deploy")
             [] "Host web" ["  HostName second"; "  User deploy"] []);
      reflexivity.
Defined.

(** C1, as the specification states it, fails across files: the primary
    configuration declares [web], and, with that block still open, includes a
    file that declares [web] again.  The included block is committed first,
    the open block after it: the entry is the record of the earlier-declared
    block. *)
Lemma open_block_overwrites_included_block :
  readFile overrideEnv "/home/u/.ssh/config"
  = Some ("Host web" ++ LF ++ "  HostName first" ++ LF ++ "Include other") /\
  readFile overrideEnv "/home/u/.ssh/other"
  = Some ("Host web" ++ LF ++ "  HostName second" ++ LF ++ "  User deploy") /\
  blockRecord overrideEnv "web" ["  HostName second"; "  User deploy"]
  = mkSSHHost "web" (Some "second") (Some "deploy") None None None [] /\
  loadSSHConfig overrideEnv 2 []
  = Some [("web", mkSSHHost "web" (Some "first") None None None None [])].
Proof. repeat split. Qed.

(** ** Words, lines and their pieces *)

Lemma append_cons (c : ascii) (a b : string) : String c a ++ b = String c (a ++ b).
Proof. reflexivity. Qed.

Lemma isSpace_lowerChar (c : ascii) :
  JsString.isSpace (JsString.lowerChar c) = JsString.isSpace c.
Proof. destruct c as [[] [] [] [] [] [] [] []]; reflexivity. Qed.

Lemma allChars_toLowerCase_nonspace (s : string) :
  allChars (fun c => negb (JsString.isSpace c)) (JsString.toLowerCase s)
  = allChars (fun c => negb (JsString.isSpace c)) s.
Proof.
  induction s as [|c s IH]; simpl; [reflexivity|].
  now rewrite isSpace_lowerChar, IH.
Qed.

Lemma isEmpty_toLowerCase (s : string) :
  JsString.isEmpty (JsString.toLowerCase s) = JsString.isEmpty s.
Proof. destruct s; reflexivity. Qed.

Lemma isWord_toLowerCase (s : string) : isWord (JsString.toLowerCase s) = isWord s.
Proof.
  unfold isWord. now rewrite isEmpty_toLowerCase, allChars_toLowerCase_nonspace.
Qed.

Lemma toLowerCase_append (a b : string) :
  JsString.toLowerCase (a ++ b) = JsString.toLowerCase a ++ JsString.toLowerCase b.
Proof. induction a as [|c a IH]; simpl; [reflexivity|]. now rewrite IH. Qed.

Lemma isEmpty_append (a b : string) :
  JsString.isEmpty (a ++ b) = JsString.isEmpty a && JsString.isEmpty b.
Proof. destruct a; reflexivity. Qed.

Lemma isEmpty_true (s : string) : JsString.isEmpty s = true -> s = "".
Proof. destruct s; [reflexivity|discriminate]. Qed.

Lemma isWord_parts (s : string) :
  isWord s = true ->
  JsString.isEmpty s = false /\ allChars (fun c => negb (JsString.isSpace c)) s = true.
Proof.
  unfold isWord. rewrite andb_true_iff, negb_true_iff. auto.
Qed.

(** [trim] leaves alone a text that starts and ends with a word. *)
Lemma trimStart_word_append (w rest : string) :
  isWord w = true -> JsString.trimStart (w ++ rest) = w ++ rest.
Proof.
  intro Hw. apply isWord_parts in Hw as [Hne Hall].
  destruct w as [|c w]; [discriminate|]. simpl in *.
  apply andb_true_iff in Hall as [Hc _]. apply negb_true_iff in Hc.
  now rewrite Hc.
Qed.

Lemma trimEnd_nonspace (s : string) :
  allChars (fun c => negb (JsString.isSpace c)) s = true -> JsString.trimEnd s = s.
Proof.
  induction s as [|c s IH]; simpl; [reflexivity|].
  rewrite andb_true_iff, negb_true_iff. intros [Hc Hs].
  now rewrite Hc, IH.
Qed.

Lemma trimEnd_append (a b : string) :
  JsString.isEmpty (JsString.trimEnd b) = false ->
  JsString.trimEnd (a ++ b) = a ++ JsString.trimEnd b.
Proof.
  intro Hb. induction a as [|c a IH]; simpl; [reflexivity|].
  rewrite IH, isEmpty_append, Hb, andb_false_r, andb_false_r. reflexivity.
Qed.

Lemma trimEnd_append_word (a w : string) :
  isWord w = true -> JsString.trimEnd (a ++ w) = a ++ w.
Proof.
  intro Hw. apply isWord_parts in Hw as [Hne Hall].
  rewrite trimEnd_append; rewrite (trimEnd_nonspace w Hall); [reflexivity|exact Hne].
Qed.

Lemma trim_word (w : string) : isWord w = true -> JsString.trim w = w.
Proof.
  intro Hw. unfold JsString.trim.
  rewrite <- (append_nil_r w) at 1. rewrite (trimStart_word_append w "" Hw).
  rewrite append_nil_r. apply trimEnd_nonspace. now apply isWord_parts.
Qed.

(** A list of words joined by single spaces. *)
Lemma join_cons (sep p : string) (ps : list string) :
  ps <> [] -> JsString.join sep (p :: ps) = p ++ sep ++ JsString.join sep ps.
Proof. destruct ps; [congruence|reflexivity]. Qed.

Lemma join_words_end (words : list string) :
  words <> [] -> forallb isWord words = true ->
  JsString.isEmpty (JsString.trimEnd (JsString.join " " words)) = false
  /\ JsString.trimEnd (JsString.join " " words) = JsString.join " " words.
Proof.
  induction words as [|w words IH]; [congruence|]. intros _ Hall.
  cbn [forallb] in Hall. apply andb_true_iff in Hall as [Hw Hwords].
  destruct words as [|w' words].
  - simpl. apply isWord_parts in Hw as [Hne Hns].
    rewrite (trimEnd_nonspace w Hns). auto.
  - destruct IH as [Hne Heq]; [discriminate|exact Hwords|].
    rewrite join_cons by discriminate.
    rewrite <- append_assoc, trimEnd_append by exact Hne.
    rewrite Heq. split; [|reflexivity].
    rewrite isEmpty_append, isEmpty_append.
    apply isWord_parts in Hw as [-> _]. reflexivity.
Qed.

Lemma trim_join_words (words : list string) :
  words <> [] -> forallb isWord words = true ->
  JsString.trim (JsString.join " " words) = JsString.join " " words.
Proof.
  intros Hne Hall. unfold JsString.trim.
  assert (Hstart : JsString.trimStart (JsString.join " " words)
                   = JsString.join " " words).
  { destruct words as [|w words]; [congruence|].
    cbn [forallb] in Hall. apply andb_true_iff in Hall as [Hw _].
    destruct words as [|w' words].
    - simpl. rewrite <- (append_nil_r w). now apply trimStart_word_append.
    - rewrite join_cons by discriminate. now apply trimStart_word_append. }
  rewrite Hstart. now apply join_words_end.
Qed.

(** [split(/\s+/)] gives the words back. *)
Lemma splitSpacesFrom_nonempty (inRun : bool) (s : string) :
  JsString.splitSpacesFrom inRun s <> [].
Proof.
  revert inRun. induction s as [|c s IH]; intro inRun; simpl; [discriminate|].
  destruct (JsString.isSpace c).
  - destruct inRun; [apply IH|discriminate].
  - specialize (IH false). destruct (JsString.splitSpacesFrom false s);
      [congruence|discriminate].
Qed.

Lemma splitSpacesFrom_word (inRun : bool) (w rest : string) :
  isWord w = true ->
  JsString.splitSpacesFrom inRun (w ++ rest)
  = prependHead w (JsString.splitSpacesFrom false rest).
Proof.
  intro Hw. apply isWord_parts in Hw as [Hne Hall].
  destruct w as [|c w]; [discriminate|]. clear Hne.
  revert c inRun Hall. induction w as [|d w IH]; intros c inRun Hall.
  - simpl in *. rewrite andb_true_r in Hall. apply negb_true_iff in Hall.
    rewrite Hall. pose proof (splitSpacesFrom_nonempty false rest) as Hn.
    destruct (JsString.splitSpacesFrom false rest); [congruence|reflexivity].
  - cbn [allChars] in Hall. apply andb_true_iff in Hall as [Hc Hall].
    apply negb_true_iff in Hc.
    rewrite append_cons. cbn [JsString.splitSpacesFrom]. rewrite Hc.
    rewrite (IH d false Hall).
    pose proof (splitSpacesFrom_nonempty false rest) as Hn.
    destruct (JsString.splitSpacesFrom false rest); [congruence|reflexivity].
Qed.

Lemma splitSpacesFrom_join_words (words : list string) (inRun : bool) :
  words <> [] -> forallb isWord words = true ->
  JsString.splitSpacesFrom inRun (JsString.join " " words) = words.
Proof.
  revert inRun.
  induction words as [|w words IH]; [congruence|]. intros inRun _ Hall.
  cbn [forallb] in Hall. apply andb_true_iff in Hall as [Hw Hwords].
  destruct words as [|w' words].
  - cbn [JsString.join]. rewrite <- (append_nil_r w) at 1.
    rewrite (splitSpacesFrom_word inRun w "" Hw). simpl. now rewrite append_nil_r.
  - rewrite join_cons by discriminate.
    rewrite (splitSpacesFrom_word inRun w _ Hw).
    change (" " ++ JsString.join " " (w' :: words))
      with (String " " (JsString.join " " (w' :: words))).
    cbn [JsString.splitSpacesFrom]. change (JsString.isSpace " ") with true.
    cbv iota. rewrite (IH true) by (discriminate || exact Hwords).
    simpl. now rewrite append_nil_r.
Qed.

Lemma splitSpaces_join_words (words : list string) :
  words <> [] -> forallb isWord words = true ->
  JsString.splitSpaces (JsString.join " " words) = words.
Proof. apply splitSpacesFrom_join_words. Qed.

(** A text with no line feed is one line. *)
Lemma splitChar_none (sep : ascii) (s : string) :
  allChars (fun c => negb (Ascii.eqb c sep)) s = true ->
  JsString.splitChar sep s = [s].
Proof.
  induction s as [|c s IH]; simpl; [reflexivity|].
  rewrite andb_true_iff, negb_true_iff. intros [Hc Hs].
  now rewrite Hc, IH.
Qed.

Lemma word_has_no_line_feed (s : string) :
  allChars (fun c => negb (JsString.isSpace c)) s = true ->
  allChars (fun c => negb (Ascii.eqb c "010")) s = true.
Proof.
  apply allChars_impl. intros c Hc.
  destruct (Ascii.eqb_spec c "010") as [->|]; [discriminate|reflexivity].
Qed.

Lemma prefix_nil (s : string) : String.prefix "" s = true.
Proof. now destruct s. Qed.

Lemma prefix_cons (a b : ascii) (s1 s2 : string) :
  String.prefix (String a s1) (String b s2) = Ascii.eqb a b && String.prefix s1 s2.
Proof.
  change (String.prefix (String a s1) (String b s2))
    with (match ascii_dec a b with
          | left _ => String.prefix s1 s2
          | right _ => false
          end).
  destruct (ascii_dec a b) as [->|Hab].
  - now rewrite Ascii.eqb_refl.
  - destruct (Ascii.eqb_spec a b); [contradiction|reflexivity].
Qed.

Lemma prefix_word_space (p w rest : string) :
  allChars (fun c => negb (JsString.isSpace c)) p = true ->
  allChars (fun c => negb (JsString.isSpace c)) w = true ->
  String.prefix (p ++ " ") (w ++ " " ++ rest) = String.eqb p w.
Proof.
  revert w. induction p as [|c p IH]; intros [|d w] Hp Hw;
    cbn [append allChars] in *; rewrite prefix_cons; cbn [String.eqb].
  - rewrite prefix_nil. reflexivity.
  - apply andb_true_iff in Hw as [Hd _].
    destruct (Ascii.eqb_spec " " d) as [<-|]; [discriminate|reflexivity].
  - apply andb_true_iff in Hp as [Hc _].
    destruct (Ascii.eqb_spec c " ") as [->|]; [discriminate|reflexivity].
  - apply andb_true_iff in Hp as [_ Hp]. apply andb_true_iff in Hw as [_ Hw].
    rewrite (IH w Hp Hw). now destruct (Ascii.eqb c d).
Qed.

Lemma lowerChar_hash (c : ascii) :
  Ascii.eqb (JsString.lowerChar c) "#" = Ascii.eqb c "#".
Proof. destruct c as [[] [] [] [] [] [] [] []]; reflexivity. Qed.

Lemma startsWith_hash_toLowerCase (s : string) :
  JsString.startsWith (JsString.toLowerCase s) "#" = JsString.startsWith s "#".
Proof.
  destruct s as [|c s]; [reflexivity|]. unfold JsString.startsWith.
  cbn [JsString.toLowerCase]. rewrite !prefix_cons, !prefix_nil.
  now rewrite !(Ascii.eqb_sym "#"), lowerChar_hash.
Qed.

Lemma startsWith_append_first (w rest : string) (p : ascii) :
  JsString.isEmpty w = false ->
  JsString.startsWith (w ++ rest) (String p "") = JsString.startsWith w (String p "").
Proof.
  destruct w as [|c w]; [discriminate|]. intros _. unfold JsString.startsWith.
  cbn [append]. now rewrite !prefix_cons, !prefix_nil.
Qed.

(** A line that is a key and words after it, a space between each two. *)
Lemma classify_key_values (key : string) (values : list string) :
  isWord key = true ->
  forallb isWord values = true ->
  values <> [] ->
  JsString.startsWith (JsString.toLowerCase key) "#" = false ->
  String.eqb (JsString.toLowerCase key) "include" = false ->
  classify (JsString.join " " (key :: values))
  = if String.eqb (JsString.toLowerCase key) "host"
    then HostOf (JsString.join " " values)
    else PropertyOf key (JsString.join " " values).
Proof.
  intros Hkey Hvalues Hne Hhash Hinc.
  assert (Hall : forallb isWord (key :: values) = true)
    by (cbn [forallb]; now rewrite Hkey, Hvalues).
  unfold classify.
  rewrite (trim_join_words (key :: values)) by (discriminate || exact Hall).
  rewrite (splitSpaces_join_words (key :: values)) by (discriminate || exact Hall).
  rewrite join_cons by exact Hne.
  destruct (isWord_parts key Hkey) as [Hkne Hkns].
  rewrite isEmpty_append, Hkne. cbn [andb orb].
  rewrite startsWith_append_first by exact Hkne.
  rewrite <- startsWith_hash_toLowerCase, Hhash.
  rewrite toLowerCase_append. unfold JsString.startsWith.
  change (JsString.toLowerCase (" " ++ JsString.join " " values))
    with (" " ++ JsString.toLowerCase (JsString.join " " values)).
  change "include " with ("include" ++ " ").
  rewrite prefix_word_space;
    [|reflexivity|now rewrite allChars_toLowerCase_nonspace].
  rewrite String.eqb_sym, Hinc. reflexivity.
Qed.

(** A block body with no Include changes the open record only. *)
Lemma parseLines_plain (env : Env) (include : string -> Registry -> option Registry)
    (body : list string) (currentHost : option SSHHost) (hosts : Registry) :
  isPlainBody body = true ->
  parseLines env include body (currentHost, hosts)
  = Some (option_map (fold_left (fun h raw => applyLine env raw h) body) currentHost,
          hosts).
Proof.
  revert currentHost. induction body as [|raw body IH]; intros currentHost Hbody.
  - simpl. now destruct currentHost.
  - cbn [isPlainBody forallb] in Hbody. apply andb_true_iff in Hbody as [Hraw Hbody].
    apply andb_true_iff in Hraw as [Hhost Hinc].
    unfold isHostLine in Hhost. unfold isIncludeLine in Hinc.
    cbn [parseLines]. rewrite parseLine_classify.
    assert (Hstep : forall h,
               fold_left (fun h raw => applyLine env raw h) (raw :: body) h
               = fold_left (fun h raw => applyLine env raw h) body
                   (match classify raw with
                    | PropertyOf key value => applyProperty env key value h
                    | _ => h
                    end)) by reflexivity.
    destruct (classify raw) as [|includePath|value|key value]; try discriminate.
    + rewrite (IH _ Hbody).
      destruct currentHost; cbn [option_map]; [now rewrite Hstep|reflexivity].
    + rewrite (IH _ Hbody).
      destruct currentHost; cbn [option_map]; [now rewrite Hstep|reflexivity].
Qed.

Lemma includesChar_append (c : ascii) (a b : string) :
  JsString.includesChar c (a ++ b)
  = JsString.includesChar c a || JsString.includesChar c b.
Proof.
  induction a as [|d a IH]; simpl; [reflexivity|]. rewrite IH. apply orb_assoc.
Qed.

Lemma word_has_no_space (w : string) :
  isWord w = true -> JsString.includesChar " " w = false.
Proof.
  intro Hw. apply isWord_parts in Hw as [_ Hall].
  rewrite includesChar_allChars. apply negb_false_iff.
  revert Hall. apply allChars_impl. intros c Hc.
  destruct (Ascii.eqb_spec c " ") as [->|]; [discriminate|reflexivity].
Qed.

(** Two words or more, joined, are none of the words. *)
Lemma joined_words_differ_from_each (first second : string) (others : list string)
    (token : string) :
  isWord token = true ->
  String.eqb (JsString.join " " (first :: second :: others)) token = false.
Proof.
  intro Htoken. apply String.eqb_neq. intro Heq.
  apply word_has_no_space in Htoken. rewrite <- Heq in Htoken.
  rewrite join_cons in Htoken by discriminate.
  rewrite !includesChar_append in Htoken. simpl in Htoken.
  rewrite orb_true_r in Htoken. discriminate.
Qed.

Lemma forallb_In {A} (p : A -> bool) (l : list A) (x : A) :
  forallb p l = true -> In x l -> p x = true.
Proof. intros H Hx. rewrite forallb_forall in H. now apply H. Qed.



(** ** Port lines *)

Lemma parseInt_no_integer (c : ascii) (rest : string) :
  startsNoInteger c = true -> JsNum.parseInt (String c rest) = JsNaN.
Proof.
  destruct c as [[] [] [] [] [] [] [] []]; intro H; try discriminate H; reflexivity.
Qed.

Section PortFacts.

Variable env : Env.

Lemma erasePort_setProperty (key value : string) (h : SSHHost) :
  erasePort (setProperty env key value h)
  = erasePort (setProperty env key value (erasePort h)).
Proof.
  unfold setProperty, setExtra.
  repeat match goal with |- context [if ?b then _ else _] => destruct b end;
    reflexivity.
Qed.

Lemma erasePort_applyProperty (key value : string) (h1 h2 : SSHHost) :
  erasePort h1 = erasePort h2 ->
  erasePort (applyProperty env key value h1)
  = erasePort (applyProperty env key value h2).
Proof.
  intro H. unfold applyProperty.
  destruct (negb (JsString.isEmpty key) && negb (JsString.isEmpty value));
    [|exact H].
  rewrite (erasePort_setProperty key value h1), (erasePort_setProperty key value h2).
  now rewrite H.
Qed.

Lemma erasePorts_set (k : string) (h : SSHHost) (hosts : Registry) :
  erasePorts (JsMap.set k h hosts) = JsMap.set k (erasePort h) (erasePorts hosts).
Proof.
  induction hosts as [|[k' h'] hosts IH]; simpl; [reflexivity|].
  destruct (String.eqb k' k); simpl; [reflexivity|]. now rewrite IH.
Qed.

Lemma erasePorts_commit (current1 current2 : option SSHHost)
    (hosts1 hosts2 : Registry) :
  option_map erasePort current1 = option_map erasePort current2 ->
  erasePorts hosts1 = erasePorts hosts2 ->
  erasePorts (commit current1 hosts1) = erasePorts (commit current2 hosts2).
Proof.
  intros Hc Hh. destruct current1 as [h1|], current2 as [h2|];
    try discriminate; cbn [commit]; [|exact Hh].
  assert (He : erasePort h1 = erasePort h2) by (cbn [option_map] in Hc; congruence).
  assert (Hhost : host h1 = host h2)
    by (change (host (erasePort h1) = host (erasePort h2)); now rewrite He).
  now rewrite !erasePorts_set, Hh, He, Hhost.
Qed.

Lemma parseLine_erased (include : string -> Registry -> option Registry)
    (raw : string) (st1 st2 : LoopState) :
  blindToPorts include ->
  eraseState st1 = eraseState st2 ->
  option_map eraseState (parseLine env include raw st1)
  = option_map eraseState (parseLine env include raw st2).
Proof.
  intros Hblind Hst. destruct st1 as [current1 hosts1], st2 as [current2 hosts2].
  unfold eraseState in Hst. cbn [fst snd] in Hst. injection Hst as Hc Hh.
  rewrite !parseLine_classify.
  destruct (classify raw) as [|includePath|value|key value].
  - unfold eraseState. simpl. now rewrite Hc, Hh.
  - specialize (Hblind includePath hosts1 hosts2 Hh).
    destruct (include includePath hosts1), (include includePath hosts2);
      try discriminate; [|reflexivity].
    unfold eraseState. cbn [option_map fst snd] in *.
    assert (Hr : erasePorts r = erasePorts r0) by congruence.
    now rewrite Hc, Hr.
  - unfold eraseState. simpl. now rewrite (erasePorts_commit _ _ _ _ Hc Hh).
  - unfold eraseState. simpl. rewrite Hh. do 2 f_equal.
    destruct current1 as [h1|], current2 as [h2|]; try discriminate;
      [|reflexivity].
    cbn [option_map] in *. f_equal.
    apply erasePort_applyProperty. congruence.
Qed.

Lemma parseLines_erased (include : string -> Registry -> option Registry)
    (lines : list string) (st1 st2 : LoopState) :
  blindToPorts include ->
  eraseState st1 = eraseState st2 ->
  option_map eraseState (parseLines env include lines st1)
  = option_map eraseState (parseLines env include lines st2).
Proof.
  intro Hblind. revert st1 st2.
  induction lines as [|raw lines IH]; intros st1 st2 Hst.
  - simpl. now rewrite Hst.
  - cbn [parseLines].
    pose proof (parseLine_erased include raw st1 st2 Hblind Hst) as Hstep.
    destruct (parseLine env include raw st1) as [st1'|],
             (parseLine env include raw st2) as [st2'|];
      try discriminate; [|reflexivity].
    apply IH. cbn [option_map] in Hstep. congruence.
Qed.

Lemma loadFiles_erased (parse : string -> string -> Registry -> option Registry)
    (files : list string) :
  (forall content file, blindToPorts (fun _ => parse content file)) ->
  forall hosts1 hosts2,
    erasePorts hosts1 = erasePorts hosts2 ->
    option_map erasePorts (loadFiles env parse files hosts1)
    = option_map erasePorts (loadFiles env parse files hosts2).
Proof.
  intro Hparse. induction files as [|file files IH]; intros hosts1 hosts2 Hh.
  - simpl. now rewrite Hh.
  - cbn [loadFiles]. destruct (readFile env file) as [content|]; [|now apply IH].
    pose proof (Hparse content file "" hosts1 hosts2 Hh) as Hstep. cbv beta in Hstep.
    destruct (parse content file hosts1), (parse content file hosts2);
      try discriminate; [|reflexivity].
    apply IH. cbn [option_map] in Hstep. congruence.
Qed.

Lemma parseDocument_erased (include : string -> Registry -> option Registry)
    (lines1 lines2 : list string) (hosts1 hosts2 : Registry) :
  option_map eraseState (parseLines env include lines1 (None, hosts1))
  = option_map eraseState (parseLines env include lines2 (None, hosts2)) ->
  option_map erasePorts
    (match parseLines env include lines1 (None, hosts1) with
     | Some (currentHost, hosts') => Some (commit currentHost hosts')
     | None => None
     end)
  = option_map erasePorts
      (match parseLines env include lines2 (None, hosts2) with
       | Some (currentHost, hosts') => Some (commit currentHost hosts')
       | None => None
       end).
Proof.
  destruct (parseLines env include lines1 (None, hosts1)) as [[c1 h1]|],
           (parseLines env include lines2 (None, hosts2)) as [[c2 h2]|];
    intro H; try discriminate; [|reflexivity].
  unfold eraseState in H. simpl in H. injection H as Hc Hh. simpl.
  now rewrite (erasePorts_commit _ _ _ _ Hc Hh).
Qed.

Lemma parseSSHConfig_erased (fuel : nat) :
  forall content basePath, blindToPorts (fun _ => parseSSHConfig env fuel content basePath).
Proof.
  induction fuel as [|fuel IH]; intros content basePath dummy hosts1 hosts2 Hh;
    [reflexivity|].
  cbn [parseSSHConfig]. unfold parseDocument.
  apply parseDocument_erased, parseLines_erased.
  - intros includePath h1 h2 Hh'. unfold handleInclude.
    now apply loadFiles_erased.
  - unfold eraseState. simpl. now rewrite Hh.
Qed.

Lemma includeAt_blind (d : nat) (basePath : string) :
  blindToPorts (includeAt env d basePath).
Proof.
  intros includePath h1 h2 Hh. unfold includeAt, handleInclude.
  apply loadFiles_erased; [|exact Hh].
  intros content file. apply parseSSHConfig_erased.
Qed.

(** A Port line changes the [port] of the open block and nothing else. *)
Lemma port_line_erased (include : string -> Registry -> option Registry)
    (raw key value : string) (st : LoopState) :
  classify raw = PropertyOf key value ->
  JsString.toLowerCase key = "port" ->
  option_map eraseState (parseLine env include raw st) = Some (eraseState st).
Proof.
  intros Hraw Hkey. destruct st as [currentHost hosts].
  rewrite parseLine_classify, Hraw. unfold eraseState. simpl. do 2 f_equal.
  destruct currentHost as [h|]; [|reflexivity]. simpl. f_equal.
  unfold applyProperty.
  destruct (negb (JsString.isEmpty key) && negb (JsString.isEmpty value));
    [|reflexivity].
  unfold setProperty. rewrite Hkey. reflexivity.
Qed.

(** Taking a Port line out of a document changes ports only. *)
Lemma without_port_line (fuel : nat) (content content' basePath : string)
    (hosts : Registry) (pre post : list string) (raw key value : string) :
  classify raw = PropertyOf key value ->
  JsString.toLowerCase key = "port" ->
  JsString.splitChar "010" content = (pre ++ raw :: post)%list ->
  JsString.splitChar "010" content' = (pre ++ post)%list ->
  option_map erasePorts (parseSSHConfig env fuel content basePath hosts)
  = option_map erasePorts (parseSSHConfig env fuel content' basePath hosts).
Proof.
  intros Hraw Hkey Hsplit Hsplit'. destruct fuel as [|fuel]; [reflexivity|].
  cbn [parseSSHConfig]. unfold parseDocument. rewrite Hsplit, Hsplit'.
  fold (includeAt env fuel basePath).
  apply parseDocument_erased. rewrite !parseLines_app.
  destruct (parseLines env (includeAt env fuel basePath) pre (None, hosts))
    as [st|]; [|reflexivity].
  cbn [parseLines].
  pose proof (port_line_erased (includeAt env fuel basePath) raw key value st
                Hraw Hkey) as Hstep.
  destruct (parseLine env (includeAt env fuel basePath) raw st) as [st'|];
    [|discriminate].
  apply parseLines_erased; [apply includeAt_blind|].
  cbn [option_map] in Hstep. congruence.
Qed.

End PortFacts.




(** ** Paths *)

Lemma splitChar_nonempty (sep : ascii) (s : string) : JsString.splitChar sep s <> [].
Proof.
  induction s as [|c s IH]; simpl; [discriminate|].
  destruct (Ascii.eqb c sep); [discriminate|].
  destruct (JsString.splitChar sep s); [congruence|discriminate].
Qed.

Lemma consHead_app (c : ascii) (l l' : list string) :
  l <> [] -> JsString.consHead c (l ++ l')%list = (JsString.consHead c l ++ l')%list.
Proof. destruct l; [congruence|reflexivity]. Qed.

(** Splitting at a separator splits the two sides. *)
Lemma splitChar_append_sep (sep : ascii) (a b : string) :
  JsString.splitChar sep (a ++ String sep b)
  = (JsString.splitChar sep a ++ JsString.splitChar sep b)%list.
Proof.
  induction a as [|c a IH]; cbn [append JsString.splitChar].
  - now rewrite Ascii.eqb_refl.
  - destruct (Ascii.eqb c sep).
    + now rewrite IH.
    + rewrite IH. apply consHead_app, splitChar_nonempty.
Qed.

Lemma splitChar_join (sep : ascii) (segments : list string) :
  segments <> [] ->
  forallb (allChars (fun c => negb (Ascii.eqb c sep))) segments = true ->
  JsString.splitChar sep (JsString.join (String sep "") segments) = segments.
Proof.
  induction segments as [|s segments IH]; [congruence|]. intros _ Hall.
  cbn [forallb] in Hall. apply andb_true_iff in Hall as [Hs Hall].
  destruct segments as [|s' segments].
  - cbn [JsString.join]. now apply splitChar_none.
  - rewrite join_cons by discriminate. cbn [append].
    rewrite splitChar_append_sep, (splitChar_none sep s Hs).
    rewrite IH by (discriminate || exact Hall). reflexivity.
Qed.

Lemma allChars_join (p : ascii -> bool) (sep : string) (segments : list string) :
  allChars p sep = true ->
  forallb (allChars p) segments = true ->
  allChars p (JsString.join sep segments) = true.
Proof.
  intros Hsep. induction segments as [|s segments IH]; [reflexivity|]. intro Hall.
  cbn [forallb] in Hall. apply andb_true_iff in Hall as [Hs Hall].
  destruct segments as [|s' segments]; [exact Hs|].
  rewrite join_cons by discriminate.
  now rewrite !allChars_append, Hs, Hsep, IH.
Qed.

Lemma join_snoc (sep : string) (segments : list string) (last : string) :
  JsString.join sep (segments ++ [last])
  = match segments with
    | [] => last
    | _ => JsString.join sep segments ++ sep ++ last
    end.
Proof.
  induction segments as [|s segments IH]; [reflexivity|].
  cbn [app]. rewrite join_cons by (destruct segments; simpl; discriminate).
  rewrite IH. destruct segments as [|s' segments]; [reflexivity|].
  rewrite (join_cons sep s (s' :: segments)) by discriminate.
  now rewrite !append_assoc.
Qed.

Lemma isEmpty_join (sep : string) (segments : list string) :
  segments <> [] -> forallb (fun s => negb (JsString.isEmpty s)) segments = true ->
  JsString.isEmpty (JsString.join sep segments) = false.
Proof.
  destruct segments as [|s segments]; [congruence|]. intros _ Hall.
  cbn [forallb] in Hall. apply andb_true_iff in Hall as [Hs _].
  apply negb_true_iff in Hs.
  destruct segments; [exact Hs|].
  rewrite join_cons by discriminate. now rewrite isEmpty_append, Hs.
Qed.

Lemma endsWithSlash_append (a b : string) :
  JsString.isEmpty b = false ->
  Path.endsWithSlash (a ++ b) = Path.endsWithSlash b.
Proof.
  intro Hb. induction a as [|c a IH]; [reflexivity|].
  cbn [append Path.endsWithSlash]. rewrite IH.
  destruct (a ++ b) eqn:E; [|reflexivity].
  destruct a; [|discriminate]. simpl in E. subst. discriminate.
Qed.

Lemma endsWithSlash_none (s : string) :
  allChars (fun c => negb (Ascii.eqb c "/")) s = true -> Path.endsWithSlash s = false.
Proof.
  induction s as [|c s IH]; [reflexivity|]. cbn [allChars Path.endsWithSlash].
  rewrite andb_true_iff, negb_true_iff. intros [Hc Hs].
  destruct s; [exact Hc|now apply IH].
Qed.

Lemma replaceFirstChar_none (c : ascii) (by_ s : string) :
  allChars (fun d => negb (Ascii.eqb d c)) s = true ->
  JsString.replaceFirstChar c by_ s = s.
Proof.
  induction s as [|d s IH]; [reflexivity|]. cbn [allChars JsString.replaceFirstChar].
  rewrite andb_true_iff, negb_true_iff. intros [Hd Hs]. now rewrite Hd, IH.
Qed.

(** What names and plain segments are made of. *)
Lemma isPathName_parts (s : string) :
  isPathName s = true ->
  JsString.isEmpty s = false
  /\ allChars (fun c => negb (Ascii.eqb c "/")) s = true
  /\ String.eqb s "" = false /\ String.eqb s "." = false /\ String.eqb s ".." = false.
Proof.
  unfold isPathName. rewrite !andb_true_iff, !negb_true_iff.
  intros [[[Hne Hc] Hdot] Hdots]. repeat split; try assumption.
  now destruct s.
Qed.

Lemma isPlainSegment_parts (s : string) :
  isPlainSegment s = true ->
  isPathName s = true /\ isWord s = true
  /\ allChars (fun c => negb (Ascii.eqb c "~")) s = true
  /\ allChars (fun c => negb (Ascii.eqb c "*")) s = true.
Proof.
  unfold isPlainSegment. rewrite !andb_true_iff.
  intros [[Hn Hw] Hc]. repeat split; try assumption.
  - revert Hc. apply allChars_impl. intro c. now destruct (Ascii.eqb c "~").
  - revert Hc. apply allChars_impl. intro c.
    destruct (Ascii.eqb c "~"), (Ascii.eqb c "*"); auto.
Qed.

Lemma forallb_impl {A} (p q : A -> bool) (l : list A) :
  (forall x, p x = true -> q x = true) ->
  forallb p l = true -> forallb q l = true.
Proof.
  intros Hpq H. rewrite forallb_forall in *. auto.
Qed.

Lemma plain_are_names (segments : list string) :
  forallb isPlainSegment segments = true -> forallb isPathName segments = true.
Proof. apply forallb_impl. intros s Hs. apply isPlainSegment_parts, Hs. Qed.

Lemma names_no_slash (segments : list string) :
  forallb isPathName segments = true ->
  forallb (allChars (fun c => negb (Ascii.eqb c "/"))) segments = true.
Proof. apply forallb_impl. intros s Hs. apply isPathName_parts, Hs. Qed.

Lemma names_not_empty (segments : list string) :
  forallb isPathName segments = true ->
  forallb (fun s => negb (JsString.isEmpty s)) segments = true.
Proof.
  apply forallb_impl. intros s Hs.
  destruct (isPathName_parts s Hs) as (-> & _). reflexivity.
Qed.

(** Names are pushed as they come. *)
Lemma normalizeSegments_names (allowAboveRoot : bool) (segments stack rest : list string) :
  forallb isPathName segments = true ->
  Path.normalizeSegments allowAboveRoot stack (segments ++ rest)
  = Path.normalizeSegments allowAboveRoot (rev segments ++ stack) rest.
Proof.
  revert stack. induction segments as [|s segments IH]; intros stack Hall;
    [reflexivity|].
  cbn [forallb] in Hall. apply andb_true_iff in Hall as [Hs Hall].
  destruct (isPathName_parts s Hs) as (_ & _ & He & Hd & Hdd).
  cbn [app Path.normalizeSegments rev]. rewrite He, Hd, Hdd. cbn [orb].
  rewrite (IH (s :: stack) Hall), <- app_assoc. reflexivity.
Qed.

Lemma isAbsolute_slash (s : string) : Path.isAbsolute (String "/" s) = true.
Proof.
  unfold Path.isAbsolute, JsString.startsWith. now rewrite prefix_cons, prefix_nil.
Qed.

Lemma normalize_absolute (segments : list string) (p : string) :
  JsString.splitChar "/" p = segments ->
  Path.endsWithSlash (String "/" p) = false ->
  Path.normalize (String "/" p)
  = match Path.normalizeSegments false [] segments with
    | [] => "/"
    | kept => absolutePath kept
    end.
Proof.
  intros Hsplit Hend. unfold Path.normalize. cbn [JsString.isEmpty].
  rewrite isAbsolute_slash, Hend. cbn [negb JsString.splitChar].
  rewrite Ascii.eqb_refl, Hsplit. cbn [Path.normalizeSegments String.eqb orb].
  destruct (Path.normalizeSegments false [] segments) as [|s kept] eqn:Hk;
    [reflexivity|].
  destruct (JsString.isEmpty (JsString.join "/" (s :: kept))) eqn:He.
  - apply isEmpty_true in He. unfold absolutePath. now rewrite He.
  - unfold absolutePath. now rewrite append_nil_r.
Qed.

Section IncludePaths.

Variable dirs : list string.
Variable file : string.
Hypothesis Hdirs : forallb isPathName dirs = true.
Hypothesis Hfile : isPathName file = true.

(** [join(basePath, '..')] is the directory that holds [basePath]. *)
Lemma join_parent :
  Path.join [absolutePath (dirs ++ [file]); ".."] = directoryPath dirs.
Proof.
  unfold Path.join. cbn [filter JsString.isEmpty negb absolutePath append].
  cbn [JsString.join].
  change (String "/" (JsString.join "/" (dirs ++ [file])) ++ "/" ++ "..")
    with (String "/" (JsString.join "/" (dirs ++ [file]) ++ String "/" "..")).
  rewrite (normalize_absolute ((dirs ++ [file]) ++ [".."])%list).
  - rewrite <- app_assoc.
    rewrite (normalizeSegments_names false dirs [] _ Hdirs).
    cbn [app Path.normalizeSegments].
    destruct (isPathName_parts file Hfile) as (_ & _ & He & Hd & Hdd).
    rewrite He, Hd, Hdd. cbn [orb String.eqb Ascii.eqb Bool.eqb].
    rewrite app_nil_r, rev_involutive. now destruct dirs.
  - rewrite splitChar_append_sep, splitChar_join; [reflexivity|now destruct dirs|].
    apply names_no_slash. rewrite forallb_app, Hdirs. cbn [forallb].
    now rewrite Hfile.
  - change (String "/" (JsString.join "/" (dirs ++ [file]) ++ String "/" ".."))
      with (absolutePath (dirs ++ [file]) ++ "/..").
    now rewrite endsWithSlash_append.
Qed.

(** A plain relative path joined to that directory. *)
Lemma join_relative (sub : list string) (leaf : string) :
  forallb isPathName (sub ++ [leaf]) = true ->
  Path.join [directoryPath dirs; JsString.join "/" (sub ++ [leaf])]
  = absolutePath (dirs ++ sub ++ [leaf]).
Proof.
  intro Hrel.
  assert (Hall : forallb isPathName (dirs ++ sub ++ [leaf]) = true)
    by now rewrite forallb_app, Hdirs, Hrel.
  assert (Hne : JsString.isEmpty (JsString.join "/" (sub ++ [leaf])) = false).
  { apply isEmpty_join; [now destruct sub|now apply names_not_empty]. }
  assert (Hend : forall prefix,
             Path.endsWithSlash (prefix ++ JsString.join "/" (sub ++ [leaf])) = false).
  { intro prefix. rewrite endsWithSlash_append by exact Hne.
    rewrite forallb_app in Hrel. apply andb_true_iff in Hrel as [_ Hleaf].
    cbn [forallb] in Hleaf. rewrite andb_true_r in Hleaf.
    destruct (isPathName_parts leaf Hleaf) as (Hlne & Hns & _).
    rewrite join_snoc. destruct sub.
    - now apply endsWithSlash_none.
    - rewrite <- append_assoc, endsWithSlash_append by exact Hlne.
      now apply endsWithSlash_none. }
  unfold Path.join. cbn [filter].
  replace (JsString.isEmpty (directoryPath dirs)) with false by now destruct dirs.
  rewrite Hne. cbn [negb JsString.join].
  assert (Hcase : dirs = [] \/ dirs <> [])
    by (destruct dirs; [left|right]; congruence).
  destruct Hcase as [Hd|Hdne].
  - rewrite Hd. cbn [directoryPath app].
    change ("/" ++ "/" ++ JsString.join "/" (sub ++ [leaf]))
      with (String "/" ("" ++ String "/" (JsString.join "/" (sub ++ [leaf])))).
    rewrite (normalize_absolute ([""] ++ (sub ++ [leaf]))%list).
    + cbn [app Path.normalizeSegments String.eqb orb].
      rewrite <- (app_nil_r (sub ++ [leaf])).
      rewrite (normalizeSegments_names false (sub ++ [leaf]) [] [] Hrel).
      cbn [Path.normalizeSegments]. rewrite app_nil_r, rev_involutive, app_nil_r.
      now destruct sub.
    + rewrite splitChar_append_sep, splitChar_join;
        [reflexivity|now destruct sub|now apply names_no_slash].
    + apply (Hend "//").
  - replace (directoryPath dirs) with (absolutePath dirs)
      by (destruct dirs; [congruence|reflexivity]).
    unfold absolutePath at 1.
    change (("/" ++ JsString.join "/" dirs) ++ "/" ++ JsString.join "/" (sub ++ [leaf]))
      with (String "/" (JsString.join "/" dirs
                        ++ String "/" (JsString.join "/" (sub ++ [leaf])))).
    rewrite (normalize_absolute (dirs ++ (sub ++ [leaf]))%list).
    + rewrite <- (app_nil_r (dirs ++ sub ++ [leaf])) at 1.
      rewrite (normalizeSegments_names false (dirs ++ sub ++ [leaf]) [] [] Hall).
      cbn [Path.normalizeSegments]. rewrite app_nil_r, rev_involutive.
      destruct (dirs ++ sub ++ [leaf])%list eqn:E; [|reflexivity].
      now destruct dirs.
    + rewrite splitChar_append_sep, !splitChar_join;
        [reflexivity|now destruct sub|now apply names_no_slash
        |exact Hdne|now apply names_no_slash].
    + change (String "/" (JsString.join "/" dirs
                          ++ String "/" (JsString.join "/" (sub ++ [leaf]))))
        with (absolutePath dirs ++ "/" ++ JsString.join "/" (sub ++ [leaf])).
      rewrite endsWithSlash_append by reflexivity. apply (Hend "/").
Qed.

End IncludePaths.

(** ** Include lines *)

Lemma prefix_append (p rest : string) : String.prefix p (p ++ rest) = true.
Proof.
  induction p as [|c p IH]; [apply prefix_nil|].
  cbn [append]. now rewrite prefix_cons, Ascii.eqb_refl, IH.
Qed.

(** The line [Include <path>] for a path that is a word. *)
Lemma classify_include (path : string) :
  isWord path = true ->
  classify ("Include " ++ path) = IncludeOf path
  /\ JsString.splitChar "010" ("Include " ++ path) = ["Include " ++ path].
Proof.
  intro Hpath. split.
  - unfold classify.
    assert (Htrim : JsString.trim ("Include " ++ path) = "Include " ++ path).
    { unfold JsString.trim.
      change ("Include " ++ path) with ("Include" ++ " " ++ path) at 1.
      rewrite trimStart_word_append by reflexivity.
      change ("Include" ++ " " ++ path) with ("Include " ++ path).
      now apply trimEnd_append_word. }
    rewrite Htrim.
    replace (JsString.isEmpty ("Include " ++ path)
             || JsString.startsWith ("Include " ++ path) "#") with false
      by (unfold JsString.startsWith; cbn [append JsString.isEmpty orb];
          now rewrite prefix_cons).
    rewrite toLowerCase_append.
    change (JsString.toLowerCase "Include ") with "include ".
    unfold JsString.startsWith. rewrite prefix_append.
    change (JsString.substringFrom 8 ("Include " ++ path)) with path.
    now rewrite trim_word.
  - apply splitChar_none. rewrite allChars_append.
    apply isWord_parts in Hpath as [_ Hns].
    now rewrite (word_has_no_line_feed path Hns).
Qed.

Section IncludeResolution.

Variable env : Env.

Lemma name_path_is_relative (segments : list string) :
  segments <> [] -> forallb isPathName segments = true ->
  JsString.startsWith (JsString.join "/" segments) "/" = false.
Proof.
  destruct segments as [|s segments]; [congruence|]. intros _ Hall.
  cbn [forallb] in Hall. apply andb_true_iff in Hall as [Hs _].
  destruct (isPathName_parts s Hs) as (Hne & Hns & _).
  assert (Hfirst : JsString.startsWith s "/" = false).
  { destruct s as [|c s]; [discriminate|]. unfold JsString.startsWith.
    rewrite prefix_cons, prefix_nil, andb_true_r, Ascii.eqb_sym.
    cbn [allChars] in Hns. apply andb_true_iff in Hns as [Hc _].
    now apply negb_true_iff. }
  destruct segments; [exact Hfirst|].
  rewrite join_cons by discriminate. now rewrite startsWith_append_first.
Qed.

Lemma absolutePath_has_no (c : ascii) (segments : list string) :
  Ascii.eqb "/" c = false ->
  forallb (allChars (fun d => negb (Ascii.eqb d c))) segments = true ->
  allChars (fun d => negb (Ascii.eqb d c)) (absolutePath segments) = true.
Proof.
  intros Hc Hall. unfold absolutePath. rewrite allChars_append.
  cbn [allChars]. rewrite Hc. cbn [negb andb].
  apply allChars_join; [|exact Hall]. cbn [allChars]. now rewrite Hc.
Qed.

(** The file a plain relative Include names, from a file [dirs/file]. *)
Lemma includeFiles_relative (dirs : list string) (file : string)
    (sub : list string) (leaf : string) :
  forallb isPlainSegment (dirs ++ file :: sub ++ [leaf]) = true ->
  includeFiles env (JsString.join "/" (sub ++ [leaf])) (absolutePath (dirs ++ [file]))
  = [absolutePath (dirs ++ sub ++ [leaf])].
Proof.
  intro Hall. rewrite forallb_app in Hall. apply andb_true_iff in Hall as [Hdirs Hall].
  cbn [forallb] in Hall. apply andb_true_iff in Hall as [Hfile Hrel].
  assert (Hplain : forallb isPlainSegment (dirs ++ sub ++ [leaf]) = true)
    by now rewrite forallb_app, Hdirs, Hrel.
  assert (Hfull : includeFullPath env (JsString.join "/" (sub ++ [leaf]))
                    (absolutePath (dirs ++ [file]))
                  = absolutePath (dirs ++ sub ++ [leaf])).
  { unfold includeFullPath.
    rewrite name_path_is_relative
      by (destruct sub; (discriminate || now apply plain_are_names)).
    rewrite (join_parent dirs file (plain_are_names _ Hdirs)
               (proj1 (isPlainSegment_parts file Hfile))),
      (join_relative dirs (plain_are_names _ Hdirs) sub leaf
         (plain_are_names _ Hrel)).
    apply replaceFirstChar_none, absolutePath_has_no; [reflexivity|].
    revert Hplain. apply forallb_impl. intros s Hs.
    apply isPlainSegment_parts, Hs. }
  unfold includeFiles. rewrite Hfull, includesChar_allChars.
  rewrite absolutePath_has_no; [reflexivity|reflexivity|].
  revert Hplain. apply forallb_impl. intros s Hs.
  apply isPlainSegment_parts, Hs.
Qed.

End IncludeResolution.


(** * Further properties *)

(** ** The handler of tool calls *)

Section RejectionFacts.

Variable timeoutError : McpError.
Variable closeReply : option Z -> string -> string -> Reply.
Variable spawnError : string -> McpError.

(** A call around a child fails with the error of its timer or with the
    error of its ['error'] handler, and with nothing else. *)
Lemma run_rejections (evs : list ChildEvent) (c : Call) (e : McpError) :
  settled c = None ->
  settled (runEvents timeoutError closeReply spawnError evs c) = Some (Rejected e) ->
  e = timeoutError \/ exists message, e = spawnError message.
Proof.
  revert c. induction evs as [|ev evs IH]; intros c Hc Hrun.
  - simpl in Hrun. congruence.
  - rewrite runEvents_cons in Hrun.
    destruct (settled (handleEvent timeoutError closeReply spawnError ev c))
      as [o|] eqn:Hstep; [|exact (IH _ Hstep Hrun)].
    rewrite (run_settled _ _ _ evs _ o Hstep) in Hrun.
    assert (o = Rejected e) as -> by congruence. clear Hrun IH.
    destruct ev as [data|data|code|message|]; simpl in Hstep.
    + congruence.
    + congruence.
    + rewrite settle_pending in Hstep by exact Hc. congruence.
    + rewrite settle_pending in Hstep by exact Hc.
      right. exists message. congruence.
    + destruct (timerArmed c); [|congruence].
      rewrite settle_pending in Hstep by exact Hc. left. congruence.
Qed.

End RejectionFacts.

(** What a method that looks its host up first does with it. *)
Lemma executeCommand_guarded (sshHosts : Registry) (host command : string)
    (timeout : Z) (useBase64 : bool) (events : list ChildEvent) :
  match JsMap.get sshHosts host with
  | None =>
      executeCommand sshHosts host command timeout useBase64 events
      = thrown (hostNotFound host)
  | Some _ =>
      effects (executeCommand sshHosts host command timeout useBase64 events) <> []
      /\ forall e,
           settled (executeCommand sshHosts host command timeout useBase64 events)
           = Some (Rejected e) ->
           errorCode e = InternalError
  end.
Proof.
  unfold executeCommand. destruct (JsMap.get sshHosts host); [|reflexivity]. split.
  - intro He.
    pose proof (run_spawn_first
                  (mkMcpError InternalError
                     ("Command timed out after " ++ showNumber timeout ++ " seconds"))
                  (commandReply host command useBase64)
                  (fun message =>
                     mkMcpError InternalError ("SSH execution failed: " ++ message))
                  "ssh" [host; finalCommand command useBase64] events) as Hfirst.
    rewrite He in Hfirst. discriminate.
  - intros e He. apply run_rejections in He; [|reflexivity].
    destruct He as [->|(message & ->)]; reflexivity.
Qed.

Lemma executeScript_guarded (sshHosts : Registry) (host script : string)
    (timeout : Z) (interpreter : string) (events : list ChildEvent) :
  match JsMap.get sshHosts host with
  | None =>
      executeScript sshHosts host script timeout interpreter events
      = thrown (hostNotFound host)
  | Some _ =>
      effects (executeScript sshHosts host script timeout interpreter events) <> []
      /\ forall e,
           settled (executeScript sshHosts host script timeout interpreter events)
           = Some (Rejected e) ->
           errorCode e = InternalError
  end.
Proof.
  unfold executeScript. destruct (JsMap.get sshHosts host); [|reflexivity]. split.
  - intro He.
    pose proof (run_spawn_first
                  (mkMcpError InternalError
                     ("Script timed out after " ++ showNumber timeout ++ " seconds"))
                  (scriptReply host script interpreter)
                  (fun message =>
                     mkMcpError InternalError
                       ("SSH script execution failed: " ++ message))
                  "ssh" [host; scriptCommand script interpreter] events) as Hfirst.
    rewrite He in Hfirst. discriminate.
  - intros e He. apply run_rejections in He; [|reflexivity].
    destruct He as [->|(message & ->)]; reflexivity.
Qed.

Lemma transfer_guarded (scpCommand failure : string)
    (reply : string -> string -> Reply) (ending : option ExecEnd) :
  effects (transfer scpCommand failure reply ending) = [Exec scpCommand]
  /\ forall e,
       settled (transfer scpCommand failure reply ending) = Some (Rejected e) ->
       errorCode e = InternalError.
Proof.
  split; [reflexivity|]. intros e. unfold transfer. cbn [settled].
  destruct ending as [ending|]; [|discriminate].
  destruct (execError scpCommand ending); intro He; [|discriminate].
  assert (e = mkMcpError InternalError (failure ++ s)) as -> by congruence.
  reflexivity.
Qed.

(** The switch of the handler, tool by tool. *)
Lemma name_cases (name : string) :
  name = "ssh_execute_command" \/ name = "ssh_execute_script"
  \/ name = "ssh_list_hosts" \/ name = "ssh_get_host_info"
  \/ name = "ssh_upload_file" \/ name = "ssh_download_file"
  \/ ~ In name toolNames.
Proof.
  destruct (String.eqb_spec name "ssh_execute_command"); [tauto|].
  destruct (String.eqb_spec name "ssh_execute_script"); [tauto|].
  destruct (String.eqb_spec name "ssh_list_hosts"); [tauto|].
  destruct (String.eqb_spec name "ssh_get_host_info"); [tauto|].
  destruct (String.eqb_spec name "ssh_upload_file"); [tauto|].
  destruct (String.eqb_spec name "ssh_download_file"); [tauto|].
  do 6 right. unfold toolNames. cbn [map tools toolName In].
  intuition congruence.
Qed.

Lemma callTool_unlisted (sshHosts : Registry) (name : string) (args : ToolArgs)
    (events : list ChildEvent) (ending : option ExecEnd) :
  ~ In name toolNames ->
  callTool sshHosts name (Some args) events ending
  = thrown (mkMcpError MethodNotFound ("Unknown tool: " ++ name)).
Proof.
  unfold toolNames. cbn [map tools toolName In]. intro Hname. unfold callTool.
  repeat match goal with
         | |- context [String.eqb name ?s] =>
             destruct (String.eqb_spec name s); [exfalso; apply Hname; subst; tauto|]
         end.
  reflexivity.
Qed.

(** How a call of a listed tool can fail. *)
Lemma callTool_listed (sshHosts : Registry) (name : string) (args : ToolArgs)
    (events : list ChildEvent) (ending : option ExecEnd) (e : McpError) :
  In name toolNames ->
  settled (callTool sshHosts name (Some args) events ending) = Some (Rejected e) ->
  match JsMap.get sshHosts (argHost args) with
  | None =>
      e = hostNotFound (argHost args)
      /\ effects (callTool sshHosts name (Some args) events ending) = []
  | Some _ =>
      errorCode e = InternalError
      /\ effects (callTool sshHosts name (Some args) events ending) <> []
  end.
Proof.
  intros Hname.
  destruct (name_cases name) as [->|[->|[->|[->|[->|[->|Hno]]]]]];
    [| | | | | |contradiction].
  - change (callTool sshHosts "ssh_execute_command" (Some args) events ending)
      with (executeCommand sshHosts (argHost args) (argCommand args)
              (numberOr (argTimeout args) 30) (boolOr (argUseBase64 args) false)
              events).
    pose proof (executeCommand_guarded sshHosts (argHost args) (argCommand args)
                  (numberOr (argTimeout args) 30) (boolOr (argUseBase64 args) false)
                  events) as Hg.
    destruct (JsMap.get sshHosts (argHost args)).
    + intro He. destruct Hg as [Heff Hcode]. split; [exact (Hcode e He)|exact Heff].
    + rewrite Hg. cbn [thrown settled effects]. intro He. split; congruence.
  - change (callTool sshHosts "ssh_execute_script" (Some args) events ending)
      with (executeScript sshHosts (argHost args) (argScript args)
              (numberOr (argTimeout args) 60) (stringOr (argInterpreter args) "bash")
              events).
    pose proof (executeScript_guarded sshHosts (argHost args) (argScript args)
                  (numberOr (argTimeout args) 60)
                  (stringOr (argInterpreter args) "bash") events) as Hg.
    destruct (JsMap.get sshHosts (argHost args)).
    + intro He. destruct Hg as [Heff Hcode]. split; [exact (Hcode e He)|exact Heff].
    + rewrite Hg. cbn [thrown settled effects]. intro He. split; congruence.
  - change (callTool sshHosts "ssh_list_hosts" (Some args) events ending)
      with (returned (listHosts sshHosts)).
    unfold returned, listHosts. cbn [settled]. discriminate.
  - change (callTool sshHosts "ssh_get_host_info" (Some args) events ending)
      with (getHostInfo sshHosts (argHost args)).
    unfold getHostInfo. destruct (JsMap.get sshHosts (argHost args)).
    + cbn [settled]. discriminate.
    + cbn [thrown settled effects]. intro He. split; congruence.
  - change (callTool sshHosts "ssh_upload_file" (Some args) events ending)
      with (uploadFile sshHosts (argHost args) (argLocalPath args)
              (argRemotePath args) ending).
    unfold uploadFile. destruct (JsMap.get sshHosts (argHost args)).
    + intro He. split.
      * exact (proj2 (transfer_guarded _ _ _ _) e He).
      * rewrite (proj1 (transfer_guarded _ _ _ _)). discriminate.
    + cbn [thrown settled effects]. intro He. split; congruence.
  - change (callTool sshHosts "ssh_download_file" (Some args) events ending)
      with (downloadFile sshHosts (argHost args) (argRemotePath args)
              (argLocalPath args) ending).
    unfold downloadFile. destruct (JsMap.get sshHosts (argHost args)).
    + intro He. split.
      * exact (proj2 (transfer_guarded _ _ _ _) e He).
      * rewrite (proj1 (transfer_guarded _ _ _ _)). discriminate.
    + cbn [thrown settled effects]. intro He. split; congruence.
Qed.

(** X1.  The tools that are listed are the tools that are dispatched.  The
    names of the six listed tools are distinct; a call with an arguments
    object fails with [MethodNotFound] exactly when its name is not one of
    them, and then with the message [Unknown tool: <name>] and without any
    effect.  A call without an arguments object is refused with
    [InvalidRequest], [Missing arguments], before the name is looked at: also
    for [ssh_list_hosts], which takes no argument, and for an unknown name. *)
Theorem listed_tools_are_the_dispatched_ones :
  forall (sshHosts : Registry) (name : string) (events : list ChildEvent)
         (ending : option ExecEnd),
    NoDup toolNames /\
    callTool sshHosts name None events ending
    = thrown (mkMcpError InvalidRequest "Missing arguments") /\
    (forall args,
        (exists message,
            settled (callTool sshHosts name (Some args) events ending)
            = Some (Rejected (mkMcpError MethodNotFound message)))
        <-> ~ In name toolNames) /\
    (forall args,
        ~ In name toolNames ->
        callTool sshHosts name (Some args) events ending
        = thrown (mkMcpError MethodNotFound ("Unknown tool: " ++ name))).
Proof.
  intros sshHosts name events ending.
  split.
  { unfold toolNames. cbn [map tools toolName].
    repeat (constructor; [cbn [In]; intuition discriminate|]). constructor. }
  split; [reflexivity|]. split.
  - intro args. split.
    + intros (message & Hfail) Hname.
      pose proof (callTool_listed sshHosts name args events ending _ Hname Hfail) as H.
      destruct (JsMap.get sshHosts (argHost args)).
      * destruct H as [H _]. discriminate.
      * destruct H as [H _]. discriminate.
    + intro Hname. eexists. rewrite callTool_unlisted by exact Hname. reflexivity.
  - intros args Hname. now apply callTool_unlisted.
Qed.

(** X2.  A tool call that fails is of one of three kinds, told apart by the
    error code: the name is not a listed tool ([MethodNotFound]); the tool is
    listed and the host is not in the registry ([InvalidRequest], the message
    naming the host); the tool is listed, the host is known, and what the
    call started failed ([InternalError]).  In the first two kinds the call
    has had no effect: nothing was spawned or run. *)
Theorem failed_call_is_unknown_tool_unknown_host_or_failed_run :
  forall (sshHosts : Registry) (name : string) (args : ToolArgs)
         (events : list ChildEvent) (ending : option ExecEnd) (e : McpError),
    settled (callTool sshHosts name (Some args) events ending) = Some (Rejected e) ->
    (~ In name toolNames
     /\ e = mkMcpError MethodNotFound ("Unknown tool: " ++ name)
     /\ effects (callTool sshHosts name (Some args) events ending) = [])
    \/ (In name toolNames
        /\ JsMap.get sshHosts (argHost args) = None
        /\ e = mkMcpError InvalidRequest
                 ("Host '" ++ argHost args ++ "' not found in SSH config")
        /\ effects (callTool sshHosts name (Some args) events ending) = [])
    \/ (In name toolNames
        /\ (exists hostConfig, JsMap.get sshHosts (argHost args) = Some hostConfig)
        /\ errorCode e = InternalError
        /\ effects (callTool sshHosts name (Some args) events ending) <> []).
Proof.
  intros sshHosts name args events ending e Hfail.
  destruct (in_dec string_dec name toolNames) as [Hname|Hname].
  - right.
    pose proof (callTool_listed sshHosts name args events ending e Hname Hfail) as H.
    destruct (JsMap.get sshHosts (argHost args)) as [hostConfig|].
    + right. destruct H as [Hcode Heff]. repeat split; try assumption.
      exists hostConfig. reflexivity.
    + left. destruct H as [He Heff]. repeat split; assumption.
  - left. rewrite callTool_unlisted in Hfail |- * by exact Hname.
    cbn [thrown settled effects] in *. repeat split; [assumption|congruence].
Qed.

Lemma failed_call_is_unknown_tool_unknown_host_or_failed_run_witness :
  settled (callTool [("web", newHost "web")] "ssh_execute_command"
             (Some (mkToolArgs "web" "sleep 90" "" "" "" None None None))
             [TimerExpires] None)
  = Some (Rejected (mkMcpError InternalError "Command timed out after 30 seconds"))
  /\ effects (callTool [("web", newHost "web")] "ssh_execute_command"
                (Some (mkToolArgs "web" "sleep 90" "" "" "" None None None))
                [TimerExpires] None) <> [].
Proof.
  split; [reflexivity|].
  destruct (failed_call_is_unknown_tool_unknown_host_or_failed_run
              [("web", newHost "web")] "ssh_execute_command"
              (mkToolArgs "web" "sleep 90" "" "" "" None None None)
              [TimerExpires] None
              (mkMcpError InternalError "Command timed out after 30 seconds")
              eq_refl)
    as [(Hno & _)|[(_ & Hget & _)|(_ & _ & _ & Heff)]].
  - exfalso. apply Hno. vm_compute. tauto.
  - discriminate Hget.
  - exact Heff.
Defined.

(** X3.  An optional argument that is left out counts as the default that the
    schema of the tool declares for it (timeout 30 for a command and 60 for a
    script, [useBase64] false, interpreter [bash]): for every tool name, the
    call with the declared defaults filled in is the call as it was sent.  A
    falsy value counts as left out too: a timeout of 0 seconds and an empty
    interpreter cannot be asked for, the call runs with the default. *)
Theorem absent_and_falsy_options_take_the_declared_defaults :
  forall (sshHosts : Registry) (name : string) (args : ToolArgs)
         (events : list ChildEvent) (ending : option ExecEnd),
    callTool sshHosts name (Some (withDefaults name args)) events ending
    = callTool sshHosts name (Some args) events ending /\
    (forall useBase64 interpreter,
        callTool sshHosts name
          (Some (withOptions (Some 0%Z) useBase64 interpreter args)) events ending
        = callTool sshHosts name
            (Some (withOptions None useBase64 interpreter args)) events ending) /\
    (forall timeout interpreter,
        callTool sshHosts name
          (Some (withOptions timeout (Some false) interpreter args)) events ending
        = callTool sshHosts name
            (Some (withOptions timeout None interpreter args)) events ending) /\
    (forall timeout useBase64,
        callTool sshHosts name
          (Some (withOptions timeout useBase64 (Some "") args)) events ending
        = callTool sshHosts name
            (Some (withOptions timeout useBase64 None args)) events ending).
Proof.
  intros sshHosts name args events ending. split.
  - destruct (name_cases name) as [->|[->|[->|[->|[->|[->|Hno]]]]]].
    + change (callTool sshHosts "ssh_execute_command"
                (Some (withDefaults "ssh_execute_command" args)) events ending)
        with (executeCommand sshHosts (argHost args) (argCommand args)
                (numberOr (match argTimeout args with
                           | None => Some 30%Z
                           | given => given
                           end) 30)
                (boolOr (match argUseBase64 args with
                         | None => Some false
                         | given => given
                         end) false)
                events).
      change (callTool sshHosts "ssh_execute_command" (Some args) events ending)
        with (executeCommand sshHosts (argHost args) (argCommand args)
                (numberOr (argTimeout args) 30) (boolOr (argUseBase64 args) false)
                events).
      destruct (argTimeout args), (argUseBase64 args); reflexivity.
    + change (callTool sshHosts "ssh_execute_script"
                (Some (withDefaults "ssh_execute_script" args)) events ending)
        with (executeScript sshHosts (argHost args) (argScript args)
                (numberOr (match argTimeout args with
                           | None => Some 60%Z
                           | given => given
                           end) 60)
                (stringOr (match argInterpreter args with
                           | None => Some "bash"
                           | given => given
                           end) "bash")
                events).
      change (callTool sshHosts "ssh_execute_script" (Some args) events ending)
        with (executeScript sshHosts (argHost args) (argScript args)
                (numberOr (argTimeout args) 60)
                (stringOr (argInterpreter args) "bash") events).
      destruct (argTimeout args), (argInterpreter args); reflexivity.
    + reflexivity.
    + reflexivity.
    + reflexivity.
    + reflexivity.
    + now rewrite !callTool_unlisted by exact Hno.
  - repeat split; intros; unfold callTool, withOptions;
      cbn [argHost argCommand argScript argLocalPath argRemotePath argTimeout
           argUseBase64 argInterpreter numberOr boolOr stringOr Z.eqb
           JsString.isEmpty];
      reflexivity.
Qed.

(** ** Replies of the methods *)

Section OutputFacts.

Variable timeoutError : McpError.
Variable closeReply : option Z -> string -> string -> Reply.
Variable spawnError : string -> McpError.

(** Output goes to its buffer, in order. *)
Lemma run_buffers (evs : list ChildEvent) (c : Call) :
  forallb isOutput evs = true ->
  stdoutBuf (runEvents timeoutError closeReply spawnError evs c)
  = stdoutBuf c ++ stdoutOf evs
  /\ stderrBuf (runEvents timeoutError closeReply spawnError evs c)
     = stderrBuf c ++ stderrOf evs.
Proof.
  revert c. induction evs as [|ev evs IH]; intros c Hevs.
  - simpl. now rewrite !append_nil_r.
  - cbn [forallb] in Hevs. apply andb_true_iff in Hevs as [Hev Hevs].
    rewrite runEvents_cons. destruct (IH (handleEvent timeoutError closeReply spawnError ev c) Hevs)
      as [-> ->].
    destruct ev as [data|data|code|message|]; try discriminate;
      cbn [handleEvent stdoutBuf stderrBuf stdoutOf stderrOf];
      now rewrite ?append_assoc.
Qed.

(** The first event that is not output decides a call that [spawn] started. *)
Lemma run_decided (file : string) (args : list string)
    (pre post : list ChildEvent) (ev : ChildEvent) :
  forallb isOutput pre = true ->
  isOutput ev = false ->
  settled (runEvents timeoutError closeReply spawnError (pre ++ ev :: post)
             (spawned file args))
  = match ev with
    | Close code => Some (Resolved (closeReply code (stdoutOf pre) (stderrOf pre)))
    | ChildError message => Some (Rejected (spawnError message))
    | _ => Some (Rejected timeoutError)
    end
  /\ effects (runEvents timeoutError closeReply spawnError (pre ++ ev :: post)
                (spawned file args))
     = match ev with
       | TimerExpires => [Spawn file args; Kill "SIGTERM"]
       | _ => [Spawn file args]
       end.
Proof.
  intros Hpre Hev.
  pose proof (run_output timeoutError closeReply spawnError pre (spawned file args)
                Hpre) as (Ht & He & Hs).
  pose proof (run_buffers pre (spawned file args) Hpre) as [Hout Herr].
  rewrite runEvents_app, runEvents_cons.
  set (c := runEvents timeoutError closeReply spawnError pre (spawned file args)) in *.
  cbn [spawned stdoutBuf stderrBuf timerArmed effects settled append] in *.
  destruct (run_disarmed timeoutError closeReply spawnError post
              (handleEvent timeoutError closeReply spawnError ev c)
              (step_disarms timeoutError closeReply spawnError ev c Hev))
    as (_ & ->).
  split.
  - destruct ev as [data|data|code|message|]; try discriminate;
      apply run_settled; cbn [handleEvent].
    + rewrite settle_pending by exact Hs.
      cbn [clearTimeout disarm stdoutBuf stderrBuf]. now rewrite Hout, Herr.
    + now rewrite settle_pending by exact Hs.
    + rewrite Ht. now rewrite settle_pending by exact Hs.
  - destruct ev as [data|data|code|message|]; try discriminate; cbn [handleEvent].
    + now destruct (settle_keeps
                      (Resolved (closeReply code (stdoutBuf (clearTimeout c))
                                   (stderrBuf (clearTimeout c))))
                      (clearTimeout c)) as (_ & -> & _).
    + now destruct (settle_keeps (Rejected (spawnError message)) (clearTimeout c))
        as (_ & -> & _).
    + rewrite Ht.
      destruct (settle_keeps (Rejected timeoutError) (kill "SIGTERM" (disarm c)))
        as (_ & -> & _).
      cbn [kill disarm effects]. now rewrite He.
Qed.

End OutputFacts.

(** X4.  On a known host, a command or script stays pending as long as
    nothing but output has come from the child, and the first ['close']
    resolves it with a reply that holds what came before: [stdout] is the
    text of the chunks on the standard output, in order, trimmed as a whole,
    [stderr] likewise, each stream on its own; [exitCode] is the code of the
    event and [success] says whether it is 0.  What the child or the timer
    does after that event changes nothing. *)
Theorem reply_holds_the_output_that_came_before_close :
  forall (sshHosts : Registry) (host : string) (hostConfig : SSHHost)
         (pre post : list ChildEvent) (code : option Z),
    JsMap.get sshHosts host = Some hostConfig ->
    forallb isOutput pre = true ->
    (forall command timeout useBase64,
        settled (executeCommand sshHosts host command timeout useBase64 pre) = None /\
        settled (executeCommand sshHosts host command timeout useBase64
                   (pre ++ Close code :: post))
        = Some (Resolved
                  (CommandReply
                     (mkCommandResult host
                        (if useBase64 then "[Base64 Encoded] " ++ command else command)
                        code
                        (JsString.trim (stdoutOf pre)) (JsString.trim (stderrOf pre))
                        (match code with Some 0%Z => true | _ => false end)
                        (if useBase64 then "base64" else "plain"))))) /\
    (forall script timeout interpreter,
        settled (executeScript sshHosts host script timeout interpreter pre) = None /\
        exists r,
          settled (executeScript sshHosts host script timeout interpreter
                     (pre ++ Close code :: post))
          = Some (Resolved (ScriptReply r))
          /\ scrHost r = host /\ scrInterpreter r = interpreter
          /\ scrExitCode r = code
          /\ scrStdout r = JsString.trim (stdoutOf pre)
          /\ scrStderr r = JsString.trim (stderrOf pre)
          /\ scrSuccess r = match code with Some 0%Z => true | _ => false end
          /\ scrEncoding r = "base64").
Proof.
  intros sshHosts host hostConfig pre post code Hget Hpre.
  unfold executeCommand, executeScript. rewrite Hget. split.
  - intros command timeout useBase64. split.
    + now destruct (run_output
                      (mkMcpError InternalError
                         ("Command timed out after " ++ showNumber timeout ++ " seconds"))
                      (commandReply host command useBase64)
                      (fun message =>
                         mkMcpError InternalError ("SSH execution failed: " ++ message))
                      pre (spawned "ssh" [host; finalCommand command useBase64]) Hpre)
        as (_ & _ & ->).
    + now rewrite (proj1 (run_decided _ _ _ "ssh" _ pre post (Close code) Hpre eq_refl)).
  - intros script timeout interpreter. split.
    + now destruct (run_output
                      (mkMcpError InternalError
                         ("Script timed out after " ++ showNumber timeout ++ " seconds"))
                      (scriptReply host script interpreter)
                      (fun message =>
                         mkMcpError InternalError
                           ("SSH script execution failed: " ++ message))
                      pre (spawned "ssh" [host; scriptCommand script interpreter]) Hpre)
        as (_ & _ & ->).
    + rewrite (proj1 (run_decided _ _ _ "ssh" _ pre post (Close code) Hpre eq_refl)).
      unfold scriptReply. eexists. split; [reflexivity|]. repeat split.
Qed.

Lemma reply_holds_the_output_that_came_before_close_witness :
  JsMap.get [("web", newHost "web")] "web" = Some (newHost "web") /\
  forallb isOutput [StdoutData " up 3"; StderrData "warn"; StdoutData " days "] = true /\
  settled (executeCommand [("web", newHost "web")] "web" "uptime" 30 false
             ([StdoutData " up 3"; StderrData "warn"; StdoutData " days "]
                ++ Close (Some 0%Z) :: [StdoutData "late"; TimerExpires]))
  = Some (Resolved
            (CommandReply
               (mkCommandResult "web" "uptime" (Some 0%Z) "up 3 days" "warn" true
                  "plain"))).
Proof.
  split; [reflexivity|]. split; [reflexivity|].
  exact (proj2 (proj1 (reply_holds_the_output_that_came_before_close
                         [("web", newHost "web")] "web" (newHost "web")
                         [StdoutData " up 3"; StderrData "warn"; StdoutData " days "]
                         [StdoutData "late"; TimerExpires] (Some 0%Z)
                         eq_refl eq_refl)
                  "uptime" 30%Z false)).
Defined.

(** X5.  On a known host, when the child reports an ['error'] (it could not be
    spawned, say) while the call is pending, the call fails with
    [InternalError] and the message of the event after [SSH execution failed: ]
    (for a script, [SSH script execution failed: ]).  The timer is cleared:
    no signal is sent then or later, and a ['close'] that follows does not
    turn the failure into a result. *)
Theorem child_error_fails_the_call_and_clears_the_timer :
  forall (sshHosts : Registry) (host : string) (hostConfig : SSHHost)
         (pre post : list ChildEvent) (message : string),
    JsMap.get sshHosts host = Some hostConfig ->
    forallb isOutput pre = true ->
    (forall command timeout useBase64,
        settled (executeCommand sshHosts host command timeout useBase64
                   (pre ++ ChildError message :: post))
        = Some (Rejected
                  (mkMcpError InternalError ("SSH execution failed: " ++ message)))
        /\ effects (executeCommand sshHosts host command timeout useBase64
                      (pre ++ ChildError message :: post))
           = [Spawn "ssh" [host; finalCommand command useBase64]]
        /\ timerArmed (executeCommand sshHosts host command timeout useBase64
                         (pre ++ ChildError message :: post)) = false) /\
    (forall script timeout interpreter,
        settled (executeScript sshHosts host script timeout interpreter
                   (pre ++ ChildError message :: post))
        = Some (Rejected
                  (mkMcpError InternalError
                     ("SSH script execution failed: " ++ message)))
        /\ effects (executeScript sshHosts host script timeout interpreter
                      (pre ++ ChildError message :: post))
           = [Spawn "ssh" [host; scriptCommand script interpreter]]
        /\ timerArmed (executeScript sshHosts host script timeout interpreter
                         (pre ++ ChildError message :: post)) = false).
Proof.
  intros sshHosts host hostConfig pre post message Hget Hpre.
  assert (Hmixed : forallb isOutput (pre ++ ChildError message :: post) = false).
  { rewrite forallb_app. cbn [forallb isOutput]. now rewrite andb_false_r. }
  unfold executeCommand, executeScript. rewrite Hget. split.
  - intros command timeout useBase64.
    destruct (run_decided
                (mkMcpError InternalError
                   ("Command timed out after " ++ showNumber timeout ++ " seconds"))
                (commandReply host command useBase64)
                (fun message =>
                   mkMcpError InternalError ("SSH execution failed: " ++ message))
                "ssh" [host; finalCommand command useBase64] pre post
                (ChildError message) Hpre eq_refl) as [-> ->].
    split; [reflexivity|]. split; [reflexivity|].
    rewrite run_timer by reflexivity. exact Hmixed.
  - intros script timeout interpreter.
    destruct (run_decided
                (mkMcpError InternalError
                   ("Script timed out after " ++ showNumber timeout ++ " seconds"))
                (scriptReply host script interpreter)
                (fun message =>
                   mkMcpError InternalError
                     ("SSH script execution failed: " ++ message))
                "ssh" [host; scriptCommand script interpreter] pre post
                (ChildError message) Hpre eq_refl) as [-> ->].
    split; [reflexivity|]. split; [reflexivity|].
    rewrite run_timer by reflexivity. exact Hmixed.
Qed.

Lemma child_error_fails_the_call_and_clears_the_timer_witness :
  JsMap.get [("web", newHost "web")] "web" = Some (newHost "web") /\
  forallb isOutput [] = true /\
  settled (executeCommand [("web", newHost "web")] "web" "uptime" 30 false
             ([] ++ ChildError "spawn ssh ENOENT" :: [Close None; TimerExpires]))
  = Some (Rejected
            (mkMcpError InternalError "SSH execution failed: spawn ssh ENOENT")).
Proof.
  split; [reflexivity|]. split; [reflexivity|].
  exact (proj1 (proj1 (child_error_fails_the_call_and_clears_the_timer
                         [("web", newHost "web")] "web" (newHost "web")
                         [] [Close None; TimerExpires] "spawn ssh ENOENT"
                         eq_refl eq_refl)
                  "uptime" 30%Z false)).
Defined.

(** Lines of a text. *)
Lemma join_consHead (sep : string) (c : ascii) (l : list string) :
  l <> [] -> JsString.join sep (JsString.consHead c l) = String c (JsString.join sep l).
Proof.
  destruct l as [|t [|t' ts]]; [congruence|reflexivity|reflexivity].
Qed.

Lemma join_splitChar (sep : ascii) (s : string) :
  JsString.join (String sep "") (JsString.splitChar sep s) = s.
Proof.
  induction s as [|c s IH]; [reflexivity|]. cbn [JsString.splitChar].
  destruct (Ascii.eqb_spec c sep) as [->|Hc].
  - rewrite join_cons by apply splitChar_nonempty. now rewrite IH.
  - rewrite join_consHead by apply splitChar_nonempty. now rewrite IH.
Qed.

Lemma length_consHead (c : ascii) (l : list string) :
  l <> [] -> length (JsString.consHead c l) = length l.
Proof. destruct l; [congruence|reflexivity]. Qed.

Lemma length_splitChar (sep : ascii) (s : string) :
  length (JsString.splitChar sep s) = S (countChar sep s).
Proof.
  induction s as [|c s IH]; [reflexivity|]. cbn [JsString.splitChar countChar].
  destruct (Ascii.eqb c sep).
  - cbn [length]. now rewrite IH.
  - rewrite length_consHead by apply splitChar_nonempty. now rewrite IH.
Qed.

Lemma splitChar_pieces (sep : ascii) (s : string) :
  forallb (allChars (fun c => negb (Ascii.eqb c sep))) (JsString.splitChar sep s) = true.
Proof.
  induction s as [|c s IH]; [reflexivity|]. cbn [JsString.splitChar].
  destruct (Ascii.eqb c sep) eqn:Hc.
  - cbn [forallb allChars]. exact IH.
  - pose proof (splitChar_nonempty sep s) as Hne.
    destruct (JsString.splitChar sep s) as [|t ts]; [congruence|].
    cbn [JsString.consHead forallb allChars] in *. now rewrite Hc.
Qed.

Lemma countChar_append (c : ascii) (a b : string) :
  countChar c (a ++ b) = countChar c a + countChar c b.
Proof.
  induction a as [|d a IH]; [reflexivity|]. cbn [append countChar]. rewrite IH. lia.
Qed.

Lemma countChar_none (c : ascii) (s : string) :
  allChars (fun d => negb (Ascii.eqb d c)) s = true -> countChar c s = 0.
Proof.
  induction s as [|d s IH]; [reflexivity|]. cbn [allChars countChar].
  rewrite andb_true_iff, negb_true_iff. intros [-> Hs]. now rewrite IH.
Qed.

(** The preview of a script in the reply of [executeScript]. *)
Lemma scriptReply_preview (host script interpreter : string) (code : option Z)
    (out err : string) :
  exists r,
    scriptReply host script interpreter code out err = ScriptReply r
    /\ scrLines r = S (countChar "010" script)
    /\ (countChar "010" script <= 2 -> scrScript r = script)
    /\ (3 <= countChar "010" script ->
        exists head rest,
          script = head ++ LF ++ rest
          /\ countChar "010" head = 2
          /\ scrScript r = head ++ LF ++ "...").
Proof.
  unfold scriptReply. eexists. split; [reflexivity|]. cbn [scrLines scrScript].
  pose proof (length_splitChar "010" script) as Hlen.
  pose proof (join_splitChar "010" script) as Hjoin.
  pose proof (splitChar_pieces "010" script) as Hpieces.
  change (String "010" "") with LF in Hjoin.
  split; [exact Hlen|].
  destruct (JsString.splitChar "010" script) as [|l1 [|l2 [|l3 [|l4 more]]]];
    cbn [length] in Hlen; split; intro Hcount; try lia.
  - cbn [firstn length Nat.ltb Nat.leb]. now rewrite append_nil_r.
  - cbn [firstn length Nat.ltb Nat.leb]. now rewrite append_nil_r.
  - cbn [firstn length Nat.ltb Nat.leb]. now rewrite append_nil_r.
  - exists (JsString.join LF [l1; l2; l3]), (JsString.join LF (l4 :: more)).
    cbn [forallb] in Hpieces.
    apply andb_true_iff in Hpieces as [H1 Hpieces].
    apply andb_true_iff in Hpieces as [H2 Hpieces].
    apply andb_true_iff in Hpieces as [H3 _].
    split; [|split].
    + rewrite <- Hjoin. rewrite !join_cons by discriminate.
      cbn [JsString.join]. now rewrite !append_assoc.
    + cbn [JsString.join]. rewrite !countChar_append.
      rewrite (countChar_none _ _ H1), (countChar_none _ _ H2),
        (countChar_none _ _ H3). reflexivity.
    + cbn [firstn]. replace (3 <? length (l1 :: l2 :: l3 :: l4 :: more))%nat with true
        by (symmetry; apply Nat.ltb_lt; cbn [length]; lia).
      reflexivity.
Qed.

(** X6.  The reply to a script says how many lines the script has, that is
    one more than it has line feeds (an empty script has one line), and
    shows its beginning: a script of at most three lines is shown whole,
    a longer one up to the end of its third line, followed by a line feed and
    three dots. *)
Theorem script_reply_counts_lines_and_shows_the_first_three :
  forall (sshHosts : Registry) (host : string) (hostConfig : SSHHost)
         (script interpreter : string) (timeout : Z)
         (pre post : list ChildEvent) (code : option Z),
    JsMap.get sshHosts host = Some hostConfig ->
    forallb isOutput pre = true ->
    exists r,
      settled (executeScript sshHosts host script timeout interpreter
                 (pre ++ Close code :: post))
      = Some (Resolved (ScriptReply r))
      /\ scrLines r = S (countChar "010" script)
      /\ (countChar "010" script <= 2 -> scrScript r = script)
      /\ (3 <= countChar "010" script ->
          exists head rest,
            script = head ++ LF ++ rest
            /\ countChar "010" head = 2
            /\ scrScript r = head ++ LF ++ "...").
Proof.
  intros sshHosts host hostConfig script interpreter timeout pre post code Hget Hpre.
  unfold executeScript. rewrite Hget.
  rewrite (proj1 (run_decided _ _ _ "ssh" _ pre post (Close code) Hpre eq_refl)).
  destruct (scriptReply_preview host script interpreter code (stdoutOf pre)
              (stderrOf pre)) as (r & -> & Hr).
  exists r. split; [reflexivity|exact Hr].
Qed.

Lemma script_reply_counts_lines_and_shows_the_first_three_witness :
  JsMap.get [("web", newHost "web")] "web" = Some (newHost "web") /\
  forallb isOutput [] = true /\
  exists r,
    settled (executeScript [("web", newHost "web")] "web"
               ("set -e" ++ LF ++ "cd /srv" ++ LF ++ "make" ++ LF ++ "make install")
               60 "bash" ([] ++ Close (Some 0%Z) :: []))
    = Some (Resolved (ScriptReply r))
    /\ scrLines r = 4
    /\ scrScript r = "set -e" ++ LF ++ "cd /srv" ++ LF ++ "make" ++ LF ++ "...".
Proof.
  split; [reflexivity|]. split; [reflexivity|].
  destruct (script_reply_counts_lines_and_shows_the_first_three
              [("web", newHost "web")] "web" (newHost "web")
              ("set -e" ++ LF ++ "cd /srv" ++ LF ++ "make" ++ LF ++ "make install")
              "bash" 60%Z [] [] (Some 0%Z) eq_refl eq_refl)
    as (r & Hr & Hlines & _ & _).
  exists r. split; [exact Hr|]. split; [exact Hlines|].
  cbn in Hr. injection Hr as <-. reflexivity.
Defined.

(** X7.  A file transfer to or from a known host hands one command line to
    [exec], which has a shell run it: [scp], then the source and the
    destination, each between double quotes (the remote side written
    [host:remotePath]).  The paths are put into the line as they are, without
    escaping, so what the shell makes of the line depends on them: a path
    that holds a double quote ends the quoting.  The transfer is pending
    until the shell has ended, and it resolves exactly when the shell exited
    with code 0 and wrote no more than [exec] buffers: the reply then has
    [success = true], the fixed message and the trimmed output. *)
Theorem transfer_hands_one_line_to_the_shell_and_resolves_on_clean_exit :
  forall (sshHosts : Registry) (host : string) (hostConfig : SSHHost)
         (localPath remotePath : string),
    JsMap.get sshHosts host = Some hostConfig ->
    (forall ending,
        effects (uploadFile sshHosts host localPath remotePath ending)
        = [Exec ("scp " ++ quoted localPath ++ " "
                   ++ quoted (host ++ ":" ++ remotePath))]
        /\ effects (downloadFile sshHosts host remotePath localPath ending)
           = [Exec ("scp " ++ quoted (host ++ ":" ++ remotePath) ++ " "
                      ++ quoted localPath)]) /\
    settled (uploadFile sshHosts host localPath remotePath None) = None /\
    settled (downloadFile sshHosts host remotePath localPath None) = None /\
    (forall ending reply,
        settled (uploadFile sshHosts host localPath remotePath (Some ending))
        = Some (Resolved reply)
        <-> execFailed ending = false
            /\ reply = TransferReply
                         (mkTransferResult host localPath remotePath true
                            "File uploaded successfully"
                            (JsString.trim (execStdout ending))
                            (JsString.trim (execStderr ending)))) /\
    (forall ending reply,
        settled (downloadFile sshHosts host remotePath localPath (Some ending))
        = Some (Resolved reply)
        <-> execFailed ending = false
            /\ reply = TransferReply
                         (mkTransferResult host remotePath localPath true
                            "File downloaded successfully"
                            (JsString.trim (execStdout ending))
                            (JsString.trim (execStderr ending)))).
Proof.
  intros sshHosts host hostConfig localPath remotePath Hget.
  assert (Hexec : forall commandLine ending,
             execError commandLine ending = None <-> execFailed ending = false).
  { intros commandLine [code out err|sig out err|message|stream out err];
      cbn [execError execFailed].
    - destruct (code =? 0)%Z; cbn [negb]; split; congruence.
    - split; discriminate.
    - split; discriminate.
    - split; discriminate. }
  unfold uploadFile, downloadFile. rewrite Hget.
  split; [intro ending; split; reflexivity|].
  split; [reflexivity|]. split; [reflexivity|].
  split; intros ending reply; unfold transfer; cbn [settled].
  - destruct (execError _ ending) as [message|] eqn:He.
    + split; [discriminate|]. intros [Hok _].
      rewrite (proj2 (Hexec _ ending) Hok) in He. discriminate.
    + apply (proj1 (Hexec _ ending)) in He. split.
      * intro H. split; [exact He|congruence].
      * intros [_ ->]. reflexivity.
  - destruct (execError _ ending) as [message|] eqn:He.
    + split; [discriminate|]. intros [Hok _].
      rewrite (proj2 (Hexec _ ending) Hok) in He. discriminate.
    + apply (proj1 (Hexec _ ending)) in He. split.
      * intro H. split; [exact He|congruence].
      * intros [_ ->]. reflexivity.
Qed.

Lemma transfer_hands_one_line_to_the_shell_and_resolves_on_clean_exit_witness :
  JsMap.get [("web", newHost "web")] "web" = Some (newHost "web") /\
  effects (uploadFile [("web", newHost "web")] "web"
             ("x" ++ String "034" "; touch /tmp/y; echo " ++ String "034" "")
             "/srv/a" (Some (ExecOverflow "stdout" "" "")))
  = [Exec ("scp " ++ String "034" "x" ++ String "034" "; touch /tmp/y; echo "
             ++ String "034" "" ++ String "034" " " ++ String "034" "web:/srv/a"
             ++ String "034" "")] /\
  settled (uploadFile [("web", newHost "web")] "web"
             ("x" ++ String "034" "; touch /tmp/y; echo " ++ String "034" "")
             "/srv/a" (Some (ExecOverflow "stdout" "" "")))
  = Some (Rejected
            (mkMcpError InternalError
               "SCP upload failed: stdout maxBuffer length exceeded")).
Proof.
  split; [reflexivity|]. split.
  - exact (proj1 (proj1 (transfer_hands_one_line_to_the_shell_and_resolves_on_clean_exit
                           [("web", newHost "web")] "web" (newHost "web")
                           ("x" ++ String "034" "; touch /tmp/y; echo "
                              ++ String "034" "")
                           "/srv/a" eq_refl)
                    (Some (ExecOverflow "stdout" "" "")))).
  - reflexivity.
Defined.

(** ** The registry and what is listed *)

Lemma get_aliases {V} (m : JsMap.t V) (k : string) :
  In k (map fst m) <-> exists v, JsMap.get m k = Some v.
Proof.
  induction m as [|[k' v'] m IH]; cbn [map fst In JsMap.get].
  - split; [contradiction|]. intros (v & H). discriminate.
  - destruct (String.eqb_spec k' k) as [->|Hk].
    + split; [|auto]. intros _. now exists v'.
    + rewrite <- IH. tauto.
Qed.

(** X8.  [listHosts] reports the registry as it is: one summary for each
    entry, in the order of the registry, [total] being their number.  An
    alias is listed exactly when the lookup that the other methods start with
    finds it.  The port in a summary is never [NaN] or 0: a record without a
    port, or with such a port, is listed with 22, any other port as it is;
    and the host name in a summary is the alias where the record has none. *)
Theorem list_hosts_reports_the_registry :
  forall (sshHosts : Registry),
    listHosts sshHosts
    = Resolved (HostListReply (summaries (listHosts sshHosts)) (length sshHosts)) /\
    map sumAlias (summaries (listHosts sshHosts)) = aliases sshHosts /\
    (forall alias,
        In alias (map sumAlias (summaries (listHosts sshHosts)))
        <-> exists hostConfig, JsMap.get sshHosts alias = Some hostConfig) /\
    (forall s,
        In s (summaries (listHosts sshHosts)) ->
        JsNum.truthy (sumPort s) = true) /\
    (forall alias hostConfig,
        In (alias, hostConfig) sshHosts ->
        exists s,
          In s (summaries (listHosts sshHosts))
          /\ sumAlias s = alias /\ sumUser s = user hostConfig
          /\ (hostname hostConfig = None -> sumHostname s = alias)
          /\ (forall name,
                 hostname hostConfig = Some name -> name <> "" ->
                 sumHostname s = name)
          /\ (port hostConfig = None \/ port hostConfig = Some JsNaN
              \/ port hostConfig = Some (JsInt 0) ->
              sumPort s = JsInt 22)
          /\ (forall n,
                 port hostConfig = Some n -> JsNum.truthy n = true ->
                 sumPort s = n)).
Proof.
  intro sshHosts. unfold listHosts, JsMap.entries. cbn [summaries].
  assert (Halias : map sumAlias (map summarize sshHosts) = aliases sshHosts).
  { unfold aliases. rewrite map_map. apply map_ext. now intros [alias h]. }
  split; [now rewrite length_map|]. split; [exact Halias|]. split; [|split].
  - intro alias. rewrite Halias. apply get_aliases.
  - intros s Hs. apply in_map_iff in Hs as ([alias h] & <- & _).
    cbn [summarize sumPort]. destruct (port h) as [n|]; [|reflexivity].
    destruct (JsNum.truthy n) eqn:Hn; [exact Hn|reflexivity].
  - intros alias h Hin. exists (summarize (alias, h)).
    split; [now apply in_map|]. cbn [summarize sumAlias sumUser sumHostname sumPort].
    split; [reflexivity|]. split; [reflexivity|].
    split; [intro Hh; now rewrite Hh|]. split; [|split].
    + intros name Hh Hname. rewrite Hh. destruct name; [congruence|reflexivity].
    + intros [Hp|[Hp|Hp]]; rewrite Hp; reflexivity.
    + intros n Hp Hn. now rewrite Hp, Hn.
Qed.

(** ** Invariants of the parse *)

Lemma aliases_set (k : string) (h : SSHHost) (hosts : Registry) :
  (In k (aliases hosts) /\ aliases (JsMap.set k h hosts) = aliases hosts)
  \/ (~ In k (aliases hosts) /\ aliases (JsMap.set k h hosts) = (aliases hosts ++ [k])%list).
Proof.
  unfold aliases. induction hosts as [|[k' h'] hosts IH]; cbn [JsMap.set map fst In app].
  - right. split; [tauto|reflexivity].
  - destruct (String.eqb_spec k' k) as [->|Hk]; cbn [map fst].
    + left. split; [now left|reflexivity].
    + destruct IH as [[Hin ->]|[Hout ->]].
      * left. split; [now right|reflexivity].
      * right. split; [intros [H|H]; [congruence|contradiction]|reflexivity].
Qed.

Lemma in_set (k : string) (h : SSHHost) (hosts : Registry) (k' : string)
    (h' : SSHHost) :
  In (k', h') (JsMap.set k h hosts) -> (k', h') = (k, h) \/ In (k', h') hosts.
Proof.
  induction hosts as [|[k0 h0] hosts IH]; cbn [JsMap.set In].
  - intros [H|[]]. left. now symmetry.
  - destruct (String.eqb_spec k0 k) as [->|Hk]; cbn [In].
    + intros [H|H]; [left; now symmetry|right; now right].
    + intros [H|H]; [right; now left|].
      destruct (IH H) as [Heq|Hin]; [now left|right; now right].
Qed.

Lemma get_in (hosts : Registry) (k : string) (h : SSHHost) :
  JsMap.get hosts k = Some h -> In (k, h) hosts.
Proof.
  induction hosts as [|[k' h'] hosts IH]; cbn [JsMap.get In]; [discriminate|].
  destruct (String.eqb_spec k' k) as [->|Hk].
  - intro H. left. congruence.
  - intro H. right. exact (IH H).
Qed.

Section ParseInvariant.

Variable env : Env.

(** [P]: a property of registries that survives [this.sshHosts.set] of a
    record under its own alias. *)
Variable P : Registry -> Prop.
Hypothesis Pset : forall h hosts, P hosts -> P (JsMap.set (host h) h hosts).

Lemma commit_invariant (currentHost : option SSHHost) (hosts : Registry) :
  P hosts -> P (commit currentHost hosts).
Proof. destruct currentHost; [apply Pset|exact id]. Qed.

Lemma parseLines_invariant (include : string -> Registry -> option Registry)
    (lines : list string) :
  (forall includePath hosts hosts',
      P hosts -> include includePath hosts = Some hosts' -> P hosts') ->
  forall st st',
    P (snd st) -> parseLines env include lines st = Some st' -> P (snd st').
Proof.
  intro Hinc. induction lines as [|raw lines IH]; intros [currentHost hosts] st' HP Hrun.
  - cbn [parseLines] in Hrun. assert (st' = (currentHost, hosts)) as -> by congruence.
    exact HP.
  - cbn [parseLines] in Hrun. rewrite parseLine_classify in Hrun. cbn [snd] in HP.
    destruct (classify raw) as [|includePath|value|key value].
    + exact (IH (currentHost, hosts) st' HP Hrun).
    + destruct (include includePath hosts) as [hosts1|] eqn:Hi; [|discriminate].
      exact (IH (currentHost, hosts1) st' (Hinc _ _ _ HP Hi) Hrun).
    + exact (IH (Some (newHost value), commit currentHost hosts) st'
               (commit_invariant currentHost hosts HP) Hrun).
    + exact (IH (option_map (applyProperty env key value) currentHost, hosts) st'
               HP Hrun).
Qed.

Lemma loadFiles_invariant (parse : string -> string -> Registry -> option Registry)
    (files : list string) :
  (forall content file hosts hosts',
      P hosts -> parse content file hosts = Some hosts' -> P hosts') ->
  forall hosts hosts',
    P hosts -> loadFiles env parse files hosts = Some hosts' -> P hosts'.
Proof.
  intro Hparse. induction files as [|file files IH]; intros hosts hosts' HP Hrun.
  - cbn [loadFiles] in Hrun. congruence.
  - cbn [loadFiles] in Hrun. destruct (readFile env file) as [content|];
      [|exact (IH _ _ HP Hrun)].
    destruct (parse content file hosts) as [hosts1|] eqn:Hp; [|discriminate].
    exact (IH _ _ (Hparse _ _ _ _ HP Hp) Hrun).
Qed.

Lemma parseSSHConfig_invariant (fuel : nat) :
  forall content basePath hosts hosts',
    P hosts -> parseSSHConfig env fuel content basePath hosts = Some hosts' -> P hosts'.
Proof.
  induction fuel as [|fuel IH]; intros content basePath hosts hosts' HP Hrun;
    [discriminate|].
  change (parseDocument env (includeAt env fuel basePath) content hosts = Some hosts')
    in Hrun.
  unfold parseDocument in Hrun.
  destruct (parseLines env (includeAt env fuel basePath)
              (JsString.splitChar "010" content) (None, hosts))
    as [[currentHost hosts1]|] eqn:Hlines; [|discriminate].
  assert (hosts' = commit currentHost hosts1) as -> by congruence.
  apply commit_invariant.
  apply (parseLines_invariant (includeAt env fuel basePath)
           (JsString.splitChar "010" content)) with
    (st := (@None SSHHost, hosts)) (st' := (currentHost, hosts1));
    [|exact HP|exact Hlines].
  intros includePath hosts0 hosts0' HP0 Hi. unfold includeAt, handleInclude in Hi.
  exact (loadFiles_invariant _ _ IH _ _ HP0 Hi).
Qed.

Lemma includeAt_invariant (fuel : nat) (basePath includePath : string)
    (hosts hosts' : Registry) :
  P hosts -> includeAt env fuel basePath includePath hosts = Some hosts' -> P hosts'.
Proof.
  intros HP Hi. unfold includeAt, handleInclude in Hi.
  exact (loadFiles_invariant _ _ (parseSSHConfig_invariant fuel) _ _ HP Hi).
Qed.

Lemma loadSSHConfig_invariant (fuel : nat) (hosts hosts' : Registry) :
  P hosts -> loadSSHConfig env fuel hosts = Some hosts' -> P hosts'.
Proof.
  intros HP. unfold loadSSHConfig.
  destruct (readFile env (Path.join [homedir env; ".ssh"; "config"])).
  - now apply parseSSHConfig_invariant.
  - congruence.
Qed.

End ParseInvariant.

Lemma keyed_set (h : SSHHost) (hosts : Registry) :
  keyedByHost hosts /\ NoDup (aliases hosts) ->
  keyedByHost (JsMap.set (host h) h hosts)
  /\ NoDup (aliases (JsMap.set (host h) h hosts)).
Proof.
  intros [Hkeyed Hnodup]. split.
  - intros alias h' Hin. apply in_set in Hin as [Heq|Hin].
    + congruence.
    + exact (Hkeyed _ _ Hin).
  - destruct (aliases_set (host h) h hosts) as [[_ ->]|[Hout ->]]; [exact Hnodup|].
    apply NoDup_app; [exact Hnodup|repeat constructor; intros []|].
    intros a Ha [<-|[]]. contradiction.
Qed.

Lemma appended_set (before : list string) (h : SSHHost) (hosts : Registry) :
  (exists added, aliases hosts = (before ++ added)%list) ->
  exists added, aliases (JsMap.set (host h) h hosts) = (before ++ added)%list.
Proof.
  intros (added & Heq).
  destruct (aliases_set (host h) h hosts) as [[_ ->]|[_ ->]].
  - now exists added.
  - exists (added ++ [host h])%list. now rewrite Heq, app_assoc.
Qed.

(** X9.  The parse keeps the registry keyed by alias.  Starting from a
    registry in which every record is stored under its own [host] and no
    alias occurs twice (the empty one, at startup), every parse that returns
    leaves such a registry: a lookup of an alias gives a record whose [host]
    is that alias, and [listHosts] lists no alias twice, however often the
    configuration files declare it.  The same holds for [loadSSHConfig]. *)
Theorem registry_stays_keyed_by_alias :
  forall (env : Env) (fuel : nat) (content basePath : string)
         (hosts hosts' : Registry),
    keyedByHost hosts -> NoDup (aliases hosts) ->
    (parseSSHConfig env fuel content basePath hosts = Some hosts'
     \/ loadSSHConfig env fuel hosts = Some hosts') ->
    keyedByHost hosts' /\ NoDup (aliases hosts') /\
    (forall alias hostConfig,
        JsMap.get hosts' alias = Some hostConfig -> host hostConfig = alias) /\
    NoDup (map sumAlias (summaries (listHosts hosts'))).
Proof.
  intros env fuel content basePath hosts hosts' Hkeyed Hnodup Hrun.
  assert (H : keyedByHost hosts' /\ NoDup (aliases hosts')).
  { destruct Hrun as [Hrun|Hrun].
    - exact (parseSSHConfig_invariant env _ keyed_set fuel _ _ _ _
               (conj Hkeyed Hnodup) Hrun).
    - exact (loadSSHConfig_invariant env _ keyed_set fuel _ _
               (conj Hkeyed Hnodup) Hrun). }
  destruct H as [Hkeyed' Hnodup']. split; [exact Hkeyed'|]. split; [exact Hnodup'|].
  split.
  - intros alias hostConfig Hget. exact (Hkeyed' _ _ (get_in _ _ _ Hget)).
  - unfold listHosts, JsMap.entries. cbn [summaries].
    replace (map sumAlias (map summarize hosts')) with (aliases hosts'); [exact Hnodup'|].
    unfold aliases. rewrite map_map. apply map_ext. now intros [alias h].
Qed.

Lemma registry_stays_keyed_by_alias_witness :
  keyedByHost [] /\ NoDup (aliases []) /\
  parseSSHConfig overrideEnv 2
    ("Host web" ++ LF ++ "  HostName first" ++ LF ++ "Include other")
    "/home/u/.ssh/config" []
  = Some [("web", mkSSHHost "web" (Some "first") None None None None [])] /\
  NoDup (aliases [("web", mkSSHHost "web" (Some "first") None None None None [])]).
Proof.
  assert (Hkeyed : keyedByHost []) by (intros alias h []).
  split; [exact Hkeyed|]. split; [constructor|]. split; [reflexivity|].
  exact (proj1 (proj2 (registry_stays_keyed_by_alias overrideEnv 2
                         ("Host web" ++ LF ++ "  HostName first" ++ LF
                            ++ "Include other")
                         "/home/u/.ssh/config" []
                         [("web", mkSSHHost "web" (Some "first") None None None None [])]
                         Hkeyed (NoDup_nil _) (or_introl eq_refl)))).
Defined.

(** X10.  The parse only appends to the registry.  After a parse that
    returns, the aliases that were registered before are still registered,
    at the places they had in the order of [entries()]; the aliases that the
    parse registered come after them.  No alias is ever removed or moved,
    also when it is declared again. *)
Theorem parse_only_appends_aliases :
  forall (env : Env) (fuel : nat) (content basePath : string)
         (hosts hosts' : Registry),
    parseSSHConfig env fuel content basePath hosts = Some hosts' ->
    exists added, aliases hosts' = (aliases hosts ++ added)%list.
Proof.
  intros env fuel content basePath hosts hosts' Hrun.
  apply (parseSSHConfig_invariant env
           (fun r => exists added, aliases r = (aliases hosts ++ added)%list)
           (fun h r => appended_set (aliases hosts) h r)
           fuel content basePath hosts hosts'); [|exact Hrun].
  exists []. now rewrite app_nil_r.
Qed.

Lemma parse_only_appends_aliases_witness :
  parseSSHConfig closedBlockEnv 2
    ("Host web" ++ LF ++ "  HostName first" ++ LF ++ "Host db" ++ LF ++ "Include other")
    "/home/u/.ssh/config"
    [("db", newHost "db"); ("web", newHost "web")]
  = Some [("db", newHost "db");
          ("web", mkSSHHost "web" (Some "second") (Some "deploy") None None None [])]
  /\ exists added,
       aliases [("db", newHost "db");
                ("web", mkSSHHost "web" (Some "second") (Some "deploy") None None None [])]
       = (aliases [("db", newHost "db"); ("web", newHost "web")] ++ added)%list.
Proof.
  split; [reflexivity|].
  exact (parse_only_appends_aliases closedBlockEnv 2
           ("Host web" ++ LF ++ "  HostName first" ++ LF ++ "Host db" ++ LF
              ++ "Include other")
           "/home/u/.ssh/config"
           [("db", newHost "db"); ("web", newHost "web")]
           [("db", newHost "db");
            ("web", mkSSHHost "web" (Some "second") (Some "deploy") None None None [])]
           eq_refl).
Defined.

Lemma in_aliases_commit (currentHost : option SSHHost) (hosts : Registry)
    (alias : string) :
  In alias (aliases (commit currentHost hosts))
  <-> In alias (aliases hosts) \/ option_map host currentHost = Some alias.
Proof.
  destruct currentHost as [h|]; cbn [commit option_map].
  - destruct (aliases_set (host h) h hosts) as [[Hin ->]|[Hout ->]].
    + split; [tauto|]. intros [H|H]; [exact H|]. congruence.
    + rewrite in_app_iff. cbn [In]. split.
      * intros [H|[H|[]]]; [tauto|right; congruence].
      * intros [H|H]; [tauto|right; left; congruence].
  - split; [tauto|]. intros [H|H]; [exact H|discriminate].
Qed.

Lemma pendingAlias_property (env : Env) (key value : string)
    (currentHost : option SSHHost) (hosts : Registry) :
  pendingAlias (option_map (applyProperty env key value) currentHost, hosts)
  = pendingAlias (currentHost, hosts).
Proof.
  unfold pendingAlias. cbn [fst]. destruct currentHost as [h|]; [|reflexivity].
  cbn [option_map]. unfold applyProperty.
  destruct (negb (JsString.isEmpty key) && negb (JsString.isEmpty value));
    [now rewrite host_setProperty|reflexivity].
Qed.

(** An alias that is registered or is the one of the open block is so after
    more lines, where the includes keep what is registered. *)
Lemma parseLines_keeps_declared (env : Env)
    (include : string -> Registry -> option Registry) (alias : string)
    (lines : list string) :
  (forall includePath hosts hosts',
      In alias (aliases hosts) -> include includePath hosts = Some hosts' ->
      In alias (aliases hosts')) ->
  forall st st',
    pendingAlias st = Some alias \/ In alias (aliases (snd st)) ->
    parseLines env include lines st = Some st' ->
    pendingAlias st' = Some alias \/ In alias (aliases (snd st')).
Proof.
  intro Hinc. induction lines as [|raw lines IH]; intros [currentHost hosts] st' Hst Hrun.
  - cbn [parseLines] in Hrun. assert (st' = (currentHost, hosts)) as -> by congruence.
    exact Hst.
  - cbn [parseLines] in Hrun. rewrite parseLine_classify in Hrun. cbn [snd] in Hst.
    destruct (classify raw) as [|includePath|value|key value].
    + exact (IH (currentHost, hosts) st' Hst Hrun).
    + destruct (include includePath hosts) as [hosts1|] eqn:Hi; [|discriminate].
      apply (IH (currentHost, hosts1) st'); [|exact Hrun].
      destruct Hst as [Hst|Hst]; [left; exact Hst|right].
      exact (Hinc _ _ _ Hst Hi).
    + apply (IH (Some (newHost value), commit currentHost hosts) st'); [|exact Hrun].
      right. cbn [snd]. apply in_aliases_commit.
      destruct Hst as [Hst|Hst]; [right; exact Hst|left; exact Hst].
    + apply (IH (option_map (applyProperty env key value) currentHost, hosts) st');
        [|exact Hrun].
      rewrite pendingAlias_property. exact Hst.
Qed.

Lemma in_aliases_set (alias : string) (h : SSHHost) (hosts : Registry) :
  In alias (aliases hosts) -> In alias (aliases (JsMap.set (host h) h hosts)).
Proof.
  intro Hin. destruct (aliases_set (host h) h hosts) as [[_ ->]|[_ ->]];
    [exact Hin|]. apply in_app_iff. now left.
Qed.

(** X11.  No block of the document is lost.  After a parse that returns,
    every alias that a Host line of the parsed document declares is
    registered, wherever the line stands and whatever the document includes
    before or after it; that is also so for a Host line without a value,
    which registers the empty alias. *)
Theorem every_host_line_of_the_document_is_registered :
  forall (env : Env) (fuel : nat) (content basePath : string)
         (hosts hosts' : Registry) (raw alias : string),
    parseSSHConfig env fuel content basePath hosts = Some hosts' ->
    In raw (JsString.splitChar "010" content) ->
    declares alias raw = true ->
    exists hostConfig, JsMap.get hosts' alias = Some hostConfig.
Proof.
  intros env fuel content basePath hosts hosts' raw alias Hrun Hraw Hdecl.
  destruct fuel as [|fuel]; [discriminate|].
  change (parseDocument env (includeAt env fuel basePath) content hosts = Some hosts')
    in Hrun.
  unfold parseDocument in Hrun.
  apply in_split in Hraw as (before & after & Hlines). rewrite Hlines in Hrun.
  rewrite parseLines_app in Hrun.
  destruct (parseLines env (includeAt env fuel basePath) before (None, hosts))
    as [[currentHost hosts1]|]; [|discriminate].
  cbn [parseLines] in Hrun. rewrite parseLine_classify in Hrun.
  unfold declares in Hdecl.
  destruct (classify raw) as [|includePath|value|key value]; try discriminate.
  apply String.eqb_eq in Hdecl as ->.
  destruct (parseLines env (includeAt env fuel basePath) after
              (Some (newHost alias), commit currentHost hosts1))
    as [[currentHost2 hosts2]|] eqn:Hafter; [|discriminate].
  assert (hosts' = commit currentHost2 hosts2) as -> by congruence.
  apply get_aliases, in_aliases_commit.
  destruct (parseLines_keeps_declared env (includeAt env fuel basePath) alias after)
    with (st := (Some (newHost alias), commit currentHost hosts1))
         (st' := (currentHost2, hosts2)) as [Hpend|Hin].
  - intros includePath r r' Hr Hi.
    exact (includeAt_invariant env (fun r => In alias (aliases r))
             (fun h r => in_aliases_set alias h r) fuel basePath includePath r r' Hr Hi).
  - left. reflexivity.
  - exact Hafter.
  - right. exact Hpend.
  - left. exact Hin.
Qed.

Lemma every_host_line_of_the_document_is_registered_witness :
  parseSSHConfig overrideEnv 2
    ("Host web" ++ LF ++ "  HostName first" ++ LF ++ "Include other")
    "/home/u/.ssh/config" []
  = Some [("web", mkSSHHost "web" (Some "first") None None None None [])] /\
  In "Host web"
    (JsString.splitChar "010"
       ("Host web" ++ LF ++ "  HostName first" ++ LF ++ "Include other")) /\
  declares "web" "Host web" = true /\
  exists hostConfig,
    JsMap.get [("web", mkSSHHost "web" (Some "first") None None None None [])] "web"
    = Some hostConfig.
Proof.
  split; [reflexivity|]. split; [left; reflexivity|]. split; [reflexivity|].
  exact (every_host_line_of_the_document_is_registered overrideEnv 2
           ("Host web" ++ LF ++ "  HostName first" ++ LF ++ "Include other")
           "/home/u/.ssh/config" []
           [("web", mkSSHHost "web" (Some "first") None None None None [])]
           "Host web" "web" eq_refl (or_introl eq_refl) eq_refl).
Defined.

Lemma exists_in_cons {A} (P : A -> Prop) (x : A) (l : list A) :
  (exists y, In y (x :: l) /\ P y) <-> P x \/ exists y, In y l /\ P y.
Proof.
  split.
  - intros (y & [<-|Hy] & Hp); [now left|right; now exists y].
  - intros [Hp|(y & Hy & Hp)]; [exists x|exists y]; cbn [In]; auto.
Qed.

Lemma iff_step (A B C D E F G : Prop) :
  (A <-> B \/ C \/ D) -> (E <-> A \/ F) -> (G <-> D \/ F) -> (E <-> B \/ C \/ G).
Proof. tauto. Qed.

Lemma or_assoc_iff (A B C : Prop) : (A \/ B) \/ C <-> A \/ B \/ C.
Proof. tauto. Qed.

(** The aliases that lines without an Include register. *)
Lemma parseLines_without_include (env : Env)
    (include : string -> Registry -> option Registry) (lines : list string) :
  forallb (fun raw => negb (isIncludeLine raw)) lines = true ->
  forall st,
  exists st',
    parseLines env include lines st = Some st'
    /\ forall alias,
         (pendingAlias st' = Some alias \/ In alias (aliases (snd st')))
         <-> ((pendingAlias st = Some alias \/ In alias (aliases (snd st)))
              \/ exists raw, In raw lines /\ declares alias raw = true).
Proof.
  induction lines as [|raw lines IH]; intros Hlines [currentHost hosts].
  - eexists. split; [reflexivity|]. intro alias. split; [now left|].
    intros [H|(raw & [] & _)]. exact H.
  - cbn [forallb] in Hlines. apply andb_true_iff in Hlines as [Hraw Hlines].
    unfold isIncludeLine in Hraw. cbn [parseLines]. rewrite parseLine_classify.
    assert (Hstep : forall st1,
               (forall alias,
                   (pendingAlias st1 = Some alias \/ In alias (aliases (snd st1)))
                   <-> ((pendingAlias (currentHost, hosts) = Some alias
                         \/ In alias (aliases hosts))
                        \/ declares alias raw = true)) ->
               exists st',
                 parseLines env include lines st1 = Some st'
                 /\ forall alias,
                      (pendingAlias st' = Some alias \/ In alias (aliases (snd st')))
                      <-> ((pendingAlias (currentHost, hosts) = Some alias
                            \/ In alias (aliases (snd (currentHost, hosts))))
                           \/ exists raw0, In raw0 (raw :: lines)
                                           /\ declares alias raw0 = true)).
    { intros st1 H1. destruct (IH Hlines st1) as (st' & Hrun & Hst').
      exists st'. split; [exact Hrun|]. intro alias. cbn [snd].
      rewrite (exists_in_cons (fun raw0 => declares alias raw0 = true)).
      rewrite (Hst' alias), (H1 alias). apply or_assoc_iff. }
    unfold declares.
    destruct (classify raw) as [|includePath|value|key value] eqn:Hk;
      try discriminate; apply Hstep; intro alias; unfold declares; rewrite Hk.
    + cbn [snd]. split; [now left|]. intros [H|H]; [exact H|discriminate].
    + unfold pendingAlias at 1. cbn [fst snd option_map newHost host].
      rewrite in_aliases_commit.
      change (option_map host currentHost) with (pendingAlias (currentHost, hosts)).
      split.
      * intros [H|[H|H]].
        -- right. apply String.eqb_eq. congruence.
        -- left. now right.
        -- left. now left.
      * intros [[H|H]|H].
        -- right. now right.
        -- right. now left.
        -- left. apply String.eqb_eq in H. congruence.
    + rewrite pendingAlias_property. cbn [snd]. split; [now left|].
      intros [H|H]; [exact H|discriminate].
Qed.

(** X12.  A document without Include lines always parses, with any fuel but
    none, and registers exactly its Host lines: afterwards an alias is
    registered if and only if it was registered before or some Host line of
    the document declares it. *)
Theorem include_free_document_registers_exactly_its_host_lines :
  forall (env : Env) (fuel : nat) (content basePath : string) (hosts : Registry),
    forallb (fun raw => negb (isIncludeLine raw)) (JsString.splitChar "010" content)
    = true ->
    exists hosts',
      parseSSHConfig env (S fuel) content basePath hosts = Some hosts'
      /\ forall alias,
           In alias (aliases hosts')
           <-> (In alias (aliases hosts)
                \/ exists raw,
                     In raw (JsString.splitChar "010" content)
                     /\ declares alias raw = true).
Proof.
  intros env fuel content basePath hosts Hlines.
  destruct (parseLines_without_include env (includeAt env fuel basePath) _ Hlines
              (None, hosts)) as ([currentHost hosts1] & Hrun & Hst).
  exists (commit currentHost hosts1). split.
  - change (parseDocument env (includeAt env fuel basePath) content hosts
            = Some (commit currentHost hosts1)).
    unfold parseDocument. now rewrite Hrun.
  - intro alias. rewrite in_aliases_commit.
    specialize (Hst alias). unfold pendingAlias in Hst. cbn [fst snd option_map] in Hst.
    clear Hrun Hlines. split.
    + intros [H|H].
      * destruct (proj1 Hst (or_intror H)) as [[H1|H1]|H1];
          [discriminate|now left|now right].
      * destruct (proj1 Hst (or_introl H)) as [[H1|H1]|H1];
          [discriminate|now left|now right].
    + intros [H|H].
      * destruct (proj2 Hst (or_introl (or_intror H))) as [H1|H1];
          [now right|now left].
      * destruct (proj2 Hst (or_intror H)) as [H1|H1]; [now right|now left].
Qed.

Lemma include_free_document_registers_exactly_its_host_lines_witness :
  forallb (fun raw => negb (isIncludeLine raw))
    (JsString.splitChar "010" twoBlocksConfig) = true /\
  exists hosts',
    parseSSHConfig (mkEnv "/home/u" (fun _ => None) (fun _ => None)) 1
      twoBlocksConfig "/home/u/.ssh/config" [("db", newHost "db")]
    = Some hosts'
    /\ forall alias,
         In alias (aliases hosts')
         <-> (In alias (aliases [("db", newHost "db")])
              \/ exists raw,
                   In raw (JsString.splitChar "010" twoBlocksConfig)
                   /\ declares alias raw = true).
Proof.
  split; [reflexivity|].
  exact (include_free_document_registers_exactly_its_host_lines
           (mkEnv "/home/u" (fun _ => None) (fun _ => None)) 0
           twoBlocksConfig "/home/u/.ssh/config" [("db", newHost "db")] eq_refl).
Defined.

(** ** Lines that do not count *)

(** The parse of a document, by its lines. *)
Lemma parseSSHConfig_lines (env : Env) (fuel : nat) (lines : list string)
    (basePath : string) (hosts : Registry) :
  forallb (allChars (fun c => negb (Ascii.eqb c "010"))) lines = true ->
  parseSSHConfig env (S fuel) (JsString.join LF lines) basePath hosts
  = match parseLines env (includeAt env fuel basePath) lines (None, hosts) with
    | Some (currentHost, hosts') => Some (commit currentHost hosts')
    | None => None
    end.
Proof.
  intro Hlines.
  change (parseSSHConfig env (S fuel) (JsString.join LF lines) basePath hosts)
    with (parseDocument env (includeAt env fuel basePath) (JsString.join LF lines)
            hosts).
  unfold parseDocument. destruct lines as [|l lines]; [reflexivity|].
  unfold LF. now rewrite splitChar_join by (discriminate || exact Hlines).
Qed.

(** X13.  Lines outside any block are ignored.  Lines that hold no Host line
    and no Include, at the start of a document (before its first Host line),
    change nothing: the parse goes on as if they were not there.  So a
    document without any Host line and Include, the empty document among
    them, leaves the registry as it was. *)
Theorem lines_before_the_first_block_are_ignored :
  forall (env : Env) (pre : list string),
    isPlainBody pre = true ->
    (forall include rest hosts,
        parseLines env include (pre ++ rest) (None, hosts)
        = parseLines env include rest (None, hosts)) /\
    (forall fuel content basePath hosts,
        JsString.splitChar "010" content = pre ->
        parseSSHConfig env (S fuel) content basePath hosts = Some hosts).
Proof.
  intros env pre Hpre. split.
  - intros include rest hosts.
    now rewrite parseLines_app, (parseLines_plain env include pre None hosts Hpre).
  - intros fuel content basePath hosts Hsplit.
    change (parseDocument env (includeAt env fuel basePath) content hosts = Some hosts).
    unfold parseDocument.
    now rewrite Hsplit, (parseLines_plain env _ pre None hosts Hpre).
Qed.

Lemma lines_before_the_first_block_are_ignored_witness :
  isPlainBody ["# defaults"; "ForwardAgent yes"; ""] = true /\
  parseSSHConfig (mkEnv "/home/u" (fun _ => None) (fun _ => None)) 1
    ("# defaults" ++ LF ++ "ForwardAgent yes" ++ LF) "/home/u/.ssh/config"
    [("web", newHost "web")]
  = Some [("web", newHost "web")].
Proof.
  split; [reflexivity|].
  exact (proj2 (lines_before_the_first_block_are_ignored
                  (mkEnv "/home/u" (fun _ => None) (fun _ => None))
                  ["# defaults"; "ForwardAgent yes"; ""] eq_refl)
           0 ("# defaults" ++ LF ++ "ForwardAgent yes" ++ LF) "/home/u/.ssh/config"
           [("web", newHost "web")] eq_refl).
Defined.

Lemma parseLine_skipped (env : Env) (include : string -> Registry -> option Registry)
    (raw : string) (st : LoopState) :
  JsString.isEmpty (JsString.trim raw) || JsString.startsWith (JsString.trim raw) "#"
  = true ->
  parseLine env include raw st = Some st.
Proof.
  intro Hraw. unfold parseLine. destruct st as [currentHost hosts]. now rewrite Hraw.
Qed.

(** X14.  Blank lines and comments do not count.  A line that is empty after
    trimming, or whose first character after trimming is [#], can be taken
    out of a document, or put into it, at any place (inside a block too)
    without changing what the parse does: the result is the same, and so is
    whether the parse returns. *)
Theorem blank_and_comment_lines_do_not_count :
  forall (env : Env) (raw : string) (pre post : list string),
    JsString.isEmpty (JsString.trim raw) || JsString.startsWith (JsString.trim raw) "#"
    = true ->
    (forall include st,
        parseLines env include (pre ++ raw :: post) st
        = parseLines env include (pre ++ post) st) /\
    (forallb (allChars (fun c => negb (Ascii.eqb c "010"))) (pre ++ raw :: post) = true ->
     forall fuel basePath hosts,
       parseSSHConfig env fuel (JsString.join LF (pre ++ raw :: post)) basePath hosts
       = parseSSHConfig env fuel (JsString.join LF (pre ++ post)) basePath hosts).
Proof.
  intros env raw pre post Hraw.
  assert (Hlines : forall include st,
             parseLines env include (pre ++ raw :: post) st
             = parseLines env include (pre ++ post) st).
  { intros include st. rewrite !parseLines_app.
    destruct (parseLines env include pre st) as [st1|]; [|reflexivity].
    cbn [parseLines]. now rewrite parseLine_skipped by exact Hraw. }
  split; [exact Hlines|].
  intros Hlf [|fuel] basePath hosts; [reflexivity|].
  rewrite !parseSSHConfig_lines.
  - now rewrite Hlines.
  - rewrite forallb_app in Hlf |- *. cbn [forallb] in Hlf.
    apply andb_true_iff in Hlf as [-> Hlf]. now apply andb_true_iff in Hlf as [_ ->].
  - exact Hlf.
Qed.

Lemma blank_and_comment_lines_do_not_count_witness :
  JsString.isEmpty (JsString.trim "   # the web server")
  || JsString.startsWith (JsString.trim "   # the web server") "#" = true /\
  parseSSHConfig (mkEnv "/home/u" (fun _ => None) (fun _ => None)) 1
    (JsString.join LF (["Host web"] ++ "   # the web server" :: ["  HostName h"]))
    "/home/u/.ssh/config" []
  = parseSSHConfig (mkEnv "/home/u" (fun _ => None) (fun _ => None)) 1
      (JsString.join LF (["Host web"] ++ ["  HostName h"]))
      "/home/u/.ssh/config" [].
Proof.
  split; [reflexivity|].
  exact (proj2 (blank_and_comment_lines_do_not_count
                  (mkEnv "/home/u" (fun _ => None) (fun _ => None))
                  "   # the web server" ["Host web"] ["  HostName h"] eq_refl)
           eq_refl 1 "/home/u/.ssh/config" []).
Defined.

(** White space at the ends of a line. *)
Lemma trimStart_spaces (ws s : string) :
  allChars JsString.isSpace ws = true ->
  JsString.trimStart (ws ++ s) = JsString.trimStart s.
Proof.
  induction ws as [|c ws IH]; [reflexivity|]. cbn [allChars append JsString.trimStart].
  rewrite andb_true_iff. intros [-> Hws]. exact (IH Hws).
Qed.

Lemma trimEnd_spaces (s ws : string) :
  allChars JsString.isSpace ws = true ->
  JsString.trimEnd (s ++ ws) = JsString.trimEnd s.
Proof.
  intro Hws.
  assert (Hbase : JsString.trimEnd ws = "").
  { induction ws as [|c ws IH]; [reflexivity|]. cbn [allChars] in Hws.
    apply andb_true_iff in Hws as [Hc Hws]. cbn [JsString.trimEnd].
    now rewrite (IH Hws), Hc. }
  induction s as [|c s IH]; [exact Hbase|].
  cbn [append JsString.trimEnd]. now rewrite IH.
Qed.

Lemma trim_spaces_end (s ws : string) :
  allChars JsString.isSpace ws = true ->
  JsString.trim (s ++ ws) = JsString.trim s.
Proof.
  intro Hws. unfold JsString.trim. induction s as [|c s IH].
  - cbn [append]. rewrite <- (append_nil_r ws), trimStart_spaces by exact Hws.
    reflexivity.
  - cbn [append JsString.trimStart]. destruct (JsString.isSpace c); [exact IH|].
    change (String c (s ++ ws)) with (String c s ++ ws).
    now apply trimEnd_spaces.
Qed.

Lemma trim_padded (ws1 s ws2 : string) :
  allChars JsString.isSpace ws1 = true ->
  allChars JsString.isSpace ws2 = true ->
  JsString.trim (ws1 ++ s ++ ws2) = JsString.trim s.
Proof.
  intros H1 H2. rewrite <- (trim_spaces_end s ws2 H2).
  unfold JsString.trim. now rewrite trimStart_spaces.
Qed.

Lemma parseLine_trim (env : Env) (include : string -> Registry -> option Registry)
    (a b : string) (st : LoopState) :
  JsString.trim a = JsString.trim b ->
  parseLine env include a st = parseLine env include b st.
Proof. intro H. unfold parseLine. destruct st as [currentHost hosts]. now rewrite H. Qed.

(** X15.  Only the trimmed text of a line counts.  White space (blanks, tabs,
    carriage returns) before and after the text of a line changes nothing:
    two documents whose lines differ in such white space only are parsed
    alike.  So the indentation of a block is free, and a file with CRLF line
    ends is read like the same file with LF line ends. *)
Theorem white_space_around_a_line_does_not_count :
  forall (env : Env) (lines lines' : list string),
    Forall2
      (fun raw raw' =>
         exists before after,
           allChars JsString.isSpace before = true
           /\ allChars JsString.isSpace after = true
           /\ raw = before ++ raw' ++ after)
      lines lines' ->
    (forall include st,
        parseLines env include lines st = parseLines env include lines' st) /\
    (forall fuel content content' basePath hosts,
        JsString.splitChar "010" content = lines ->
        JsString.splitChar "010" content' = lines' ->
        parseSSHConfig env fuel content basePath hosts
        = parseSSHConfig env fuel content' basePath hosts).
Proof.
  intros env lines lines' Hpad.
  assert (Hlines : forall include st,
             parseLines env include lines st = parseLines env include lines' st).
  { intro include. induction Hpad as [|raw raw' lines lines' Hraw _ IH]; intro st;
      [reflexivity|].
    destruct Hraw as (before & after & Hb & Ha & ->). cbn [parseLines].
    rewrite (parseLine_trim env include (before ++ raw' ++ after) raw' st
               (trim_padded before raw' after Hb Ha)).
    destruct (parseLine env include raw' st); [apply IH|reflexivity]. }
  split; [exact Hlines|].
  intros [|fuel] content content' basePath hosts Hc Hc'; [reflexivity|].
  change (parseDocument env (includeAt env fuel basePath) content hosts
          = parseDocument env (includeAt env fuel basePath) content' hosts).
  unfold parseDocument. now rewrite Hc, Hc', Hlines.
Qed.

Lemma white_space_around_a_line_does_not_count_witness :
  parseSSHConfig (mkEnv "/home/u" (fun _ => None) (fun _ => None)) 1
    ("Host web" ++ String "013" LF ++ String "009" "HostName h" ++ String "013" "")
    "/home/u/.ssh/config" []
  = parseSSHConfig (mkEnv "/home/u" (fun _ => None) (fun _ => None)) 1
      ("Host web" ++ LF ++ "HostName h") "/home/u/.ssh/config" [].
Proof.
  refine (proj2 (white_space_around_a_line_does_not_count
                   (mkEnv "/home/u" (fun _ => None) (fun _ => None))
                   ["Host web" ++ String "013" ""; String "009" "HostName h" ++ String "013" ""]
                   ["Host web"; "HostName h"] _)
            1
            ("Host web" ++ String "013" LF ++ String "009" "HostName h"
               ++ String "013" "")
            ("Host web" ++ LF ++ "HostName h") "/home/u/.ssh/config" []
            eq_refl eq_refl).
  constructor.
  - exists "", (String "013" ""). repeat split.
  - constructor; [|constructor].
    exists (String "009" ""), (String "013" ""). repeat split.
Defined.

(** ** Keys and values *)

Lemma prefix_space_in_word (p q w : string) :
  allChars (fun c => negb (JsString.isSpace c)) w = true ->
  String.prefix (p ++ String " " q) w = false.
Proof.
  revert w. induction p as [|c p IH]; intros [|d w] Hw; cbn [append];
    try reflexivity.
  - rewrite prefix_cons. cbn [allChars] in Hw. apply andb_true_iff in Hw as [Hd _].
    destruct (Ascii.eqb_spec " " d) as [<-|]; [discriminate|reflexivity].
  - rewrite prefix_cons. cbn [allChars] in Hw. apply andb_true_iff in Hw as [_ Hw].
    rewrite (IH w Hw). apply andb_false_r.
Qed.

Lemma include_has_seven_letters (key rest : string) :
  JsString.toLowerCase key = "include" ->
  JsString.substringFrom 8 (key ++ String " " rest) = rest.
Proof.
  destruct key as [|c1 [|c2 [|c3 [|c4 [|c5 [|c6 [|c7 [|c8 key]]]]]]]];
    cbn [JsString.toLowerCase]; intro H; try discriminate.
  reflexivity.
Qed.

Lemma isEmpty_join_words (words : list string) :
  forallb isWord words = true ->
  JsString.isEmpty (JsString.join " " words) = match words with [] => true | _ => false end.
Proof.
  destruct words as [|w words]; [reflexivity|]. intro Hall.
  cbn [forallb] in Hall. apply andb_true_iff in Hall as [Hw _].
  apply isWord_parts in Hw as [Hne _].
  destruct words; [exact Hne|]. rewrite join_cons by discriminate.
  now rewrite isEmpty_append, Hne.
Qed.

(** What a line made of a key and words is to the loop. *)
Lemma classify_words (key : string) (values : list string) :
  isWord key = true ->
  forallb isWord values = true ->
  classify (JsString.join " " (key :: values))
  = if JsString.startsWith key "#" then Skipped
    else if String.eqb (JsString.toLowerCase key) "include"
            && negb (JsString.isEmpty (JsString.join " " values))
    then IncludeOf (JsString.join " " values)
    else if String.eqb (JsString.toLowerCase key) "host"
    then HostOf (JsString.join " " values)
    else PropertyOf key (JsString.join " " values).
Proof.
  intros Hkey Hvalues.
  assert (Hall : forallb isWord (key :: values) = true)
    by (cbn [forallb]; now rewrite Hkey, Hvalues).
  destruct (isWord_parts key Hkey) as [Hkne Hkns].
  unfold classify.
  rewrite (trim_join_words (key :: values)) by (discriminate || exact Hall).
  rewrite (splitSpaces_join_words (key :: values)) by (discriminate || exact Hall).
  rewrite (isEmpty_join_words (key :: values) Hall). cbn [orb].
  rewrite (isEmpty_join_words values Hvalues).
  destruct values as [|v values].
  - cbn [JsString.join negb andb]. rewrite andb_false_r.
    destruct (JsString.startsWith key "#"); [reflexivity|].
    unfold JsString.startsWith.
    change "include " with ("include" ++ String " " "").
    rewrite prefix_space_in_word by now rewrite allChars_toLowerCase_nonspace.
    reflexivity.
  - rewrite join_cons by discriminate.
    rewrite startsWith_append_first by exact Hkne.
    destruct (JsString.startsWith key "#"); [reflexivity|].
    rewrite toLowerCase_append. unfold JsString.startsWith.
    change (JsString.toLowerCase (" " ++ JsString.join " " (v :: values)))
      with (" " ++ JsString.toLowerCase (JsString.join " " (v :: values))).
    change "include " with ("include" ++ " ").
    rewrite prefix_word_space;
      [|reflexivity|now rewrite allChars_toLowerCase_nonspace].
    rewrite (String.eqb_sym "include"). cbn [negb]. rewrite andb_true_r.
    destruct (String.eqb_spec (JsString.toLowerCase key) "include") as [Hinc|Hinc];
      [|reflexivity].
    change (key ++ " " ++ JsString.join " " (v :: values))
      with (key ++ String " " (JsString.join " " (v :: values))).
    rewrite (include_has_seven_letters key _ Hinc).
    now rewrite trim_join_words by (discriminate || exact Hvalues).
Qed.

Lemma setProperty_lower (env : Env) (key key' value : string) (h : SSHHost) :
  JsString.toLowerCase key = JsString.toLowerCase key' ->
  setProperty env key value h = setProperty env key' value h.
Proof. intro H. unfold setProperty. now rewrite H. Qed.

Lemma applyProperty_lower (env : Env) (key key' value : string) (h : SSHHost) :
  JsString.toLowerCase key = JsString.toLowerCase key' ->
  applyProperty env key value h = applyProperty env key' value h.
Proof.
  intro H. unfold applyProperty.
  rewrite <- (isEmpty_toLowerCase key), <- (isEmpty_toLowerCase key'), H.
  now rewrite (setProperty_lower env key key' value h H).
Qed.

(** X16.  Keywords are matched without regard to case.  Two lines that are a
    keyword followed by the same words, the keywords differing in the case
    of their letters only ([HostName], [hostname], [HOSTNAME]; also [Host]
    and [Include]), do the same to the state of the parse, whatever the
    state and whatever the keyword is. *)
Theorem keywords_are_matched_without_regard_to_case :
  forall (env : Env) (include : string -> Registry -> option Registry)
         (key key' : string) (values : list string) (st : LoopState),
    isWord key = true ->
    forallb isWord values = true ->
    JsString.toLowerCase key = JsString.toLowerCase key' ->
    parseLine env include (JsString.join " " (key :: values)) st
    = parseLine env include (JsString.join " " (key' :: values)) st.
Proof.
  intros env include key key' values [currentHost hosts] Hkey Hvalues Hlower.
  assert (Hkey' : isWord key' = true)
    by now rewrite <- isWord_toLowerCase, <- Hlower, isWord_toLowerCase.
  rewrite !parseLine_classify, !classify_words by assumption.
  rewrite <- (startsWith_hash_toLowerCase key), <- (startsWith_hash_toLowerCase key').
  rewrite <- Hlower.
  destruct (JsString.startsWith (JsString.toLowerCase key) "#"); [reflexivity|].
  destruct (String.eqb (JsString.toLowerCase key) "include"
            && negb (JsString.isEmpty (JsString.join " " values))); [reflexivity|].
  destruct (String.eqb (JsString.toLowerCase key) "host"); [reflexivity|].
  destruct currentHost as [h|]; [|reflexivity]. cbn [option_map].
  now rewrite (applyProperty_lower env key key' _ h Hlower).
Qed.

Lemma keywords_are_matched_without_regard_to_case_witness :
  parseLine (mkEnv "/home/u" (fun _ => None) (fun _ => None)) (fun _ _ => None)
    (JsString.join " " ["HOSTNAME"; "10.0.0.1"]) (Some (newHost "web"), [])
  = parseLine (mkEnv "/home/u" (fun _ => None) (fun _ => None)) (fun _ _ => None)
      (JsString.join " " ["HostName"; "10.0.0.1"]) (Some (newHost "web"), []).
Proof.
  exact (keywords_are_matched_without_regard_to_case
           (mkEnv "/home/u" (fun _ => None) (fun _ => None)) (fun _ _ => None)
           "HOSTNAME" "HostName" ["10.0.0.1"] (Some (newHost "web"), [])
           eq_refl eq_refl eq_refl).
Defined.

Lemma set_set {V} (k : string) (v v' : V) (m : JsMap.t V) :
  JsMap.set k v' (JsMap.set k v m) = JsMap.set k v' m.
Proof.
  induction m as [|[k0 v0] m IH]; cbn [JsMap.set].
  - now rewrite String.eqb_refl.
  - destruct (String.eqb k0 k) eqn:E; cbn [JsMap.set]; rewrite E; [reflexivity|].
    now rewrite IH.
Qed.

Lemma setProperty_twice (env : Env) (key key' value value' : string) (h : SSHHost) :
  JsString.toLowerCase key = JsString.toLowerCase key' ->
  setProperty env key' value' (setProperty env key value h)
  = setProperty env key' value' h.
Proof.
  intro H. unfold setProperty. rewrite H.
  repeat match goal with
         | |- context [if ?b then _ else _] => destruct b; [reflexivity|]
         end.
  unfold setExtra.
  destruct (String.eqb (JsString.toLowerCase key') "__proto__"); [reflexivity|].
  cbn [host hostname user port identityFile proxyJump extra].
  now rewrite set_set.
Qed.

(** X17.  Within a block, an option that is given twice keeps its last value:
    two lines with the same keyword (in any case), the second with a value,
    leave the open record as the second line alone does.  The value of the
    first line is dropped, whichever option it is. *)
Theorem repeated_option_keeps_its_last_value :
  forall (env : Env) (include : string -> Registry -> option Registry)
         (key key' : string) (values values' : list string)
         (h : SSHHost) (hosts : Registry),
    isWord key = true ->
    forallb isWord values = true ->
    forallb isWord values' = true ->
    values' <> [] ->
    JsString.toLowerCase key = JsString.toLowerCase key' ->
    String.eqb (JsString.toLowerCase key) "host" = false ->
    String.eqb (JsString.toLowerCase key) "include" = false ->
    parseLines env include
      [JsString.join " " (key :: values); JsString.join " " (key' :: values')]
      (Some h, hosts)
    = parseLines env include [JsString.join " " (key' :: values')] (Some h, hosts).
Proof.
  intros env include key key' values values' h hosts Hkey Hvalues Hvalues' Hne
    Hlower Hhost Hinc.
  assert (Hkey' : isWord key' = true)
    by now rewrite <- isWord_toLowerCase, <- Hlower, isWord_toLowerCase.
  cbn [parseLines].
  rewrite !parseLine_classify, !classify_words by assumption.
  rewrite <- (startsWith_hash_toLowerCase key), <- (startsWith_hash_toLowerCase key').
  rewrite <- Hlower, Hhost, Hinc. cbn [andb].
  destruct (JsString.startsWith (JsString.toLowerCase key) "#") eqn:Hhash.
  - rewrite parseLine_classify, classify_words by assumption.
    rewrite <- (startsWith_hash_toLowerCase key'), <- Hlower, Hhash. reflexivity.
  - cbn [option_map]. rewrite parseLine_classify, classify_words by assumption.
    rewrite <- (startsWith_hash_toLowerCase key'), <- Hlower, Hhash.
    rewrite Hhost, Hinc. cbn [andb option_map]. do 3 f_equal.
    unfold applyProperty at 1 3.
    destruct (isWord_parts key' Hkey') as [-> _].
    rewrite (isEmpty_join_words values' Hvalues').
    destruct values' as [|v' values']; [congruence|]. cbn [negb andb].
    unfold applyProperty.
    destruct (negb (JsString.isEmpty key)
              && negb (JsString.isEmpty (JsString.join " " values))); [|reflexivity].
    now apply setProperty_twice.
Qed.

Lemma repeated_option_keeps_its_last_value_witness :
  parseLines (mkEnv "/home/u" (fun _ => None) (fun _ => None)) (fun _ _ => None)
    [JsString.join " " ["Port"; "22"]; JsString.join " " ["port"; "2222"]]
    (Some (newHost "web"), [])
  = parseLines (mkEnv "/home/u" (fun _ => None) (fun _ => None)) (fun _ _ => None)
      [JsString.join " " ["port"; "2222"]] (Some (newHost "web"), []).
Proof.
  exact (repeated_option_keeps_its_last_value
           (mkEnv "/home/u" (fun _ => None) (fun _ => None)) (fun _ _ => None)
           "Port" "port" ["22"] ["2222"] (newHost "web") []
           eq_refl eq_refl eq_refl ltac:(discriminate) eq_refl eq_refl eq_refl).
Defined.



Lemma replaceFirstChar_first (c : ascii) (by_ before after : string) :
  JsString.includesChar c before = false ->
  JsString.replaceFirstChar c by_ (before ++ String c after) = before ++ by_ ++ after.
Proof.
  induction before as [|d before IH];
    cbn [append JsString.includesChar JsString.replaceFirstChar].
  - intros _. now rewrite Ascii.eqb_refl.
  - rewrite orb_false_iff. intros [-> Hb]. now rewrite (IH Hb).
Qed.

(** X19.  The value of [IdentityFile] has its first [~] replaced by the home
    directory, wherever in the value it stands, and only the first: what is
    before it and after it is kept as written.  A value without [~] is
    stored as it is. *)
Theorem identity_file_has_its_first_tilde_replaced :
  forall (env : Env) (include : string -> Registry -> option Registry)
         (key : string) (values : list string) (h : SSHHost) (hosts : Registry),
    isWord key = true ->
    JsString.toLowerCase key = "identityfile" ->
    forallb isWord values = true ->
    values <> [] ->
    (forall before after,
        JsString.join " " values = before ++ "~" ++ after ->
        JsString.includesChar "~" before = false ->
        parseLine env include (JsString.join " " (key :: values)) (Some h, hosts)
        = Some (Some (setIdentityFile (before ++ homedir env ++ after) h), hosts)) /\
    (JsString.includesChar "~" (JsString.join " " values) = false ->
     parseLine env include (JsString.join " " (key :: values)) (Some h, hosts)
     = Some (Some (setIdentityFile (JsString.join " " values) h), hosts)).
Proof.
  intros env include key values h hosts Hkey Hlower Hvalues Hne.
  assert (Hline : parseLine env include (JsString.join " " (key :: values))
                    (Some h, hosts)
                  = Some (Some (setIdentityFile
                                  (JsString.replaceFirstChar "~" (homedir env)
                                     (JsString.join " " values)) h), hosts)).
  { rewrite parseLine_classify, classify_words by assumption.
    rewrite <- startsWith_hash_toLowerCase, Hlower.
    change (JsString.startsWith "identityfile" "#") with false.
    change (String.eqb "identityfile" "include") with false.
    change (String.eqb "identityfile" "host") with false.
    cbn [andb option_map]. unfold applyProperty.
    destruct (isWord_parts key Hkey) as [-> _].
    rewrite (isEmpty_join_words values Hvalues).
    destruct values as [|v values]; [congruence|]. cbn [negb andb].
    unfold setProperty. rewrite Hlower. reflexivity. }
  rewrite Hline. split.
  - intros before after Hjoin Hbefore. rewrite Hjoin.
    change ("~" ++ after) with (String "~" after).
    now rewrite replaceFirstChar_first.
  - intro Hnone. rewrite replaceFirstChar_none; [reflexivity|].
    rewrite includesChar_allChars in Hnone. now apply negb_false_iff in Hnone.
Qed.

Lemma identity_file_has_its_first_tilde_replaced_witness :
  parseLine (mkEnv "/home/u" (fun _ => None) (fun _ => None)) (fun _ _ => None)
    (JsString.join " " ["IdentityFile"; "~/.ssh/id_~web"]) (Some (newHost "web"), [])
  = Some (Some (setIdentityFile "/home/u/.ssh/id_~web" (newHost "web")), []).
Proof.
  exact (proj1 (identity_file_has_its_first_tilde_replaced
                  (mkEnv "/home/u" (fun _ => None) (fun _ => None)) (fun _ _ => None)
                  "IdentityFile" ["~/.ssh/id_~web"] (newHost "web") []
                  eq_refl eq_refl eq_refl ltac:(discriminate))
           "" "/.ssh/id_~web" eq_refl eq_refl).
Defined.

(** ** The primary configuration *)

Lemma endsWithSlash_names (names : list string) :
  names <> [] -> forallb isPathName names = true ->
  Path.endsWithSlash (absolutePath names) = false.
Proof.
  intros Hne Hnames. unfold absolutePath.
  rewrite endsWithSlash_append
    by (apply isEmpty_join; [exact Hne|now apply names_not_empty]).
  destruct (exists_last Hne) as (init & last & ->).
  rewrite forallb_app in Hnames. apply andb_true_iff in Hnames as [_ Hlast].
  cbn [forallb] in Hlast. rewrite andb_true_r in Hlast.
  destruct (isPathName_parts last Hlast) as (Hlne & Hlns & _).
  rewrite join_snoc. destruct init as [|i init].
  - now apply endsWithSlash_none.
  - rewrite <- append_assoc, endsWithSlash_append by exact Hlne.
    now apply endsWithSlash_none.
Qed.

(** A path of names is normalised already. *)
Lemma normalize_names (names : list string) :
  names <> [] -> forallb isPathName names = true ->
  Path.normalize (absolutePath names) = absolutePath names.
Proof.
  intros Hne Hnames. unfold absolutePath at 1. cbn [append].
  rewrite (normalize_absolute names).
  - rewrite <- (app_nil_r names) at 1.
    rewrite (normalizeSegments_names false names [] [] Hnames).
    cbn [Path.normalizeSegments]. rewrite app_nil_r, rev_involutive.
    destruct names; [congruence|reflexivity].
  - apply splitChar_join; [exact Hne|now apply names_no_slash].
  - exact (endsWithSlash_names names Hne Hnames).
Qed.

(** [join(homedir(), '.ssh', 'config')] *)
Lemma join_home (first : string) (more : list string) :
  forallb isPathName (first :: more) = true ->
  Path.join [absolutePath (first :: more); ".ssh"; "config"]
  = absolutePath (first :: more ++ [".ssh"; "config"]).
Proof.
  intro Hnames.
  assert (Hall : forallb isPathName ((first :: more) ++ [".ssh"; "config"]) = true)
    by (rewrite forallb_app, Hnames; reflexivity).
  change (first :: more ++ [".ssh"; "config"])%list
    with ((first :: more) ++ [".ssh"; "config"])%list.
  rewrite <- (normalize_names ((first :: more) ++ [".ssh"; "config"]))
    by (discriminate || exact Hall).
  unfold Path.join.
  change (filter (fun a => negb (JsString.isEmpty a))
            [absolutePath (first :: more); ".ssh"; "config"])
    with [absolutePath (first :: more); ".ssh"; "config"].
  cbv beta iota. f_equal. cbn [JsString.join]. unfold absolutePath.
  change [".ssh"; "config"] with ([".ssh"] ++ ["config"])%list.
  rewrite app_assoc, join_snoc, join_snoc.
  destruct ((first :: more) ++ [".ssh"])%list eqn:E1; [discriminate|].
  now rewrite !append_assoc.
Qed.



(** ** Include directives *)

Lemma loadFiles_unreadable (env : Env)
    (parse : string -> string -> Registry -> option Registry)
    (files : list string) (hosts : Registry) :
  (forall file, In file files -> readFile env file = None) ->
  loadFiles env parse files hosts = Some hosts.
Proof.
  induction files as [|file files IH]; intro Hfiles; [reflexivity|].
  cbn [loadFiles]. rewrite (Hfiles file (or_introl eq_refl)).
  apply IH. intros f Hf. apply Hfiles. now right.
Qed.

(** X21.  An Include whose files cannot be read is skipped.  When none of the
    files that an Include line names can be read (the one file of a path
    without [*], or every match of a pattern), or when the pattern cannot be
    expanded or matches nothing, the line changes nothing and the parse goes
    on with the next line, as if the Include line were not there. *)
Theorem unreadable_include_is_skipped :
  forall (env : Env) (fuel : nat) (basePath raw includePath : string)
         (pre post : list string) (st : LoopState),
    classify raw = IncludeOf includePath ->
    (forall file,
        In file (includeFiles env includePath basePath) -> readFile env file = None) ->
    (forall parse hosts,
        handleInclude env parse includePath basePath hosts = Some hosts) /\
    parseLines env (includeAt env fuel basePath) (pre ++ raw :: post) st
    = parseLines env (includeAt env fuel basePath) (pre ++ post) st.
Proof.
  intros env fuel basePath raw includePath pre post st Hraw Hfiles.
  assert (Hskip : forall parse hosts,
             handleInclude env parse includePath basePath hosts = Some hosts).
  { intros parse hosts. unfold handleInclude. now apply loadFiles_unreadable. }
  split; [exact Hskip|].
  rewrite !parseLines_app.
  destruct (parseLines env (includeAt env fuel basePath) pre st)
    as [[currentHost hosts]|]; [|reflexivity].
  cbn [parseLines]. rewrite parseLine_classify, Hraw.
  unfold includeAt at 1. now rewrite Hskip.
Qed.

Lemma unreadable_include_is_skipped_witness :
  classify "Include missing.conf" = IncludeOf "missing.conf" /\
  parseLines nestedEnv (includeAt nestedEnv 1 "/home/u/.ssh/config")
    (["Host web"] ++ "Include missing.conf" :: ["HostName h"]) (None, [])
  = parseLines nestedEnv (includeAt nestedEnv 1 "/home/u/.ssh/config")
      (["Host web"] ++ ["HostName h"]) (None, []).
Proof.
  split; [reflexivity|].
  refine (proj2 (unreadable_include_is_skipped nestedEnv 1 "/home/u/.ssh/config"
                   "Include missing.conf" "missing.conf" ["Host web"] ["HostName h"]
                   (None, []) eq_refl _)).
  intros file [<-|[]]. reflexivity.
Defined.

(** X22.  An Include path that starts with [/] is not resolved against the
    file that holds the line: the files it names are the same from whatever
    file it is included.  Without [~] and [*] in it, it names the one file
    with that very path. *)
Theorem absolute_include_does_not_depend_on_the_including_file :
  forall (env : Env) (includePath : string),
    JsString.startsWith includePath "/" = true ->
    (forall basePath basePath',
        includeFiles env includePath basePath
        = includeFiles env includePath basePath') /\
    (JsString.includesChar "~" includePath = false ->
     JsString.includesChar "*" includePath = false ->
     forall basePath, includeFiles env includePath basePath = [includePath]).
Proof.
  intros env includePath Habs.
  assert (Hfull : forall basePath,
             includeFullPath env includePath basePath
             = JsString.replaceFirstChar "~" (homedir env) includePath).
  { intro basePath. unfold includeFullPath. now rewrite Habs. }
  split.
  - intros basePath basePath'. unfold includeFiles. now rewrite !Hfull.
  - intros Htilde Hstar basePath. unfold includeFiles. rewrite Hfull.
    rewrite replaceFirstChar_none
      by (rewrite includesChar_allChars in Htilde; now apply negb_false_iff in Htilde).
    now rewrite Hstar.
Qed.

Lemma absolute_include_does_not_depend_on_the_including_file_witness :
  includeFiles nestedEnv "/etc/ssh/extra" "/home/u/.ssh/config" = ["/etc/ssh/extra"].
Proof.
  exact (proj2 (absolute_include_does_not_depend_on_the_including_file
                  nestedEnv "/etc/ssh/extra" eq_refl)
           eq_refl eq_refl "/home/u/.ssh/config").
Defined.

Lemma join_app (sep : string) (a b : list string) :
  a <> [] -> b <> [] ->
  JsString.join sep (a ++ b) = JsString.join sep a ++ sep ++ JsString.join sep b.
Proof.
  intros Ha Hb. induction a as [|x a IH]; [congruence|].
  destruct a as [|y a].
  - cbn [app]. now rewrite join_cons by exact Hb.
  - cbn [app] in *. rewrite join_cons by discriminate.
    rewrite IH by discriminate.
    rewrite (join_cons sep x (y :: a)) by discriminate.
    now rewrite !append_assoc.
Qed.

(** A path with one segment set apart. *)
Lemma absolutePath_around (dirs : list string) (x : string) (rest : list string) :
  rest <> [] ->
  absolutePath (dirs ++ x :: rest)
  = (match dirs with [] => "/" | _ => absolutePath dirs ++ "/" end)
      ++ x ++ "/" ++ JsString.join "/" rest.
Proof.
  intro Hrest. unfold absolutePath. destruct dirs as [|d dirs].
  - cbn [app]. now rewrite join_cons by exact Hrest.
  - rewrite join_app by discriminate. rewrite (join_cons "/" x rest Hrest).
    now rewrite !append_assoc.
Qed.



(** X24.  A parse leaves alone what it does not declare.  When no Host line
    of the document, and of the files it includes as far as they are read,
    declares an alias, the record stored for that alias after the parse is
    the one stored before (or none, as before), and [getHostInfo] answers
    for it as before. *)
Theorem undeclared_alias_keeps_its_record :
  forall (env : Env) (alias : string) (fuel : nat) (content basePath : string)
         (hosts hosts' : Registry),
    quietAbout env alias fuel content basePath = true ->
    parseSSHConfig env fuel content basePath hosts = Some hosts' ->
    JsMap.get hosts' alias = JsMap.get hosts alias /\
    getHostInfo hosts' alias = getHostInfo hosts alias.
Proof.
  intros env alias fuel content basePath hosts hosts' Hquiet Hrun.
  pose proof (parseSSHConfig_quiet env alias fuel content basePath hosts hosts'
                Hquiet Hrun) as Hget.
  split; [exact Hget|]. unfold getHostInfo. now rewrite Hget.
Qed.

Lemma undeclared_alias_keeps_its_record_witness :
  quietAbout closedBlockEnv "db" 2 "Include other" "/home/u/.ssh/config" = true /\
  parseSSHConfig closedBlockEnv 2 "Include other" "/home/u/.ssh/config"
    [("db", newHost "db")]
  = Some [("db", newHost "db");
          ("web", mkSSHHost "web" (Some "second") (Some "deploy") None None None [])] /\
  JsMap.get
    [("db", newHost "db");
     ("web", mkSSHHost "web" (Some "second") (Some "deploy") None None None [])] "db"
  = JsMap.get [("db", newHost "db")] "db".
Proof.
  split; [reflexivity|]. split; [reflexivity|].
  exact (proj1 (undeclared_alias_keeps_its_record closedBlockEnv "db" 2
                  "Include other" "/home/u/.ssh/config" [("db", newHost "db")]
                  [("db", newHost "db");
                   ("web", mkSSHHost "web" (Some "second") (Some "deploy") None None
                             None [])]
                  eq_refl eq_refl)).
Defined.

Lemma space_prefix_other_space (c : ascii) (p rest : string) :
  JsString.isSpace c = true -> c <> " "%char ->
  String.prefix (p ++ " ") (p ++ String (JsString.lowerChar c) rest) = false.
Proof.
  intros Hc Hne. induction p as [|d p IH]; cbn [append].
  - rewrite prefix_cons.
    destruct (Ascii.eqb_spec " " (JsString.lowerChar c)) as [Heq|]; [|reflexivity].
    exfalso. apply Hne. clear rest.
    destruct c as [[] [] [] [] [] [] [] []]; try discriminate Hc;
      try discriminate Heq; reflexivity.
  - now rewrite prefix_cons, Ascii.eqb_refl, IH.
Qed.

(** The line [key<c>values] where [c] is white space that is not a space. *)
Lemma classify_include_without_space (key : string) (c : ascii)
    (values : list string) :
  JsString.toLowerCase key = "include" ->
  JsString.isSpace c = true -> c <> " "%char ->
  forallb isWord values = true -> values <> [] ->
  classify (key ++ String c (JsString.join " " values))
  = PropertyOf key (JsString.join " " values).
Proof.
  intros Hlower Hc Hne Hvalues Hnonempty.
  assert (Hkey : isWord key = true) by now rewrite <- isWord_toLowerCase, Hlower.
  destruct (isWord_parts key Hkey) as [Hkne Hkns].
  destruct (join_words_end values Hnonempty Hvalues) as [Hend1 Hend2].
  assert (Htrim : JsString.trim (key ++ String c (JsString.join " " values))
                  = key ++ String c (JsString.join " " values)).
  { unfold JsString.trim. rewrite trimStart_word_append by exact Hkey.
    change (key ++ String c (JsString.join " " values))
      with (key ++ String c "" ++ JsString.join " " values).
    rewrite <- append_assoc, trimEnd_append by exact Hend1. now rewrite Hend2. }
  unfold classify. rewrite Htrim.
  rewrite isEmpty_append, Hkne. cbn [andb orb].
  rewrite startsWith_append_first by exact Hkne.
  rewrite <- startsWith_hash_toLowerCase, Hlower.
  change (JsString.startsWith "include" "#") with false. cbv iota.
  rewrite toLowerCase_append, Hlower. cbn [JsString.toLowerCase].
  unfold JsString.startsWith.
  change "include " with ("include" ++ " ").
  rewrite space_prefix_other_space by assumption.
  unfold JsString.splitSpaces.
  rewrite (splitSpacesFrom_word false key _ Hkey).
  cbn [JsString.splitSpacesFrom]. rewrite Hc.
  rewrite (splitSpacesFrom_join_words values true Hnonempty Hvalues).
  cbn [prependHead]. rewrite append_nil_r, Hlower. reflexivity.
Qed.

(** X25.  An Include directive needs a space after its keyword.  A line
    whose keyword [include] is followed by a tab (or other white space that
    is not a space) is no Include: it reads no file.  Inside a block it is
    an option like any unknown one, stored under [include]; outside any
    block it is ignored. *)
Theorem include_needs_a_space_after_the_keyword :
  forall (env : Env) (include : string -> Registry -> option Registry)
         (key : string) (c : ascii) (values : list string)
         (h : SSHHost) (hosts : Registry),
    JsString.toLowerCase key = "include" ->
    JsString.isSpace c = true ->
    c <> " "%char ->
    forallb isWord values = true ->
    values <> [] ->
    parseLine env include (key ++ String c (JsString.join " " values))
      (Some h, hosts)
    = Some (Some (setExtra "include" (JsString.join " " values) h), hosts) /\
    parseLine env include (key ++ String c (JsString.join " " values))
      (None, hosts)
    = Some (None, hosts).
Proof.
  intros env include key c values h hosts Hlower Hc Hne Hvalues Hnonempty.
  rewrite !parseLine_classify,
    (classify_include_without_space key c values Hlower Hc Hne Hvalues Hnonempty).
  split; [|reflexivity]. cbn [option_map]. unfold applyProperty.
  assert (Hkey : isWord key = true) by now rewrite <- isWord_toLowerCase, Hlower.
  destruct (isWord_parts key Hkey) as [-> _].
  rewrite (isEmpty_join_words values Hvalues).
  destruct values as [|v values]; [congruence|]. cbn [negb andb].
  unfold setProperty. rewrite Hlower. reflexivity.
Qed.

Lemma include_needs_a_space_after_the_keyword_witness :
  parseLine selfIncludingEnv
    (includeAt selfIncludingEnv 5 "/home/u/.ssh/config")
    ("Include" ++ String "009" (JsString.join " " ["config"])) (None, [])
  = Some (None, []).
Proof.
  exact (proj2 (include_needs_a_space_after_the_keyword selfIncludingEnv
                  (includeAt selfIncludingEnv 5 "/home/u/.ssh/config")
                  "Include" "009" ["config"] (newHost "web") []
                  eq_refl eq_refl ltac:(discriminate) eq_refl ltac:(discriminate))).
Defined.

(** ** The parse writes the registry and never reads it *)

Lemma setAll_app (a b : list SSHHost) (hosts : Registry) :
  setAll (a ++ b) hosts = setAll b (setAll a hosts).
Proof. apply fold_left_app. Qed.

Lemma commit_setAll (currentHost : option SSHHost) (hosts : Registry) :
  commit currentHost hosts
  = setAll (match currentHost with Some h => [h] | None => [] end) hosts.
Proof. now destruct currentHost. Qed.

Section WritesOnly.

Variable env : Env.

Lemma parseLines_writesOnly (include : string -> Registry -> option Registry)
    (lines : list string) :
  (forall includePath, writesOnly (include includePath)) ->
  forall currentHost,
    (forall hosts, parseLines env include lines (currentHost, hosts) = None)
    \/ exists currentHost' records,
         forall hosts,
           parseLines env include lines (currentHost, hosts)
           = Some (currentHost', setAll records hosts).
Proof.
  intro Hinc. induction lines as [|raw lines IH]; intro currentHost.
  - right. exists currentHost, []. reflexivity.
  - cbn [parseLines].
    destruct (classify raw) as [|includePath|value|key value] eqn:Hk.
    + destruct (IH currentHost) as [Hnone|(c' & records & Hsome)].
      * left. intro hosts. now rewrite parseLine_classify, Hk.
      * right. exists c', records. intro hosts. now rewrite parseLine_classify, Hk.
    + destruct (Hinc includePath) as [Hnone|(included & Hincluded)].
      * left. intro hosts. now rewrite parseLine_classify, Hk, Hnone.
      * destruct (IH currentHost) as [Hnone|(c' & records & Hsome)].
        -- left. intro hosts. now rewrite parseLine_classify, Hk, Hincluded.
        -- right. exists c', (included ++ records)%list. intro hosts.
           now rewrite parseLine_classify, Hk, Hincluded, Hsome, setAll_app.
    + destruct (IH (Some (newHost value))) as [Hnone|(c' & records & Hsome)].
      * left. intro hosts. now rewrite parseLine_classify, Hk.
      * right.
        exists c', ((match currentHost with Some h => [h] | None => [] end)
                      ++ records)%list.
        intro hosts.
        now rewrite parseLine_classify, Hk, Hsome, commit_setAll, setAll_app.
    + destruct (IH (option_map (applyProperty env key value) currentHost))
        as [Hnone|(c' & records & Hsome)].
      * left. intro hosts. now rewrite parseLine_classify, Hk.
      * right. exists c', records. intro hosts. now rewrite parseLine_classify, Hk.
Qed.

Lemma loadFiles_writesOnly (parse : string -> string -> Registry -> option Registry)
    (files : list string) :
  (forall content file, writesOnly (parse content file)) ->
  writesOnly (loadFiles env parse files).
Proof.
  intro Hparse. induction files as [|file files IH].
  - right. exists []. reflexivity.
  - cbn [loadFiles]. destruct (readFile env file) as [content|]; [|exact IH].
    destruct (Hparse content file) as [Hnone|(parsed & Hparsed)].
    + left. intro hosts. now rewrite Hnone.
    + destruct IH as [Hnone|(records & Hsome)].
      * left. intro hosts. now rewrite Hparsed.
      * right. exists (parsed ++ records)%list. intro hosts.
        now rewrite Hparsed, Hsome, setAll_app.
Qed.

Lemma parseSSHConfig_writesOnly (fuel : nat) :
  forall content basePath, writesOnly (parseSSHConfig env fuel content basePath).
Proof.
  induction fuel as [|fuel IH]; intros content basePath; [left; reflexivity|].
  change (writesOnly (parseDocument env (includeAt env fuel basePath) content)).
  unfold parseDocument.
  destruct (parseLines_writesOnly (includeAt env fuel basePath)
              (JsString.splitChar "010" content)) with (currentHost := @None SSHHost)
    as [Hnone|(c' & records & Hsome)].
  - intro includePath. unfold includeAt, handleInclude.
    apply loadFiles_writesOnly. exact IH.
  - left. intro hosts. now rewrite Hnone.
  - right.
    exists (records ++ match c' with Some h => [h] | None => [] end)%list.
    intro hosts. now rewrite Hsome, commit_setAll, setAll_app.
Qed.

End WritesOnly.

(** X26.  The parse writes the registry and never reads it.  What a parse of
    a document does, the files it includes with it, is fixed by the files:
    either it does not return, whatever the registry holds, or it sets a
    fixed sequence of records, each under its own alias, one after the other
    on the registry it was given.  The same holds for [loadSSHConfig]: what
    is registered at startup does not depend on what was registered
    before. *)
Theorem parse_sets_records_and_never_reads_the_registry :
  forall (env : Env) (fuel : nat) (content basePath : string),
    ((forall hosts, parseSSHConfig env fuel content basePath hosts = None)
     \/ exists records,
          forall hosts,
            parseSSHConfig env fuel content basePath hosts
            = Some (setAll records hosts)) /\
    ((forall hosts, loadSSHConfig env fuel hosts = None)
     \/ exists records,
          forall hosts, loadSSHConfig env fuel hosts = Some (setAll records hosts)).
Proof.
  intros env fuel content basePath. split.
  - exact (parseSSHConfig_writesOnly env fuel content basePath).
  - unfold loadSSHConfig.
    destruct (readFile env (Path.join [homedir env; ".ssh"; "config"])) as [c|].
    + exact (parseSSHConfig_writesOnly env fuel c _).
    + right. exists []. reflexivity.
Qed.

(** Registries with the same aliases and the same lookups. *)
Lemma registry_ext (a b : Registry) :
  aliases a = aliases b ->
  NoDup (aliases a) ->
  (forall k, JsMap.get a k = JsMap.get b k) ->
  a = b.
Proof.
  unfold aliases. revert b.
  induction a as [|[k v] a IH]; intros [|[k' v'] b] Hkeys Hnodup Hget;
    try discriminate; [reflexivity|].
  cbn [map fst] in Hkeys, Hnodup. injection Hkeys as <- Hkeys.
  apply NoDup_cons_iff in Hnodup as [Hk Hnodup].
  assert (Hv : v = v').
  { specialize (Hget k). cbn [JsMap.get] in Hget. rewrite String.eqb_refl in Hget.
    congruence. }
  subst v'. f_equal. apply IH; [exact Hkeys|exact Hnodup|].
  intro k0. destruct (String.eqb_spec k k0) as [<-|Hne].
  - assert (Hnone : forall m : Registry, ~ In k (map fst m) -> JsMap.get m k = None).
    { intros m Hm. destruct (JsMap.get m k) eqn:E; [|reflexivity].
      exfalso. apply Hm, get_aliases. eauto. }
    rewrite (Hnone a Hk). symmetry. apply Hnone. now rewrite <- Hkeys.
  - specialize (Hget k0). cbn [JsMap.get] in Hget.
    apply String.eqb_neq in Hne. now rewrite Hne in Hget.
Qed.

Lemma get_setAll_other (records : list SSHHost) (hosts : Registry) (k : string) :
  ~ In k (map host records) ->
  JsMap.get (setAll records hosts) k = JsMap.get hosts k.
Proof.
  revert hosts. induction records as [|r records IH]; intros hosts Hk; [reflexivity|].
  cbn [map In] in Hk. change (setAll (r :: records) hosts)
    with (setAll records (JsMap.set (host r) r hosts)).
  rewrite IH by tauto. apply get_set_other. tauto.
Qed.

Lemma get_setAll_agree (records : list SSHHost) :
  forall hosts1 hosts2,
    (forall k, JsMap.get hosts1 k = JsMap.get hosts2 k \/ In k (map host records)) ->
    forall k, JsMap.get (setAll records hosts1) k = JsMap.get (setAll records hosts2) k.
Proof.
  induction records as [|r records IH]; intros hosts1 hosts2 Hagree k.
  - destruct (Hagree k) as [H|[]]. exact H.
  - change (JsMap.get (setAll records (JsMap.set (host r) r hosts1)) k
            = JsMap.get (setAll records (JsMap.set (host r) r hosts2)) k).
    apply IH. intro k0. destruct (string_dec (host r) k0) as [<-|Hne].
    + left. now rewrite !get_set_same.
    + rewrite !get_set_other by exact Hne.
      destruct (Hagree k0) as [H|[H|H]]; [now left|contradiction|now right].
Qed.

Lemma aliases_setAll_present (records : list SSHHost) :
  forall hosts,
    (forall r, In r records -> In (host r) (aliases hosts)) ->
    aliases (setAll records hosts) = aliases hosts.
Proof.
  induction records as [|r records IH]; intros hosts Hpresent; [reflexivity|].
  change (setAll (r :: records) hosts)
    with (setAll records (JsMap.set (host r) r hosts)).
  destruct (aliases_set (host r) r hosts) as [[_ Hsame]|[Hout _]].
  - rewrite IH; [exact Hsame|]. intros r' Hr'. rewrite Hsame.
    apply Hpresent. now right.
  - exfalso. apply Hout, Hpresent. now left.
Qed.

Lemma setAll_registers (records : list SSHHost) :
  forall hosts r, In r records -> In (host r) (aliases (setAll records hosts)).
Proof.
  induction records as [|r0 records IH]; intros hosts r Hin; [destruct Hin|].
  destruct Hin as [<-|Hr].
  - change (setAll (r0 :: records) hosts)
      with (setAll records (JsMap.set (host r0) r0 hosts)).
    assert (Hin : In (host r0) (aliases (JsMap.set (host r0) r0 hosts)))
      by (apply get_aliases; exists r0; apply get_set_same).
    clear IH. revert Hin. generalize (JsMap.set (host r0) r0 hosts).
    induction records as [|r1 records IH]; intros m Hin; [exact Hin|].
    apply (IH (JsMap.set (host r1) r1 m)). now apply in_aliases_set.
  - exact (IH (JsMap.set (host r0) r0 hosts) r Hr).
Qed.

Lemma nodup_setAll (records : list SSHHost) :
  forall hosts, NoDup (aliases hosts) -> NoDup (aliases (setAll records hosts)).
Proof.
  induction records as [|r records IH]; intros hosts Hnodup; [exact Hnodup|].
  apply (IH (JsMap.set (host r) r hosts)).
  destruct (aliases_set (host r) r hosts) as [[_ ->]|[Hout ->]]; [exact Hnodup|].
  apply NoDup_app; [exact Hnodup|repeat constructor; intros []|].
  intros a Ha [<-|[]]. contradiction.
Qed.

Lemma setAll_twice (records : list SSHHost) (hosts : Registry) :
  NoDup (aliases hosts) ->
  setAll records (setAll records hosts) = setAll records hosts.
Proof.
  intro Hnodup. apply registry_ext.
  - apply aliases_setAll_present. intros r Hr. now apply setAll_registers.
  - rewrite aliases_setAll_present by (intros r Hr; now apply setAll_registers).
    now apply nodup_setAll.
  - intro k. rewrite <- (get_setAll_agree records (setAll records hosts) hosts);
      [reflexivity|].
    intro k0. destruct (in_dec string_dec k0 (map host records)) as [Hin|Hout].
    + now right.
    + left. now apply get_setAll_other.
Qed.

(** X27.  Parsing the same document once more changes nothing.  On a
    registry without a doubled alias (the empty one, at startup), a parse
    that returns leaves a registry that the same parse, run on it again,
    returns unchanged: the records and their order are the same.  So a file
    that is included twice in a row, or a configuration that is loaded again,
    does no harm.  The same holds for [loadSSHConfig]. *)
Theorem parsing_again_changes_nothing :
  forall (env : Env) (fuel : nat) (content basePath : string)
         (hosts hosts' : Registry),
    NoDup (aliases hosts) ->
    (parseSSHConfig env fuel content basePath hosts = Some hosts' ->
     parseSSHConfig env fuel content basePath hosts' = Some hosts') /\
    (loadSSHConfig env fuel hosts = Some hosts' ->
     loadSSHConfig env fuel hosts' = Some hosts').
Proof.
  intros env fuel content basePath hosts hosts' Hnodup.
  assert (Hstep : forall step : Registry -> option Registry,
             writesOnly step -> step hosts = Some hosts' -> step hosts' = Some hosts').
  { intros step [Hnone|(records & Hsome)] Hrun.
    - rewrite Hnone in Hrun. discriminate.
    - rewrite Hsome in Hrun. assert (hosts' = setAll records hosts) as -> by congruence.
      rewrite Hsome. f_equal. now apply setAll_twice. }
  split.
  - apply Hstep, parseSSHConfig_writesOnly.
  - apply Hstep. unfold loadSSHConfig.
    destruct (readFile env (Path.join [homedir env; ".ssh"; "config"])) as [c|].
    + apply parseSSHConfig_writesOnly.
    + right. exists []. reflexivity.
Qed.

Lemma parsing_again_changes_nothing_witness :
  NoDup (aliases [("db", newHost "db")]) /\
  parseSSHConfig closedBlockEnv 2 "Include other" "/home/u/.ssh/config"
    [("db", newHost "db");
     ("web", mkSSHHost "web" (Some "second") (Some "deploy") None None None [])]
  = Some [("db", newHost "db");
          ("web", mkSSHHost "web" (Some "second") (Some "deploy") None None None [])].
Proof.
  assert (Hnodup : NoDup (aliases [("db", newHost "db")])).
  { constructor; [intros []|constructor]. }
  split; [exact Hnodup|].
  exact (proj1 (parsing_again_changes_nothing closedBlockEnv 2 "Include other"
                  "/home/u/.ssh/config" [("db", newHost "db")]
                  [("db", newHost "db");
                   ("web", mkSSHHost "web" (Some "second") (Some "deploy") None None
                             None [])]
                  Hnodup)
           eq_refl).
Defined.

(** ** The timer and the child, in time *)

Lemma deliver_quiet (delay : Z) (timeline : Timeline) :
  forallb (fun te => isQuiet (snd te) || (delay <? fst te)%Z) timeline = true ->
  exists pre post,
    deliver delay timeline = (pre ++ TimerExpires :: post)%list
    /\ forallb isOutput pre = true.
Proof.
  induction timeline as [|[time e] timeline IH]; intro Hall.
  - exists [], []. split; reflexivity.
  - cbn [forallb fst snd] in Hall. apply andb_true_iff in Hall as [Hhead Hall].
    cbn [deliver]. destruct (time <? delay)%Z eqn:Htime.
    + assert (Hq : isQuiet e = true).
      { destruct (isQuiet e); [reflexivity|]. cbn [orb] in Hhead.
        apply Z.ltb_lt in Hhead, Htime. lia. }
      destruct (IH Hall) as (pre & post & -> & Hpre).
      destruct e as [data|data|code|code|message]; try discriminate Hq;
        cbn [handled].
      * exists (StdoutData data :: pre), post. split; [reflexivity|exact Hpre].
      * exists (StderrData data :: pre), post. split; [reflexivity|exact Hpre].
      * exists pre, post. split; [reflexivity|exact Hpre].
    + exists [], (handledAll ((time, e) :: timeline)). split; reflexivity.
Qed.

Lemma deliver_close (delay : Z) (pre : Timeline) (time : Z) (code : option Z)
    (post : Timeline) :
  forallb (fun te => isQuiet (snd te) && (fst te <? delay)%Z) pre = true ->
  (time < delay)%Z ->
  exists outputs,
    deliver delay (pre ++ (time, Closes code) :: post)%list
    = (outputs ++ Close code :: deliver delay post)%list
    /\ forallb isOutput outputs = true.
Proof.
  intros Hpre Htime. induction pre as [|[t e] pre IH].
  - exists []. cbn [app deliver]. apply Z.ltb_lt in Htime. rewrite Htime.
    split; reflexivity.
  - cbn [forallb fst snd] in Hpre. apply andb_true_iff in Hpre as [Hhead Hpre].
    apply andb_true_iff in Hhead as [Hq Ht].
    destruct (IH Hpre) as (outputs & Heq & Hout).
    cbn [app deliver]. rewrite Ht, Heq.
    destruct e as [data|data|c|c|message]; try discriminate Hq; cbn [handled].
    + exists (StdoutData data :: outputs). split; [reflexivity|exact Hout].
    + exists (StderrData data :: outputs). split; [reflexivity|exact Hout].
    + exists outputs. split; [reflexivity|exact Hout].
Qed.

Lemma deliver_expires (delay : Z) (timeline : Timeline) :
  forallb isOutput (deliver delay timeline) = false.
Proof.
  induction timeline as [|[time e] timeline IH]; [reflexivity|].
  cbn [deliver]. destruct (time <? delay)%Z; [|reflexivity].
  destruct (handled e) as [ev|]; [|exact IH].
  cbn [forallb]. rewrite IH. apply andb_false_r.
Qed.

Section TimedCalls.

Variable timeoutError : McpError.
Variable closeReply : option Z -> string -> string -> Reply.
Variable spawnError : string -> McpError.

(** [timedRace] for a call that starts from a fresh [spawn]. *)
Lemma timedRace_spawned (file : string) (args : list string) (delay : Z) :
  timedRace
    (fun timeline =>
       runEvents timeoutError closeReply spawnError (deliver delay timeline)
         (spawned file args))
    delay (Spawn file args) timeoutError.
Proof.
  split; [|split].
  - intros timeline Hquiet.
    destruct (deliver_quiet delay timeline Hquiet) as (pre & post & -> & Hpre).
    destruct (run_decided timeoutError closeReply spawnError file args pre post
                TimerExpires Hpre eq_refl) as [Hs He].
    split; [exact He|exact Hs].
  - intros pre time code post Hpre Htime.
    destruct (deliver_close delay pre time code post Hpre Htime)
      as (outputs & -> & Hout).
    destruct (run_decided timeoutError closeReply spawnError file args outputs
                (deliver delay post) (Close code) Hout eq_refl) as [Hs He].
    split; [exact He|]. eexists. exact Hs.
  - intro timeline. split.
    + rewrite run_timer by reflexivity. apply deliver_expires.
    + apply run_signals. reflexivity.
Qed.

End TimedCalls.

Lemma timedRace_ext (run run' : Timeline -> Call) (delay : Z) (spawn : Effect)
    (timeoutError : McpError) :
  (forall timeline, run timeline = run' timeline) ->
  timedRace run' delay spawn timeoutError -> timedRace run delay spawn timeoutError.
Proof.
  intros Hext (Hexpiry & Hclose & Hall). unfold timedRace.
  split; [|split].
  - intros timeline Hq. rewrite Hext. now apply Hexpiry.
  - intros pre time code post Hpre Htime. rewrite Hext. now apply Hclose.
  - intro timeline. rewrite Hext. apply Hall.
Qed.




(** ** Host lines with several tokens *)

(** An alias that a Host line of the document declares is registered. *)
Lemma declared_alias_is_registered (env : Env) (fuel : nat)
    (content basePath : string) (hosts hosts' : Registry) (raw alias : string) :
  parseSSHConfig env fuel content basePath hosts = Some hosts' ->
  In raw (JsString.splitChar "010" content) ->
  declares alias raw = true ->
  In alias (aliases hosts').
Proof.
  intros Hrun Hraw Hdecl.
  destruct fuel as [|fuel]; [discriminate|].
  change (parseDocument env (includeAt env fuel basePath) content hosts = Some hosts')
    in Hrun.
  unfold parseDocument in Hrun.
  apply in_split in Hraw as (before & after & Hlines). rewrite Hlines in Hrun.
  rewrite parseLines_app in Hrun.
  destruct (parseLines env (includeAt env fuel basePath) before (None, hosts))
    as [[currentHost hosts1]|]; [|discriminate].
  cbn [parseLines] in Hrun. rewrite parseLine_classify in Hrun.
  unfold declares in Hdecl.
  destruct (classify raw) as [|includePath|value|key value]; try discriminate.
  apply String.eqb_eq in Hdecl as ->.
  destruct (parseLines env (includeAt env fuel basePath) after
              (Some (newHost alias), commit currentHost hosts1))
    as [[currentHost2 hosts2]|] eqn:Hafter; [|discriminate].
  assert (hosts' = commit currentHost2 hosts2) as -> by congruence.
  apply in_aliases_commit.
  destruct (parseLines_keeps_declared env (includeAt env fuel basePath) alias after)
    with (st := (Some (newHost alias), commit currentHost hosts1))
         (st' := (currentHost2, hosts2)) as [Hpend|Hin].
  - intros includePath r r' Hr Hi.
    exact (includeAt_invariant env (fun r => In alias (aliases r))
             (fun h r => in_aliases_set alias h r) fuel basePath includePath r r' Hr Hi).
  - left. reflexivity.
  - exact Hafter.
  - right. exact Hpend.
  - left. exact Hin.
Qed.



(** ** Includes, through patterns too *)

Lemma includeFiles_resolved (env : Env) (includePath basePath : string) :
  includeFiles env includePath basePath
  = resolvedFiles env (includeFullPath env includePath basePath).
Proof. reflexivity. Qed.

Lemma path_of_words_is_word (segments : list string) :
  segments <> [] ->
  forallb isPathName segments = true -> forallb isWord segments = true ->
  isWord (JsString.join "/" segments) = true.
Proof.
  intros Hne Hnames Hwords. unfold isWord.
  rewrite isEmpty_join; [|exact Hne|now apply names_not_empty].
  cbn [negb andb]. apply allChars_join; [reflexivity|].
  revert Hwords. apply forallb_impl. intros s Hs. now apply isWord_parts.
Qed.

Section IncludeThroughPatterns.

Variable env : Env.
Variable dirs : list string.
Variable file : string.
Hypothesis Hbase : forallb isPathName (dirs ++ [file]) = true.

Lemma base_names :
  forallb isPathName dirs = true /\ isPathName file = true.
Proof.
  rewrite forallb_app in Hbase. apply andb_true_iff in Hbase as [Hdirs Hfile].
  cbn [forallb] in Hfile. rewrite andb_true_r in Hfile. now split.
Qed.

(** The path of a relative Include, before the matcher or the read. *)
Lemma includeFullPath_relative (includePath : string) :
  JsString.startsWith includePath "/" = false ->
  includeFullPath env includePath (absolutePath (dirs ++ [file]))
  = JsString.replaceFirstChar "~" (homedir env)
      (Path.join [directoryPath dirs; includePath]).
Proof.
  intro Hrel. destruct base_names as [Hdirs Hfile].
  unfold includeFullPath. now rewrite Hrel, (join_parent dirs file Hdirs Hfile).
Qed.

(** The same for a path of names, with no [~] in it or in the directory. *)
Lemma includeFullPath_names (sub : list string) (leaf : string) :
  forallb isPathName (sub ++ [leaf]) = true ->
  forallb isTildeFree (dirs ++ sub ++ [leaf]) = true ->
  includeFullPath env (JsString.join "/" (sub ++ [leaf])) (absolutePath (dirs ++ [file]))
  = absolutePath (dirs ++ sub ++ [leaf]).
Proof.
  intros Hnames Htilde. destruct base_names as [Hdirs Hfile].
  rewrite includeFullPath_relative
    by (apply name_path_is_relative; [now destruct sub|exact Hnames]).
  rewrite (join_relative dirs Hdirs sub leaf Hnames).
  apply replaceFirstChar_none, absolutePath_has_no; [reflexivity|exact Htilde].
Qed.

(** A document that is one Include line of such a path. *)
Lemma parseSSHConfig_include_names (fuel : nat) (sub : list string) (leaf : string)
    (hosts : Registry) :
  forallb isPathName (sub ++ [leaf]) = true ->
  forallb isWord (sub ++ [leaf]) = true ->
  forallb isTildeFree (dirs ++ sub ++ [leaf]) = true ->
  parseSSHConfig env (S fuel) ("Include " ++ JsString.join "/" (sub ++ [leaf]))
    (absolutePath (dirs ++ [file])) hosts
  = loadFiles env (parseSSHConfig env fuel)
      (resolvedFiles env (absolutePath (dirs ++ sub ++ [leaf]))) hosts.
Proof.
  intros Hnames Hwords Htilde.
  destruct (classify_include (JsString.join "/" (sub ++ [leaf])))
    as [Hclass Hsplit].
  { apply path_of_words_is_word; [now destruct sub|exact Hnames|exact Hwords]. }
  cbn [parseSSHConfig].
  rewrite (parseDocument_include env _ _ _ _ hosts Hsplit Hclass).
  unfold handleInclude.
  now rewrite includeFiles_resolved, includeFullPath_names.
Qed.

End IncludeThroughPatterns.



